(** * Cleanup coordination of the LIS scenario-test harness

    A shallow embedding of [tempest/lis/manager.py]: the delete wrapper, the
    cleanup registry with its wait queue, the resource factories and the
    polling helpers, followed by the properties the specification states
    about them.

    The harness is a Python class whose methods mutate [self] and call out
    to REST clients, waiters and [subprocess].  Here a method is a
    state-passing computation over a [TestCase] record; everything that is
    not defined in [manager.py] (clients, waiters, resource handles, the
    clock) is reached through one abstract function [invoke] over an
    abstract [World], so every theorem holds for every behaviour of the
    remote services. *)

From Stdlib Require Import ZArith Lia.
From stdpp Require Import base strings gmap list.

Local Open Scope string_scope.
Local Open Scope list_scope.
Local Open Scope nat_scope.

(** ** Python values *)

(** The values that flow through the harness.  A dictionary nested inside a
    value is an association list read by first match; keyword arguments and
    the wait descriptors, which the harness itself builds and mutates, are
    [gmap string value]. *)
#[warnings="-register-all"]
Inductive value : Type :=
| VNone
| VBool (b : bool)
| VInt (z : Z)
| VStr (s : string)
| VObj (name : string)
| VAttr (obj : value) (name : string)
| VList (l : list value)
| VDict (d : list (string * value))
| VHandle (cls : string) (attrs : list (string * value)).

Abbreviation kwargs := (gmap string value).

(** Python truthiness, as used by [if waiter_client:], [if not client:],
    [if bdm:] and the like. *)
Definition truthy (v : value) : bool :=
  match v with
  | VNone => false
  | VBool b => b
  | VInt z => negb (z =? 0)%Z
  | VStr s => negb (String.eqb s "")
  | VList l => negb (bool_decide (length l = 0))
  | VDict d => negb (bool_decide (length d = 0))
  | VHandle _ d => negb (bool_decide (length d = 0))
  | VObj _ | VAttr _ _ => true
  end.

(** [d[key]] on an association list. *)
Fixpoint assoc (key : string) (d : list (string * value)) : option value :=
  match d with
  | [] => None
  | (k, v) :: d' => if String.eqb key k then Some v else assoc key d'
  end.

(** Python's [==] on values: a boolean is the integer 0 or 1; lists are
    equal item by item; dictionaries are equal when they have the same
    items, in whatever order (the keys of a dictionary are distinct). *)
Fixpoint py_eq (a b : value) {struct a} : bool :=
  let fix eq_list (l l' : list value) {struct l} : bool :=
    match l, l' with
    | [], [] => true
    | x :: l, y :: l' => py_eq x y && eq_list l l'
    | _, _ => false
    end in
  let fix sub_dict (d d' : list (string * value)) {struct d} : bool :=
    match d with
    | [] => true
    | (k, x) :: d =>
        match assoc k d' with
        | Some y => py_eq x y
        | None => false
        end && sub_dict d d'
    end in
  let eq_dict (d d' : list (string * value)) : bool :=
    Nat.eqb (length d) (length d') && sub_dict d d' in
  match a, b with
  | VNone, VNone => true
  | VBool x, VBool y => Bool.eqb x y
  | VInt x, VInt y => (x =? y)%Z
  | VBool x, VInt y => (Z.b2z x =? y)%Z
  | VInt x, VBool y => (x =? Z.b2z y)%Z
  | VStr x, VStr y => String.eqb x y
  | VObj x, VObj y => String.eqb x y
  | VAttr o n, VAttr o' n' => py_eq o o' && String.eqb n n'
  | VList l, VList l' => eq_list l l'
  | VDict d, VDict d' => eq_dict d d'
  | VHandle c d, VHandle c' d' => String.eqb c c' && eq_dict d d'
  | _, _ => false
  end.

(** [needle in hay] on strings. *)
Fixpoint contains (needle hay : string) : bool :=
  String.prefix needle hay ||
  match hay with
  | EmptyString => false
  | String _ hay' => contains needle hay'
  end.

(** Error kinds.  [NotFound] and [Conflict] are the REST-client kinds of
    [tempest.lib.exceptions]; [TimeoutException] is [tempest.exceptions]';
    the others are Python's own. *)
Inductive exn : Type :=
| NotFound (msg : string)
| Conflict (msg : string)
| TimeoutException (msg : string)
| AssertionError (msg : string)
| TypeError
| KeyError (key : string)
| AttributeError (attr : string)
| IndexError
| OtherError (kind : string).

Inductive result (A : Type) : Type :=
| Ok (a : A)
| Raise (e : exn).
Arguments Ok {A} a.
Arguments Raise {A} e.

(** ** Cleanup entries *)

(** What a test registers with [addCleanup].  The two bound methods of the
    harness that the source registers are constructors of their own; any
    other callable is a foreign value.  [delete_thing] and
    [waiter_callable] are therefore always foreign, as at every call site
    of [manager.py]. *)
Inductive action : Type :=
| Foreign (f : value)
| DeleteWrapper
| WaitForCleanups.

Record CleanupEntry : Type := mkEntry {
  ce_action : action;
  ce_args : list value;
  ce_kwargs : kwargs
}.

(** What teardown does, in order: the deferred-action facility starts an
    entry, or a foreign callable is called. *)
Inductive event : Type :=
| Fire (e : CleanupEntry)
| Invoke (f : value) (args : list value) (kw : kwargs).

Definition is_fire (ev : event) : option CleanupEntry :=
  match ev with Fire e => Some e | Invoke _ _ _ => None end.

(** The entries the facility started, in the order it started them. *)
Definition fired (l : list event) : list CleanupEntry := omap is_fire l.

(** The client manager of the primary credentials, the [waiters] module
    and the other modules the harness calls into. *)
Definition manager : value := VObj "manager".
Definition waiters (name : string) : value := VAttr (VObj "waiters") name.
Definition is_none (v : value) : bool :=
  match v with VNone => true | _ => false end.

(** [len(v)] and [for x in v], where they are defined. *)
Definition py_len (v : value) : option nat :=
  match v with
  | VList l => Some (length l)
  | VDict d | VHandle _ d => Some (length d)
  | VStr s => Some (String.length s)
  | _ => None
  end.
Definition py_iter (v : value) : option (list value) :=
  match v with
  | VList l => Some l
  | VDict d | VHandle _ d => Some (map (λ kv, VStr kv.1) d)
  | _ => None
  end.

(** [key in v] and [v.get(key, default)] on a dictionary. *)
Definition has_key (v : value) (key : string) : bool :=
  match v with
  | VDict d | VHandle _ d => bool_decide (is_Some (assoc key d))
  | VStr s => contains key s
  | VList l => existsb (py_eq (VStr key)) l
  | _ => false
  end.
Definition dict_get (v : value) (key : string) (default : value) : option value :=
  match v with
  | VDict d | VHandle _ d => Some (match assoc key d with Some x => x | None => default end)
  | _ => None
  end.

(** [s.split(sep)[1]]: what lies between the first and the second
    occurrence of [sep]; there is no such part when [sep] does not occur. *)
Fixpoint skip (n : nat) (s : string) : string :=
  match n, s with
  | S n', String _ s' => skip n' s'
  | _, _ => s
  end.
Fixpoint before (sep s : string) : string :=
  if String.prefix sep s then ""
  else match s with
       | EmptyString => ""
       | String c s' => String c (before sep s')
       end.
Fixpoint after (sep s : string) : option string :=
  if String.prefix sep s then Some (skip (String.length sep) s)
  else match s with
       | EmptyString => None
       | String _ s' => after sep s'
       end.
Definition split_second (sep s : string) : option string :=
  before sep <$> after sep s.

Section Harness.

Context {World : Type}.

(** Python's call operator on a value the harness does not define:
    [f] applied to [args] and [kw], answered by the remote services. *)
Variable invoke : value -> list value -> kwargs -> World -> result value * World.

(** ** The test case object *)

Record TestCase : Type := mkTestCase {
  _cleanups : list CleanupEntry;
  cleanup_waits : list kwargs;
  world : World;
  log : list event
}.

Definition M (A : Type) : Type := TestCase -> result A * TestCase.

Definition ret {A} (a : A) : M A := fun st => (Ok a, st).
Definition raise {A} (e : exn) : M A := fun st => (Raise e, st).
Definition bind {A B} (m : M A) (k : A -> M B) : M B :=
  fun st => match m st with
            | (Ok a, st') => k a st'
            | (Raise e, st') => (Raise e, st')
            end.
(** [try: m except <kinds of h>: ...]; [h] re-raises what it does not
    handle. *)
Definition try_except {A} (m : M A) (h : exn -> M A) : M A :=
  fun st => match m st with
            | (Ok a, st') => (Ok a, st')
            | (Raise e, st') => h e st'
            end.

Notation "'let!' x ':=' m 'in' k" := (bind m (fun x => k))
  (at level 10, x pattern, m at level 100, k at level 200).
Notation "m ';;' k" := (bind m (fun _ => k))
  (at level 100, k at level 200, right associativity).

(** A call that leaves the harness: logged, then answered by [invoke]. *)
Definition call (f : value) (args : list value) (kw : kwargs) : M value :=
  fun st =>
    let '(r, w) := invoke f args kw (world st) in
    (r, mkTestCase (_cleanups st) (cleanup_waits st) w
                   (log st ++ [Invoke f args kw])).

(** [self.assertEqual] and friends: an [AssertionError] carrying the
    message when the check fails. *)
Definition assertTrue (b : bool) (msg : string) : M unit :=
  if b then ret tt else raise (AssertionError msg).

(** ** [delete_wrapper] *)

Definition delete_wrapper (delete_thing : value) (args : list value)
    (kw : kwargs) : M unit :=
  try_except
    (call delete_thing args kw ;; ret tt)
    (fun e => match e with
              | NotFound _ => ret tt
              | _ => raise e
              end).

(** [n] calls of the wrapper, one after the other, on the same operation
    and arguments. *)
Fixpoint delete_repeatedly (n : nat) (delete_thing : value)
    (args : list value) (kw : kwargs) : M unit :=
  match n with
  | O => ret tt
  | S n' => delete_wrapper delete_thing args kw ;;
            delete_repeatedly n' delete_thing args kw
  end.

(** ** The cleanup registry *)

(** Modelled from the spec: [addCleanup] belongs to the test-case base
    class, which is not part of [manager.py].  Section 4.2 has it append a
    cleanup entry to an ordered sequence. *)
Definition addCleanup (function : action) (args : list value) (kw : kwargs)
    : M unit :=
  fun st => (Ok tt, mkTestCase (_cleanups st ++ [mkEntry function args kw])
                               (cleanup_waits st) (world st) (log st)).

Definition addCleanup_with_wait (waiter_callable thing_id : value)
    (thing_id_param : string) (cleanup_callable : action)
    (cleanup_args : option (list value)) (cleanup_kwargs : option kwargs)
    (waiter_client : value) : M unit :=
  let cleanup_args := default [] cleanup_args in
  let cleanup_kwargs := default ∅ cleanup_kwargs in
  addCleanup cleanup_callable cleanup_args cleanup_kwargs ;;
  let wait_dict : kwargs :=
    <[thing_id_param := thing_id]> {["waiter_callable" := waiter_callable]} in
  let wait_dict :=
    if truthy waiter_client then <["client" := waiter_client]> wait_dict
    else wait_dict in
  fun st => (Ok tt, mkTestCase (_cleanups st) (cleanup_waits st ++ [wait_dict])
                               (world st) (log st)).

(** [wait.pop('waiter_callable')] mutates the dictionary that
    [self.cleanup_waits] holds at position [i]. *)
Definition store_wait (i : nat) (wait : kwargs) : M unit :=
  fun st => (Ok tt, mkTestCase (_cleanups st) (<[i := wait]> (cleanup_waits st))
                               (world st) (log st)).

Fixpoint wait_loop (i : nat) (waits : list kwargs) : M unit :=
  match waits with
  | [] => ret tt
  | wait :: rest =>
      match wait !! "waiter_callable" with
      | None => raise (KeyError "waiter_callable")
      | Some waiter_callable =>
          let wait := delete "waiter_callable" wait in
          store_wait i wait ;;
          call waiter_callable [] wait ;;
          wait_loop (S i) rest
      end
  end.

Definition _wait_for_cleanups : M unit :=
  fun st => wait_loop 0 (cleanup_waits st) st.

(** [setUp]: the base class has run first and left [st]; the wait queue
    starts empty and the drain of the queue is the first cleanup this
    class registers. *)
Definition setUp : M unit :=
  (fun st => (Ok tt, mkTestCase (_cleanups st) [] (world st) (log st))) ;;
  addCleanup WaitForCleanups [] ∅.

(** Calling a registered entry: Python binds the entry's arguments to the
    parameters of the method. *)
Definition call_action (a : action) (args : list value) (kw : kwargs)
    : M unit :=
  match a with
  | Foreign f => call f args kw ;; ret tt
  | DeleteWrapper =>
      match args, kw !! "delete_thing" with
      | delete_thing :: rest, None => delete_wrapper delete_thing rest kw
      | [], Some delete_thing =>
          delete_wrapper delete_thing [] (delete "delete_thing" kw)
      | _, _ => raise TypeError
      end
  | WaitForCleanups =>
      match args with
      | [] => if bool_decide (kw = ∅) then _wait_for_cleanups
              else raise TypeError
      | _ :: _ => raise TypeError
      end
  end.

(** Modelled from the spec: the generic "run deferred actions" facility of
    the base class, which is not part of [manager.py].  Section 4.2: all
    entries run in LIFO order; an entry that raises is recorded and the
    remaining entries still run; the failures are reported together.  The
    loop pops the last entry until the sequence is empty; [n] bounds the
    number of pops. *)
Fixpoint drain (n : nat) : TestCase -> list exn * TestCase :=
  fun st =>
    match n with
    | O => ([], st)
    | S n' =>
        match rev (_cleanups st) with
        | [] => ([], st)
        | e :: earlier =>
            let st1 := mkTestCase (rev earlier) (cleanup_waits st) (world st)
                                  (log st ++ [Fire e]) in
            let '(r, st2) := call_action (ce_action e) (ce_args e)
                                         (ce_kwargs e) st1 in
            let '(errs, st3) := drain n' st2 in
            (match r with Ok _ => errs | Raise x => x :: errs end, st3)
        end
    end.

(** Modelled from the spec: the run of the facility at teardown, which
    pops until the sequence is empty and returns the failures it recorded. *)
Definition doCleanups (st : TestCase) : list exn * TestCase :=
  drain (length (_cleanups st)) st.

(** ** Helpers shared by the factories *)

(** [CONF.group.option], loaded once before any test runs, and the name of
    the test class. *)
Variable CONF : string -> string -> value.
Variable class_name : string.

Definition assertEqual (a b : value) (msg : string) : M unit :=
  assertTrue (py_eq a b) msg.
Definition assertIsNotNone (v : value) (msg : string) : M unit :=
  assertTrue (negb (is_none v)) msg.

(** [v[key]] and [v.name].  A resource handle serves its attributes from
    the response it was built from; any other object is asked. *)
Definition subscript (v : value) (key : string) : M value :=
  match v with
  | VDict d | VHandle _ d =>
      match assoc key d with
      | Some x => ret x
      | None => raise (KeyError key)
      end
  | _ => raise TypeError
  end.
Definition getattr (v : value) (name : string) : M value :=
  match v with
  | VHandle _ d =>
      match assoc name d with
      | Some x => ret x
      | None => raise (AttributeError name)
      end
  | _ => call (VObj "getattr") [v; VStr name] ∅
  end.

(** [x in container], as the [in] operator, [assertIn] and [assertNotIn]
    evaluate it: by equality in a list, by key in a dictionary (a key that cannot be hashed
    is a [TypeError]), as a substring in a string. *)
Definition py_in (x container : value) : M bool :=
  match container with
  | VList l => ret (existsb (py_eq x) l)
  | VDict d | VHandle _ d =>
      match x with
      | VStr k => ret (bool_decide (is_Some (assoc k d)))
      | VList _ | VDict _ | VHandle _ _ => raise TypeError
      | _ => ret false
      end
  | VStr s =>
      match x with
      | VStr k => ret (contains k s)
      | _ => raise TypeError
      end
  | _ => raise TypeError
  end.

Definition rand_name (prefix : value) : M value :=
  call (VAttr (VObj "data_utils") "rand_name") [prefix] ∅.

(** [net_resources.Deletable...(client=..., **body)]: a keyword given twice
    is a [TypeError]. *)
Definition new_handle (cls : string) (given : list (string * value))
    (body : value) : M value :=
  match body with
  | VDict d | VHandle _ d =>
      if forallb (λ kv, bool_decide (assoc kv.1 d = None)) given
      then ret (VHandle cls (given ++ d))
      else raise TypeError
  | _ => raise TypeError
  end.

(** The clients [setup_clients] takes from the manager. *)
Definition keypairs_client : value := VAttr manager "keypairs_client".
Definition servers_client : value := VAttr manager "servers_client".
Definition image_client : value := VAttr manager "image_client".
Definition compute_images_client : value := VAttr manager "compute_images_client".
Definition compute_floating_ips_client : value :=
  VAttr manager "compute_floating_ips_client".
Definition network_client : value := VAttr manager "network_client".
Definition networks_client : value := VAttr manager "networks_client".
Definition ports_client : value := VAttr manager "ports_client".
Definition routers_client : value := VAttr manager "routers_client".
Definition subnets_client : value := VAttr manager "subnets_client".
Definition security_groups_client : value := VAttr manager "security_groups_client".
Definition security_group_rules_client : value :=
  VAttr manager "security_group_rules_client".
Definition volumes_client : value :=
  VAttr manager (if truthy (CONF "volume_feature_enabled" "api_v1")
                 then "volumes_client" else "volumes_v2_client").
Definition snapshots_client : value :=
  VAttr manager (if truthy (CONF "volume_feature_enabled" "api_v1")
                 then "snapshots_client" else "snapshots_v2_client").

(** Loops of the source that call out: [for x in l] collecting results. *)
Fixpoint for_each {A B} (f : A -> M B) (l : list A) : M (list B) :=
  match l with
  | [] => ret []
  | x :: l' => let! y := f x in
               let! ys := for_each f l' in
               ret (y :: ys)
  end.
Definition iterate (v : value) : M (list value) :=
  match py_iter v with
  | Some l => ret l
  | None => raise TypeError
  end.

(** [_create_port] is a method of [NetworkScenarioTest]; [create_server]
    of the base class reaches it through [self]. *)
Definition _create_port (network_id client : value) (namestart : value)
    (kw : kwargs) : M value :=
  let client := if truthy client then client else ports_client in
  let! name := rand_name namestart in
  if bool_decide (is_Some (kw !! "name") ∨ is_Some (kw !! "network_id"))
  then raise TypeError
  else
    let! result := call (VAttr client "create_port") []
                        (<["name" := name]> (<["network_id" := network_id]> kw)) in
    assertIsNotNone result "Unable to allocate port" ;;
    let! body := subscript result "port" in
    let! port := new_handle "DeletablePort" [("ports_client", client)] body in
    addCleanup DeleteWrapper [VAttr port "delete"] ∅ ;;
    ret port.

(** Whether the test class derives from [NetworkScenarioTest]. *)
Variable network_scenario : bool.

(** ** Factories of [ScenarioTest] *)

(** The branch of [create_server] that creates a port on every network
    when a vnic type is configured.  It returns the keyword arguments left
    for the server creation. *)
Definition server_ports (clients vnic_type : value) (kw : kwargs) : M kwargs :=
  let create_port_body : kwargs :=
    {["binding:vnic_type" := vnic_type; "namestart" := VStr "port-smoke"]} in
  let! (create_port_body, networks, kw) :=
    if bool_decide (kw = ∅) then ret (create_port_body, VList [], kw)
    else
      let! (create_port_body, kw) :=
        match kw !! "security_groups" with
        | None => ret (create_port_body, kw)
        | Some wanted =>
            let! r := call (VAttr (VAttr clients "security_groups_client")
                                  "list_security_groups") [] ∅ in
            let! security_groups :=
              match dict_get r "security_groups" VNone with
              | Some x => ret x
              | None => raise (AttributeError "get")
              end in
            let! sgs := iterate security_groups in
            let! sec_dict :=
              for_each (λ s, let! n := subscript s "name" in
                             let! i := subscript s "id" in
                             ret (n, i)) sgs in
            let kw := delete "security_groups" kw in
            let! wanted := iterate wanted in
            let! sec_groups_names := for_each (λ s, subscript s "name") wanted in
            let! security_groups_ids :=
              for_each (λ s, match find (λ p : value * value, py_eq p.1 s)
                                        (rev sec_dict) with
                             | Some p => ret p.2
                             | None => raise (KeyError "security group")
                             end) sec_groups_names in
            ret (match security_groups_ids with
                 | [] => create_port_body
                 | _ => <["security_groups" := VList security_groups_ids]>
                          create_port_body
                 end, kw)
        end in
      match kw !! "networks" with
      | Some networks => ret (create_port_body, networks, delete "networks" kw)
      | None => raise (KeyError "networks")
      end in
  let! networks :=
    if truthy networks then ret networks
    else
      let! networks :=
        call (VAttr (VAttr clients "networks_client") "list_networks") []
             {["filters" := VDict [("router:external", VBool false)]]} in
      match py_len networks with
      | Some n => assertTrue (bool_decide (n = 1))
                    "There is more than one network for the tenant" ;;
                  ret networks
      | None => raise TypeError
      end in
  let! nets := iterate networks in
  (* [self.ports = ports] is kept on the test object and read by no method
     modelled here. *)
  let! ports :=
    for_each (λ net,
      let! net_id := subscript net "uuid" in
      let! port :=
        if network_scenario
        then _create_port net_id (VAttr clients "ports_client")
                          (VStr "port-smoke") (delete "namestart" create_port_body)
        else raise (AttributeError "_create_port") in
      let! port_id := getattr port "id" in
      ret (VDict [("port", port_id)])) nets in
  ret (match ports with
       | [] => kw
       | _ => <["networks" := VList ports]> kw
       end).

(** [kw] holds the keyword arguments beyond the named parameters. *)
Definition create_server (name image_id flavor : value) (validatable : bool)
    (wait_until : value) (wait_on_delete : bool) (clients : value)
    (kw : kwargs) : M value :=
  let clients := if is_none clients then manager else clients in
  let vnic_type := CONF "network" "port_vnic_type" in
  let! kw := if truthy vnic_type then server_ports clients vnic_type kw
             else ret kw in
  let! tenant_network := call (VAttr (VObj "self") "get_tenant_network") [] ∅ in
  if bool_decide (is_Some (kw !! "tenant_network")) then raise TypeError
  else
    let! r := call (VAttr (VObj "compute") "create_test_server") [clients]
                (<["tenant_network" := tenant_network]>
                   (<["wait_until" := wait_until]>
                      (<["name" := name]>
                         (<["flavor" := flavor]>
                            (<["image_id" := image_id]> kw))))) in
    let! body := match r with
                 | VList [body; servers] => ret body
                 | VList _ => raise (OtherError "ValueError")
                 | _ => raise TypeError
                 end in
    let! id := subscript body "id" in
    (if wait_on_delete
     then addCleanup (Foreign (waiters "wait_for_server_termination"))
                     [VAttr clients "servers_client"; id] ∅
     else ret tt) ;;
    addCleanup_with_wait (waiters "wait_for_server_termination") id "server_id"
      DeleteWrapper
      (Some [VAttr (VAttr clients "servers_client") "delete_server"; id]) None
      (VAttr clients "servers_client") ;;
    let! r := call (VAttr (VAttr clients "servers_client") "show_server") [id] ∅ in
    subscript r "server".

Definition create_keypair (client : value) : M value :=
  let client := if truthy client then client else keypairs_client in
  let! name := rand_name (VStr class_name) in
  let! body := call (VAttr client "create_keypair") [] {["name" := name]} in
  addCleanup (Foreign (VAttr client "delete_keypair")) [name] ∅ ;;
  subscript body "keypair".

Definition create_volume (size name snapshot_id imageRef volume_type : value)
    : M value :=
  let! name := if is_none name then rand_name (VStr class_name) else ret name in
  let kw : kwargs := {[ "display_name" := name; "snapshot_id" := snapshot_id;
                        "imageRef" := imageRef; "volume_type" := volume_type ]} in
  let kw := if is_none size then kw else <["size" := size]> kw in
  let! r := call (VAttr volumes_client "create_volume") [] kw in
  let! volume := subscript r "volume" in
  let! id := subscript volume "id" in
  addCleanup (Foreign (VAttr volumes_client "wait_for_resource_deletion")) [id] ∅ ;;
  addCleanup DeleteWrapper [VAttr volumes_client "delete_volume"; id] ∅ ;;
  let! echoed := subscript volume (if has_key volume "display_name"
                                   then "display_name" else "name") in
  assertEqual name echoed "name" ;;
  call (waiters "wait_for_volume_status") [volumes_client; id; VStr "available"] ∅ ;;
  let! r := call (VAttr volumes_client "show_volume") [id] ∅ in
  subscript r "volume".

Definition _image_create (name : string) (fmt path disk_format properties : value)
    : M value :=
  let properties := if is_none properties then VDict [] else properties in
  let! name := rand_name (VStr (name +:+ "-")) in
  let params : kwargs :=
    {[ "name" := name; "container_format" := fmt;
       "disk_format" := (if truthy disk_format then disk_format else fmt);
       "is_public" := VStr "False" ]} in
  let params := <["properties" := properties]> params in
  let! r := call (VAttr image_client "create_image") [] params in
  let! image := subscript r "image" in
  let! id := subscript image "id" in
  addCleanup (Foreign (VAttr image_client "delete_image")) [id] ∅ ;;
  let! status := subscript image "status" in
  assertEqual (VStr "queued") status "status" ;;
  let! image_file := call (VObj "open") [path; VStr "rb"] ∅ in
  call (VAttr image_client "update_image") [id] {["data" := image_file]} ;;
  ret id.

Definition create_floating_ip (thing pool_name : value) : M value :=
  let pool_name := if truthy pool_name then pool_name
                   else CONF "network" "floating_network_name" in
  let! r := call (VAttr compute_floating_ips_client "create_floating_ip") []
                 {["pool" := pool_name]} in
  let! floating_ip := subscript r "floating_ip" in
  let! id := subscript floating_ip "id" in
  addCleanup DeleteWrapper
    [VAttr compute_floating_ips_client "delete_floating_ip"; id] ∅ ;;
  let! ip := subscript floating_ip "ip" in
  let! thing_id := subscript thing "id" in
  call (VAttr compute_floating_ips_client "associate_floating_ip_to_server")
       [ip; thing_id] ∅ ;;
  ret floating_ip.

Definition create_server_snapshot (server name : value) : M value :=
  let _image_client := image_client in
  let _images_client := compute_images_client in
  let! name := if is_none name then rand_name (VStr "scenario-snapshot")
               else ret name in
  subscript server "name" ;;
  let! server_id := subscript server "id" in
  let! image := call (VAttr _images_client "create_image") [server_id]
                     {["name" := name]} in
  let! response := getattr image "response" in
  let! location := subscript response "location" in
  let! image_id :=
    match location with
    | VStr l => match split_second "images/" l with
                | Some id => ret (VStr id)
                | None => raise IndexError
                end
    | _ => raise (AttributeError "split")
    end in
  call (VAttr _image_client "wait_for_image_status") [image_id; VStr "active"] ∅ ;;
  addCleanup_with_wait (VAttr _image_client "wait_for_resource_deletion")
    image_id "id" DeleteWrapper
    (Some [VAttr _image_client "delete_image"; image_id]) None VNone ;;
  let! snapshot_image := call (VAttr _image_client "get_image_meta") [image_id] ∅ in
  let! properties :=
    match dict_get snapshot_image "properties" (VDict []) with
    | Some x => ret x
    | None => raise (AttributeError "get")
    end in
  let! bdm :=
    match dict_get properties "block_device_mapping" VNone with
    | Some x => ret x
    | None => raise (AttributeError "get")
    end in
  (if truthy bdm then
     let! bdm := call (VAttr (VObj "json") "loads") [bdm] ∅ in
     if truthy bdm then
       let! first := match bdm with
                     | VList (x :: _) => ret x
                     | VStr (String c _) => ret (VStr (String c ""))
                     | VDict _ | VHandle _ _ => raise (KeyError "0")
                     | _ => raise TypeError
                     end in
       let! found := py_in (VStr "snapshot_id") first in
       if found then
         let! snapshot_id := subscript first "snapshot_id" in
         addCleanup (Foreign (VAttr snapshots_client "wait_for_resource_deletion"))
                    [snapshot_id] ∅ ;;
         addCleanup DeleteWrapper
                    [VAttr snapshots_client "delete_snapshot"; snapshot_id] ∅ ;;
         call (waiters "wait_for_snapshot_status")
              [snapshots_client; snapshot_id; VStr "available"] ∅ ;;
         ret tt
       else ret tt
     else ret tt
   else ret tt) ;;
  let! image_name := subscript snapshot_image "name" in
  assertEqual name image_name "name" ;;
  subscript server "name" ;;
  ret snapshot_image.

(** ** Factories of [NetworkScenarioTest] *)

Definition _create_network (client networks_client' routers_client' tenant_id : value)
    (namestart : value) : M value :=
  let client := if truthy client then client else network_client in
  let networks_client' :=
    if truthy networks_client' then networks_client' else networks_client in
  let routers_client' :=
    if truthy routers_client' then routers_client' else routers_client in
  let! tenant_id := if truthy tenant_id then ret tenant_id
                    else getattr client "tenant_id" in
  let! name := rand_name namestart in
  let! result := call (VAttr networks_client' "create_network") []
                      {["name" := name; "tenant_id" := tenant_id]} in
  let! body := subscript result "network" in
  let! network := new_handle "DeletableNetwork"
                    [("networks_client", networks_client');
                     ("routers_client", routers_client')] body in
  let! echoed := getattr network "name" in
  assertEqual echoed name "name" ;;
  addCleanup DeleteWrapper [VAttr network "delete"] ∅ ;;
  ret network.

Definition admin_manager : value := VObj "admin_manager".

(** [self._list_subnets(tenant_id=..., cidr=...)], with admin credentials. *)
Definition _list_subnets (kw : kwargs) : M value :=
  let! r := call (VAttr (VAttr admin_manager "subnets_client") "list_subnets") [] kw in
  subscript r "subnets".

(** The nested function of [_create_subnet]. *)
Definition cidr_in_use (cidr tenant_id : value) : M bool :=
  let! cidr_in_use := _list_subnets {["tenant_id" := tenant_id; "cidr" := cidr]} in
  match py_len cidr_in_use with
  | Some n => ret (negb (bool_decide (n = 0)))
  | None => raise TypeError
  end.

(** What the body of the loop of [_create_subnet] does with one candidate
    block: [continue] because the block is in use, fall out of the
    [except] clause because the creation overlapped, or [break] with the
    response of the creation. *)
Inductive attempt : Type :=
| InUse
| Overlaps
| Created (result : value).

(** The [try] statement of the loop. *)
Definition create_or_overlap (subnets_client' : value) (subnet : kwargs)
    : M attempt :=
  try_except
    (let! result := call (VAttr subnets_client' "create_subnet") [] subnet in
     ret (Created result))
    (λ e, match e with
          | Conflict msg =>
              if contains "overlaps with another subnet" msg
              then ret Overlaps
              else raise e
          | _ => raise e
          end).

Definition try_candidate (str_cidr network subnets_client' : value)
    (namestart ip_version : value) (kw : kwargs) : M attempt :=
  let! tenant_id := getattr network "tenant_id" in
  let! in_use := cidr_in_use str_cidr tenant_id in
  if in_use then ret InUse
  else
    let! name := rand_name namestart in
    let! network_id := getattr network "id" in
    let! tenant_id := getattr network "tenant_id" in
    let subnet : kwargs :=
      {[ "name" := name; "network_id" := network_id;
         "tenant_id" := tenant_id; "cidr" := str_cidr;
         "ip_version" := ip_version ]} in
    if bool_decide (dom kw ##@{gset string} dom subnet)
    then create_or_overlap subnets_client' (kw ∪ subnet)
    else raise TypeError.

(** The loop of [_create_subnet] over the candidate blocks that are left.
    It returns [result] and [str_cidr] as the loop leaves them: the
    response of the creation that succeeded, or [None] when the candidates
    ran out. *)
Fixpoint allocate_subnet (candidates : list value) (network subnets_client' : value)
    (namestart ip_version : value) (kw : kwargs) (str_cidr : value)
    : M (value * value) :=
  match candidates with
  | [] => ret (VNone, str_cidr)
  | subnet_cidr :: candidates' =>
      let str_cidr := subnet_cidr in
      let! tried := try_candidate str_cidr network subnets_client' namestart
                                  ip_version kw in
      match tried with
      | InUse | Overlaps =>
          allocate_subnet candidates' network subnets_client' namestart
                          ip_version kw str_cidr
      | Created result => ret (result, str_cidr)
      end
  end.

(** The candidate blocks: what [netaddr] enumerates for the tenant network
    and the mask of the ip version, a finite sequence, taken here as the
    strings the loop converts the blocks to. *)
Definition candidate_blocks (ip_version : value) : M (list value) :=
  let v6 := py_eq ip_version (VInt 6) in
  let! tenant_cidr :=
    call (VAttr (VObj "netaddr") "IPNetwork")
         [CONF "network" (if v6 then "tenant_network_v6_cidr"
                          else "tenant_network_cidr")] ∅ in
  let num_bits := CONF "network" (if v6 then "tenant_network_v6_mask_bits"
                                  else "tenant_network_mask_bits") in
  let! blocks := call (VAttr tenant_cidr "subnet") [num_bits] ∅ in
  iterate blocks.

Definition _create_subnet (network client subnets_client' routers_client' : value)
    (namestart : value) (kw : kwargs) : M value :=
  let client := if truthy client then client else network_client in
  let subnets_client' :=
    if truthy subnets_client' then subnets_client' else subnets_client in
  let routers_client' :=
    if truthy routers_client' then routers_client' else routers_client in
  let ip_version := match kw !! "ip_version" with Some v => v | None => VInt 4 end in
  let kw := delete "ip_version" kw in
  let! candidates := candidate_blocks ip_version in
  let! (result, str_cidr) :=
    allocate_subnet candidates network subnets_client' namestart ip_version kw
                    VNone in
  assertIsNotNone result "Unable to allocate tenant network" ;;
  let! body := subscript result "subnet" in
  let! subnet := new_handle "DeletableSubnet"
                   [("network_client", client);
                    ("subnets_client", subnets_client');
                    ("routers_client", routers_client')] body in
  let! cidr := getattr subnet "cidr" in
  assertEqual cidr str_cidr "cidr" ;;
  addCleanup DeleteWrapper [VAttr subnet "delete"] ∅ ;;
  ret subnet.

Definition _default_security_group (client tenant_id : value) : M value :=
  let client := if is_none client then security_groups_client else client in
  let! tenant_id := if truthy tenant_id then ret tenant_id
                    else getattr client "tenant_id" in
  let! r := call (VAttr client "list_security_groups") [] ∅ in
  let! listed :=
    match r with
    | VDict ((_, v) :: _) | VHandle _ ((_, v) :: _) => ret v
    | VDict [] | VHandle _ [] => raise IndexError
    | _ => raise (AttributeError "values")
    end in
  let! listed := iterate listed in
  let! marked :=
    for_each (λ sg,
      let! t := subscript sg "tenant_id" in
      if py_eq t tenant_id
      then let! n := subscript sg "name" in ret (sg, py_eq n (VStr "default"))
      else ret (sg, false)) listed in
  match filter (λ p : value * bool, p.2 = true) marked with
  | [] => raise (AssertionError "No default security group for tenant")
  | (sg, _) :: _ => new_handle "DeletableSecurityGroup" [("client", client)] sg
  end.

Definition _create_security_group_rule (secgroup sec_group_rules_client : value)
    (tenant_id security_groups_client' : value) (kw : kwargs) : M value :=
  let sec_group_rules_client :=
    if is_none sec_group_rules_client then security_group_rules_client
    else sec_group_rules_client in
  let security_groups_client' :=
    if is_none security_groups_client' then security_groups_client
    else security_groups_client' in
  let! tenant_id := if truthy tenant_id then ret tenant_id
                    else getattr security_groups_client' "tenant_id" in
  let! secgroup := if is_none secgroup
                   then _default_security_group security_groups_client' tenant_id
                   else ret secgroup in
  let! group_id := getattr secgroup "id" in
  let! group_tenant := getattr secgroup "tenant_id" in
  let ruleset : kwargs :=
    kw ∪ {["security_group_id" := group_id; "tenant_id" := group_tenant]} in
  let! r := call (VAttr sec_group_rules_client "create_security_group_rule") []
                 ruleset in
  let! body := subscript r "security_group_rule" in
  let! sg_rule := new_handle "DeletableSecurityGroupRule"
                    [("client", sec_group_rules_client)] body in
  let! group_tenant := getattr secgroup "tenant_id" in
  let! rule_tenant := getattr sg_rule "tenant_id" in
  assertEqual group_tenant rule_tenant "tenant_id" ;;
  let! group_id := getattr secgroup "id" in
  let! rule_group := getattr sg_rule "security_group_id" in
  assertEqual group_id rule_group "security_group_id" ;;
  ret sg_rule.

(** The rule sets of [_create_loginable_secgroup_rule]: ssh, ping, ping6. *)
Definition rulesets : list kwargs :=
  [ {[ "protocol" := VStr "tcp"; "port_range_min" := VInt 22;
       "port_range_max" := VInt 22 ]};
    {[ "protocol" := VStr "icmp" ]};
    {[ "protocol" := VStr "icmp"; "ethertype" := VStr "IPv6" ]} ].

(** The two nested loops, as one loop over the pairs they visit, in the
    order they visit them. *)
Definition loginable_attempts : list (kwargs * string) :=
  ruleset ← rulesets; r_direction ← ["ingress"; "egress"]; [(ruleset, r_direction)].

Fixpoint loginable_rules (attempts : list (kwargs * string))
    (sec_group_rules_client secgroup security_groups_client' : value)
    (rules : list value) : M (list value) :=
  match attempts with
  | [] => ret rules
  | (ruleset, r_direction) :: attempts' =>
      let ruleset := <["direction" := VStr r_direction]> ruleset in
      let! created :=
        try_except
          (let! sg_rule := _create_security_group_rule secgroup
                             sec_group_rules_client VNone
                             security_groups_client' ruleset in
           ret (Some sg_rule))
          (λ ex, match ex with
                 | Conflict _error_string =>
                     if contains "Security group rule already exists" _error_string
                     then ret None
                     else raise ex
                 | _ => raise ex
                 end) in
      match created with
      | None => loginable_rules attempts' sec_group_rules_client secgroup
                                security_groups_client' rules
      | Some sg_rule =>
          let! direction := getattr sg_rule "direction" in
          assertEqual (VStr r_direction) direction "direction" ;;
          loginable_rules attempts' sec_group_rules_client secgroup
                          security_groups_client' (rules ++ [sg_rule])
      end
  end.

Definition _create_loginable_secgroup_rule
    (security_group_rules_client' secgroup security_groups_client' : value)
    : M (list value) :=
  let security_group_rules_client' :=
    if is_none security_group_rules_client' then security_group_rules_client
    else security_group_rules_client' in
  let security_groups_client' :=
    if is_none security_groups_client' then security_groups_client
    else security_groups_client' in
  loginable_rules loginable_attempts security_group_rules_client' secgroup
                  security_groups_client' [].

(** ** Polling *)

(** The clock, in ticks: what [time.time()] reads in a world, and the
    world after [time.sleep(d)]. *)
Variable now : World -> nat.
Variable sleep : nat -> World -> World.

Definition slept (d : nat) (st : TestCase) : TestCase :=
  mkTestCase (_cleanups st) (cleanup_waits st) (sleep d (world st)) (log st).

(** A computation that may not come back: [None] when [fuel] iterations
    were not enough. *)
Definition Polled (A : Type) : Type := TestCase -> option (result A * TestCase).

(** Modelled from the spec: [tempest.test.call_until_true] is not part of
    [manager.py].  Section 4.4: given a predicate of no arguments, a total
    timeout and a poll interval, invoke the predicate until it returns
    true or the timeout elapses, sleeping the interval between two checks;
    return a boolean telling which occurred, and never raise on timeout. *)
Fixpoint poll (fuel : nat) (func : M value) (deadline sleep_for : nat) : Polled bool :=
  fun st =>
    match fuel with
    | O => None
    | S fuel' =>
        if bool_decide (now (world st) < deadline) then
          match func st with
          | (Ok v, st') =>
              if truthy v then Some (Ok true, st')
              else poll fuel' func deadline sleep_for (slept sleep_for st')
          | (Raise e, st') => Some (Raise e, st')
          end
        else Some (Ok false, st)
    end.
(** Modelled from the spec: the helper itself, which fixes the deadline
    when it is called. *)
Definition call_until_true (fuel : nat) (func : M value)
    (duration sleep_for : nat) : Polled bool :=
  fun st => poll fuel func (now (world st) + duration) sleep_for st.

(** The nested function of [ping_ip_address]. *)
Definition ping (cmd : value) (should_succeed : bool) : M value :=
  let! proc := call (VAttr (VObj "subprocess") "Popen") [cmd]
                    {[ "stdout" := VAttr (VObj "subprocess") "PIPE";
                       "stderr" := VAttr (VObj "subprocess") "PIPE" ]} in
  call (VAttr proc "communicate") [] ∅ ;;
  let! returncode := getattr proc "returncode" in
  ret (VBool (Bool.eqb (py_eq returncode (VInt 0)) should_succeed)).

(** A timeout of the configuration or of the caller, in ticks. *)
Definition ticks (v : value) : option nat :=
  match v with
  | VInt z => Some (Z.to_nat z)
  | _ => None
  end.

Definition ping_ip_address (fuel : nat) (ip_address : value)
    (should_succeed : bool) (ping_timeout : value) : Polled bool :=
  let timeout := if truthy ping_timeout then ping_timeout
                 else CONF "validation" "ping_timeout" in
  let cmd := VList [VStr "ping"; VStr "-c1"; VStr "-w1"; ip_address] in
  fun st =>
    match call (VAttr (VObj "misc_utils") "find_test_caller") [] ∅ st with
    | (Ok caller, st1) =>
        match ticks timeout with
        | Some timeout => call_until_true fuel (ping cmd should_succeed) timeout 1 st1
        | None => Some (Raise TypeError, st1)
        end
    | (Raise e, st1) => Some (Raise e, st1)
    end.

(** ** Bare-metal state convergence *)

Definition baremetal_client : value := VAttr admin_manager "baremetal_client".

(** [_, body = ...]: the second of a pair. *)
Definition second (r : value) : M value :=
  match r with
  | VList [_; body] => ret body
  | VList _ => raise (OtherError "ValueError")
  | _ => raise TypeError
  end.

Definition get_node (node_id instance_id : value) : M value :=
  if truthy node_id then
    let! r := call (VAttr baremetal_client "show_node") [node_id] ∅ in
    second r
  else if truthy instance_id then
    let! r := call (VAttr baremetal_client "show_node_by_instance_uuid")
                   [instance_id] ∅ in
    let! body := second r in
    let! nodes := subscript body "nodes" in
    if truthy nodes then
      match nodes with
      | VList (node :: _) => ret node
      | _ => raise (KeyError "0")
      end
    else ret VNone
  else ret VNone.

(** The nested function of [_node_state_timeout]. *)
Definition check_state (node_id : value) (state_attr : string)
    (target_states : list value) : M value :=
  let! node := get_node node_id VNone in
  match dict_get node state_attr VNone with
  | Some state => ret (VBool (existsb (py_eq state) target_states))
  | None => raise (AttributeError "get")
  end.

Definition timed_out : string := "Timed out waiting for node to reach state(s)".

Definition _node_state_timeout (fuel : nat) (node_id : value)
    (state_attr : string) (target_states : value) (timeout interval : nat)
    : Polled unit :=
  let target_states :=
    match target_states with
    | VList l => l
    | _ => [target_states]
    end in
  fun st =>
    match call_until_true fuel (check_state node_id state_attr target_states)
                          timeout interval st with
    | None => None
    | Some (Ok true, st') => Some (Ok tt, st')
    | Some (Ok false, st') => Some (Raise (TimeoutException timed_out), st')
    | Some (Raise e, st') => Some (Raise e, st')
    end.

Definition wait_provisioning_state (fuel : nat) (node_id state : value)
    (timeout : nat) : Polled unit :=
  _node_state_timeout fuel node_id "provision_state" state timeout 1.

Definition wait_power_state (fuel : nat) (node_id state : value) : Polled unit :=
  fun st =>
    match ticks (CONF "baremetal" "power_timeout") with
    | Some timeout =>
        _node_state_timeout fuel node_id "power_state" state timeout 1 st
    | None => Some (Raise TypeError, st)
    end.

(** ** Helpers for the rest of the harness *)

(** [for x in v]: as [iterate], and a string gives its characters. *)
Definition for_in (v : value) : M (list value) :=
  match v with
  | VStr s => ret (map (λ c, VStr (String c "")) (String.list_ascii_of_string s))
  | _ => iterate v
  end.

(** [v[0]]. *)
Definition first_item (v : value) : M value :=
  match v with
  | VList (x :: _) => ret x
  | VList [] => raise IndexError
  | VStr (String c _) => ret (VStr (String c ""))
  | VStr EmptyString => raise IndexError
  | VDict _ | VHandle _ _ => raise (KeyError "0")
  | _ => raise TypeError
  end.

(** [a + b] at the places where the source concatenates strings: a
    [TypeError] unless both are strings. *)
Definition str_add (a b : value) : M value :=
  match a, b with
  | VStr x, VStr y => ret (VStr (x ++ y))
  | _, _ => raise TypeError
  end.

(** ** The rest of [ScenarioTest] *)

Definition compute_security_groups_client : value :=
  VAttr manager "compute_security_groups_client".
Definition compute_security_group_rules_client : value :=
  VAttr manager "compute_security_group_rules_client".

(** The loop of the compute variant of [_create_loginable_secgroup_rule]
    that looks for the default group: every group named [default]
    overwrites [secgroup_id]. *)
Fixpoint default_group_id (sgs : list value) (secgroup_id : value) : M value :=
  match sgs with
  | [] => ret secgroup_id
  | sg :: sgs' =>
      let! name := subscript sg "name" in
      if py_eq name (VStr "default")
      then let! id := subscript sg "id" in default_group_id sgs' id
      else default_group_id sgs' secgroup_id
  end.

(** Its rule sets: ssh and ping. *)
Definition compute_rulesets : list kwargs :=
  [ {[ "ip_protocol" := VStr "tcp"; "from_port" := VInt 22;
       "to_port" := VInt 22; "cidr" := VStr "0.0.0.0/0" ]};
    {[ "ip_protocol" := VStr "icmp"; "from_port" := VInt (-1);
       "to_port" := VInt (-1); "cidr" := VStr "0.0.0.0/0" ]} ].

(** Its second loop, over the rule sets that are left; none of them names
    [parent_group_id]. *)
Fixpoint compute_rules (rulesets : list kwargs) (secgroup_id : value)
    (rules : list value) : M (list value) :=
  match rulesets with
  | [] => ret rules
  | ruleset :: rulesets' =>
      let! r := call (VAttr compute_security_group_rules_client
                            "create_security_group_rule") []
                     (<["parent_group_id" := secgroup_id]> ruleset) in
      let! sg_rule := subscript r "security_group_rule" in
      compute_rules rulesets' secgroup_id (rules ++ [sg_rule])
  end.

(** [ScenarioTest._create_loginable_secgroup_rule], the variant on the
    compute API; [NetworkScenarioTest] overrides it with the one above. *)
Definition ScenarioTest_create_loginable_secgroup_rule (secgroup_id : value)
    : M (list value) :=
  let _client := compute_security_groups_client in
  let! secgroup_id :=
    if is_none secgroup_id then
      let! r := call (VAttr _client "list_security_groups") [] ∅ in
      let! sgs := subscript r "security_groups" in
      let! sgs := for_in sgs in
      default_group_id sgs secgroup_id
    else ret secgroup_id in
  compute_rules compute_rulesets secgroup_id [].

(** [ScenarioTest._create_security_group], on the compute API; it is
    reached on the classes that do not derive from [NetworkScenarioTest],
    which overrides it and the rule factory it calls. *)
Definition ScenarioTest_create_security_group : M value :=
  let! sg_name := rand_name (VStr class_name) in
  let! sg_desc := str_add sg_name (VStr " description") in
  let! r := call (VAttr compute_security_groups_client "create_security_group") []
                 {[ "name" := sg_name; "description" := sg_desc ]} in
  let! secgroup := subscript r "security_group" in
  let! name := subscript secgroup "name" in
  assertEqual name sg_name "name" ;;
  let! description := subscript secgroup "description" in
  assertEqual description sg_desc "description" ;;
  let! id := subscript secgroup "id" in
  addCleanup DeleteWrapper
    [VAttr compute_security_groups_client "delete_security_group"; id] ∅ ;;
  let! id := subscript secgroup "id" in
  ScenarioTest_create_loginable_secgroup_rule id ;;
  ret secgroup.

(** The loop of [_log_console_output]. *)
Fixpoint console_outputs (servers : list value) : M unit :=
  match servers with
  | [] => ret tt
  | server :: servers' =>
      let! id := subscript server "id" in
      let! r := call (VAttr servers_client "get_console_output") [id] ∅ in
      subscript r "output" ;;
      console_outputs servers'
  end.

Definition _log_console_output (servers : value) : M unit :=
  if truthy (CONF "compute_feature_enabled" "console_output") then
    let! servers :=
      if truthy servers then ret servers
      else let! r := call (VAttr servers_client "list_servers") [] ∅ in
           subscript r "servers" in
    let! servers := for_in servers in
    console_outputs servers
  else ret tt.

(** [get_remote_client]; [LisBase] overrides it with a copy of the same
    text.  [keypair] is [self.keypair], which a test has set or not. *)
Definition get_remote_client (keypair : option value)
    (ip_address username private_key : value) : M value :=
  let username := if is_none username then CONF "validation" "image_ssh_user"
                  else username in
  let! (password, private_key) :=
    if py_eq (CONF "validation" "auth_method") (VStr "keypair") then
      let! private_key :=
        if is_none private_key then
          match keypair with
          | Some k => subscript k "private_key"
          | None => raise (AttributeError "keypair")
          end
        else ret private_key in
      ret (VNone, private_key)
    else ret (CONF "validation" "image_ssh_password", VNone) in
  let! linux_client :=
    call (VAttr (VObj "remote_client") "RemoteClient") [ip_address; username]
         {[ "pkey" := private_key; "password" := password ]} in
  try_except
    (call (VAttr linux_client "validate_authentication") [] ∅ ;; ret tt)
    (λ e, call (VAttr (VObj "misc_utils") "find_test_caller") [] ∅ ;;
          _log_console_output VNone ;;
          raise e) ;;
  ret linux_client.

(** [v[key]] for a key that is a value: a name, or a position in a list
    or a string, counted from the end when negative. *)
Definition item_at {A} (l : list A) (i : Z) : option A :=
  let j := if (i <? 0)%Z then (i + Z.of_nat (length l))%Z else i in
  if (0 <=? j)%Z then l !! Z.to_nat j else None.
Definition at_position (v : value) (i : Z) : M value :=
  match v with
  | VList l =>
      match item_at l i with
      | Some x => ret x
      | None => raise IndexError
      end
  | VStr s =>
      match item_at (String.list_ascii_of_string s) i with
      | Some c => ret (VStr (String c ""))
      | None => raise IndexError
      end
  | VDict _ | VHandle _ _ => raise (KeyError "")
  | _ => raise TypeError
  end.
Definition subscript_by (v key : value) : M value :=
  match key with
  | VStr k => subscript v k
  | VInt i => at_position v i
  | VBool b => at_position v (Z.b2z b)
  | VList _ | VDict _ | VHandle _ _ => raise TypeError
  | _ =>
      match v with
      | VDict _ | VHandle _ _ => raise (KeyError "")
      | _ => raise TypeError
      end
  end.

(** [create_server_snapshot_nocleanup] of [LisBase]: the text of
    [create_server_snapshot] without the registration of the image. *)
Definition create_server_snapshot_nocleanup (server name : value) : M value :=
  let _image_client := image_client in
  let _images_client := compute_images_client in
  let! name := if is_none name then rand_name (VStr "scenario-snapshot")
               else ret name in
  subscript server "name" ;;
  let! server_id := subscript server "id" in
  let! image := call (VAttr _images_client "create_image") [server_id]
                     {["name" := name]} in
  let! response := getattr image "response" in
  let! location := subscript response "location" in
  let! image_id :=
    match location with
    | VStr l => match split_second "images/" l with
                | Some id => ret (VStr id)
                | None => raise IndexError
                end
    | _ => raise (AttributeError "split")
    end in
  call (VAttr _image_client "wait_for_image_status") [image_id; VStr "active"] ∅ ;;
  let! snapshot_image := call (VAttr _image_client "get_image_meta") [image_id] ∅ in
  let! properties :=
    match dict_get snapshot_image "properties" (VDict []) with
    | Some x => ret x
    | None => raise (AttributeError "get")
    end in
  let! bdm :=
    match dict_get properties "block_device_mapping" VNone with
    | Some x => ret x
    | None => raise (AttributeError "get")
    end in
  (if truthy bdm then
     let! bdm := call (VAttr (VObj "json") "loads") [bdm] ∅ in
     if truthy bdm then
       let! first := match bdm with
                     | VList (x :: _) => ret x
                     | VStr (String c _) => ret (VStr (String c ""))
                     | VDict _ | VHandle _ _ => raise (KeyError "0")
                     | _ => raise TypeError
                     end in
       let! found := py_in (VStr "snapshot_id") first in
       if found then
         let! snapshot_id := subscript first "snapshot_id" in
         addCleanup (Foreign (VAttr snapshots_client "wait_for_resource_deletion"))
                    [snapshot_id] ∅ ;;
         addCleanup DeleteWrapper
                    [VAttr snapshots_client "delete_snapshot"; snapshot_id] ∅ ;;
         call (waiters "wait_for_snapshot_status")
              [snapshots_client; snapshot_id; VStr "available"] ∅ ;;
         ret tt
       else ret tt
     else ret tt
   else ret tt) ;;
  let! image_name := subscript snapshot_image "name" in
  assertEqual name image_name "name" ;;
  subscript server "name" ;;
  ret snapshot_image.

(** [glance_image_create]: the image of the configuration and, when its
    file cannot be read, the three images of a uec bundle instead. *)
Definition glance_image_create : M value :=
  let scenario := CONF "scenario" in
  let! dir := str_add (scenario "img_dir") (VStr "/") in
  let! img_path := str_add dir (scenario "img_file") in
  let! dir := str_add (scenario "img_dir") (VStr "/") in
  let! aki_img_path := str_add dir (scenario "aki_img_file") in
  let! dir := str_add (scenario "img_dir") (VStr "/") in
  let! ari_img_path := str_add dir (scenario "ari_img_file") in
  let! dir := str_add (scenario "img_dir") (VStr "/") in
  let! ami_img_path := str_add dir (scenario "ami_img_file") in
  try_except
    (_image_create "scenario-img" (scenario "img_container_format") img_path
                   (scenario "img_disk_format") (scenario "img_properties"))
    (λ e, match e with
          | OtherError kind =>
              if String.eqb kind "IOError" then
                let! kernel := _image_create "scenario-aki" (VStr "aki")
                                             aki_img_path VNone VNone in
                let! ramdisk := _image_create "scenario-ari" (VStr "ari")
                                              ari_img_path VNone VNone in
                let properties :=
                  VDict [("kernel_id", kernel); ("ramdisk_id", ramdisk)] in
                _image_create "scenario-ami" (VStr "ami") ami_img_path VNone
                              properties
              else raise e
          | _ => raise e
          end).

(** [check_vm_connectivity]: the ping with the expectation of the
    caller and, for a positive check only, the ssh connection.  The
    messages of the assertion are kept without the address they name. *)
Definition check_vm_connectivity (fuel : nat) (keypair : option value)
    (ip_address username private_key : value) (should_connect : bool)
    : Polled unit :=
  let msg := if should_connect
             then "Timed out waiting for ip_address to become reachable"
             else "ip address is reachable" in
  fun st =>
    match ping_ip_address fuel ip_address should_connect VNone st with
    | None => None
    | Some (Raise e, st1) => Some (Raise e, st1)
    | Some (Ok reachable, st1) =>
        Some ((assertTrue reachable msg ;;
               if should_connect then
                 (* no need to check ssh for negative connectivity *)
                 get_remote_client keypair ip_address username private_key ;;
                 ret tt
               else ret tt) st1)
    end.

(** ** The rest of [NetworkScenarioTest] *)

Definition floating_ips_client : value := VAttr manager "floating_ips_client".

Definition _list_networks (kw : kwargs) : M value :=
  let! r := call (VAttr (VAttr admin_manager "networks_client") "list_networks")
                 [] kw in
  subscript r "networks".

Definition _list_ports (kw : kwargs) : M value :=
  let! r := call (VAttr (VAttr admin_manager "ports_client") "list_ports") [] kw in
  subscript r "ports".

(** The comprehension of [_get_server_port_id_and_ip4], for the fixed ips
    of one port that are left: the address is tested first, the status of
    the port only for an address that passed. *)
Fixpoint fixed_ip4 (p : value) (fixed_ips : list value) : M (list (value * value)) :=
  match fixed_ips with
  | [] => ret []
  | fxip :: fixed_ips' =>
      let! ip := subscript fxip "ip_address" in
      let! valid := call (VAttr (VObj "netaddr") "valid_ipv4") [ip] ∅ in
      let! active :=
        if truthy valid
        then let! status := subscript p "status" in
             ret (py_eq status (VStr "ACTIVE"))
        else ret false in
      let! here :=
        if active
        then let! id := subscript p "id" in
             let! ip := subscript fxip "ip_address" in
             ret [(id, ip)]
        else ret [] in
      let! more := fixed_ip4 p fixed_ips' in
      ret (here ++ more)
  end.

Fixpoint port_map_of (ports : list value) : M (list (value * value)) :=
  match ports with
  | [] => ret []
  | p :: ports' =>
      let! fixed_ips := subscript p "fixed_ips" in
      let! fixed_ips := for_in fixed_ips in
      let! here := fixed_ip4 p fixed_ips in
      let! more := port_map_of ports' in
      ret (here ++ more)
  end.

Definition _get_server_port_id_and_ip4 (server ip_addr : value)
    : M (value * value) :=
  let! id := subscript server "id" in
  let! ports := _list_ports {[ "device_id" := id; "fixed_ip" := ip_addr ]} in
  let! ports := for_in ports in
  let! port_map := port_map_of ports in
  (* the ports that are not active are collected for a warning *)
  for_each (λ p, let! status := subscript p "status" in
                 ret (negb (py_eq status (VStr "ACTIVE")))) ports ;;
  assertTrue (negb (bool_decide (length port_map = 0)))
             "No IPv4 addresses found" ;;
  assertTrue (bool_decide (length port_map = 1))
             "Found multiple IPv4 addresses" ;;
  match port_map with
  | x :: _ => ret x
  | [] => raise IndexError
  end.

(** [NetworkScenarioTest.create_floating_ip], on the network API; it
    overrides the one above. *)
Definition NetworkScenarioTest_create_floating_ip
    (thing external_network_id port_id client : value) : M value :=
  let external_network_id :=
    if truthy external_network_id then external_network_id
    else CONF "network" "public_network_id" in
  let client := if truthy client then client else floating_ips_client in
  let! (port_id, ip4) :=
    if truthy port_id then ret (port_id, VNone)
    else _get_server_port_id_and_ip4 thing VNone in
  let! tenant_id := subscript thing "tenant_id" in
  let! result :=
    call (VAttr client "create_floatingip") []
         {[ "floating_network_id" := external_network_id; "port_id" := port_id;
            "tenant_id" := tenant_id; "fixed_ip_address" := ip4 ]} in
  let! body := subscript result "floatingip" in
  let! floating_ip := new_handle "DeletableFloatingIp" [("client", client)] body in
  addCleanup DeleteWrapper [VAttr floating_ip "delete"] ∅ ;;
  ret floating_ip.

(** The loop of [get_server_ip] over the addresses that are left. *)
Fixpoint address_for_ssh (addresses : list value) : M value :=
  match addresses with
  | [] => raise (OtherError "ServerUnreachable")
  | address :: addresses' =>
      let! version := subscript address "version" in
      if py_eq version (CONF "validation" "ip_version_for_ssh")
      then subscript address "addr"
      else address_for_ssh addresses'
  end.

(** [get_server_ip]; [self.create_floating_ip] is the method of the class
    of the test. *)
Definition get_server_ip (server : value) : M value :=
  let connect_method := CONF "validation" "connect_method" in
  if py_eq connect_method (VStr "floating") then
    let! floating_ip :=
      if network_scenario
      then NetworkScenarioTest_create_floating_ip server VNone VNone VNone
      else create_floating_ip server VNone in
    subscript floating_ip "ip"
  else if py_eq connect_method (VStr "fixed") then
    let! addresses := subscript server "addresses" in
    let! addresses := subscript_by addresses (CONF "validation" "network_for_ssh") in
    let! addresses := for_in addresses in
    address_for_ssh addresses
  else raise (OtherError "InvalidConfiguration").

Definition _create_router (client tenant_id namestart : value) : M value :=
  let client := if truthy client then client else routers_client in
  let! tenant_id := if truthy tenant_id then ret tenant_id
                    else getattr client "tenant_id" in
  let! name := rand_name namestart in
  let! result := call (VAttr client "create_router") []
                      {[ "name" := name; "admin_state_up" := VBool true;
                         "tenant_id" := tenant_id ]} in
  let! body := subscript result "router" in
  let! router := new_handle "DeletableRouter" [("routers_client", client)] body in
  let! echoed := getattr router "name" in
  assertEqual echoed name "name" ;;
  addCleanup DeleteWrapper [VAttr router "delete"] ∅ ;;
  ret router.

Definition _get_router (client tenant_id : value) : M value :=
  let client := if truthy client then client else routers_client in
  let! tenant_id := if truthy tenant_id then ret tenant_id
                    else getattr client "tenant_id" in
  let router_id := CONF "network" "public_router_id" in
  let network_id := CONF "network" "public_network_id" in
  if truthy router_id then
    let! body := call (VAttr client "show_router") [router_id] ∅ in
    let! router := subscript body "router" in
    new_handle "AttributeDict" [] router
  else if truthy network_id then
    let! router := _create_router client tenant_id (VStr "router-smoke") in
    call (VAttr router "set_gateway") [network_id] ∅ ;;
    ret router
  else raise (OtherError "Exception").

Definition _get_network_by_name (network_name : value) : M value :=
  let! net := _list_networks {[ "name" := network_name ]} in
  match py_len net with
  | Some n =>
      assertTrue (negb (bool_decide (n = 0))) "Unable to get network by name" ;;
      let! first := first_item net in
      new_handle "AttributeDict" [] first
  | None => raise TypeError
  end.

(** [create_networks] returns the network, the subnet and the router. *)
Definition create_networks
    (client networks_client' routers_client' subnets_client' : value)
    (tenant_id dns_nameservers : value) : M (value * value * value) :=
  if truthy (CONF "baremetal" "driver_enabled") then
    if truthy (CONF "compute" "fixed_network_name") then
      let! network := _get_network_by_name (CONF "compute" "fixed_network_name") in
      ret (network, VNone, VNone)
    else raise (OtherError "InvalidConfiguration")
  else
    let! network := _create_network client networks_client' VNone tenant_id
                                    (VStr "network-smoke-") in
    let! router := _get_router routers_client' tenant_id in
    let kw : kwargs := if is_none dns_nameservers then ∅
                       else {[ "dns_nameservers" := dns_nameservers ]} in
    let! subnet := _create_subnet network client subnets_client' routers_client'
                                  (VStr "subnet-smoke") kw in
    let! router_id := getattr router "id" in
    call (VAttr subnet "add_to_router") [router_id] ∅ ;;
    ret (network, subnet, router).

Definition _create_empty_security_group (client tenant_id namestart : value)
    : M value :=
  let client := if is_none client then security_groups_client else client in
  let! tenant_id := if truthy tenant_id then ret tenant_id
                    else getattr client "tenant_id" in
  let! sg_name := rand_name namestart in
  let! sg_desc := str_add sg_name (VStr " description") in
  let sg_dict : kwargs :=
    <["tenant_id" := tenant_id]>
      {[ "name" := sg_name; "description" := sg_desc ]} in
  let! result := call (VAttr client "create_security_group") [] sg_dict in
  let! body := subscript result "security_group" in
  let! secgroup := new_handle "DeletableSecurityGroup"
                     [("client", client); ("routers_client", routers_client)]
                     body in
  let! name := getattr secgroup "name" in
  assertEqual name sg_name "name" ;;
  let! group_tenant := getattr secgroup "tenant_id" in
  assertEqual tenant_id group_tenant "tenant_id" ;;
  let! description := getattr secgroup "description" in
  assertEqual description sg_desc "description" ;;
  addCleanup DeleteWrapper [VAttr secgroup "delete"] ∅ ;;
  ret secgroup.

(** [NetworkScenarioTest._create_security_group], on the network API. *)
Definition NetworkScenarioTest_create_security_group
    (security_group_rules_client' tenant_id namestart : value)
    (security_groups_client' : value) : M value :=
  let security_group_rules_client' :=
    if is_none security_group_rules_client' then security_group_rules_client
    else security_group_rules_client' in
  let security_groups_client' :=
    if is_none security_groups_client' then security_groups_client
    else security_groups_client' in
  let! tenant_id := if is_none tenant_id
                    then getattr security_groups_client' "tenant_id"
                    else ret tenant_id in
  let! secgroup := _create_empty_security_group security_groups_client'
                                                tenant_id namestart in
  let! rules := _create_loginable_secgroup_rule security_group_rules_client'
                                                secgroup security_groups_client' in
  for_each (λ rule,
    let! rule_tenant := getattr rule "tenant_id" in
    assertEqual tenant_id rule_tenant "tenant_id" ;;
    let! group_id := getattr secgroup "id" in
    let! rule_group := getattr rule "security_group_id" in
    assertEqual group_id rule_group "security_group_id") rules ;;
  ret secgroup.

(** The nested function of [_check_remote_connectivity]: a ping that
    fails on the remote side counts as an outcome, any other failure is a
    failure of the check. *)
Definition ping_remote (source dest : value) (should_succeed : bool)
    (nic : value) : M value :=
  try_except
    (call (VAttr source "ping_host") [dest] {[ "nic" := nic ]} ;;
     ret (VBool should_succeed))
    (λ e, match e with
          | OtherError kind =>
              if String.eqb kind "SSHExecCommandFailed" then
                (* the warning names the host of the connection *)
                let! ssh_client := getattr source "ssh_client" in
                getattr ssh_client "host" ;;
                ret (VBool (negb should_succeed))
              else raise e
          | _ => raise e
          end).

Definition _check_remote_connectivity (fuel : nat) (source dest : value)
    (should_succeed : bool) (nic : value) : Polled bool :=
  fun st =>
    match ticks (CONF "validation" "ping_timeout") with
    | Some timeout =>
        call_until_true fuel (ping_remote source dest should_succeed nic)
                        timeout 1 st
    | None => Some (Raise TypeError, st)
    end.

(** ** The rest of [BaremetalScenarioTest] *)

(** The nested function of [wait_node]. *)
Definition _get_node (instance_id : value) : M value :=
  let! node :=
    try_except (get_node VNone instance_id)
               (λ e, match e with
                     | NotFound _ => ret VNone
                     | _ => raise e
                     end) in
  ret (VBool (negb (is_none node))).

Definition node_timed_out : string :=
  "Timed out waiting to get Ironic node by instance id".

Definition wait_node (fuel : nat) (instance_id : value) : Polled unit :=
  fun st =>
    match ticks (CONF "baremetal" "association_timeout") with
    | Some timeout =>
        match call_until_true fuel (_get_node instance_id) timeout 1 st with
        | None => None
        | Some (Ok true, st') => Some (Ok tt, st')
        | Some (Ok false, st') =>
            Some (Raise (TimeoutException node_timed_out), st')
        | Some (Raise e, st') => Some (Raise e, st')
        end
    | None => Some (Raise TypeError, st)
    end.

Definition get_ports (node_uuid : value) : M (list value) :=
  let! r := call (VAttr baremetal_client "list_node_ports") [node_uuid] ∅ in
  let! body := second r in
  let! listed := subscript body "ports" in
  let! listed := for_in listed in
  for_each (λ port,
    let! uuid := subscript port "uuid" in
    let! r := call (VAttr baremetal_client "show_port") [uuid] ∅ in
    second r) listed.

(** ** [EncryptionScenarioTest] *)

Definition os_adm : value := VObj "os_adm".
Definition admin_volume_types_client : value :=
  VAttr os_adm (if truthy (CONF "volume_feature_enabled" "api_v1")
                then "volume_types_client" else "volume_types_v2_client").

Definition create_volume_type (client name : value) : M value :=
  let client := if truthy client then client else admin_volume_types_client in
  let name := if truthy name then name else VStr "generic" in
  let! prefix := str_add (VStr "scenario-type-") name in
  let! randomized_name := rand_name prefix in
  let! r := call (VAttr client "create_volume_type") []
                 {[ "name" := randomized_name ]} in
  let! body := subscript r "volume_type" in
  let! has_id := py_in (VStr "id") body in
  assertTrue has_id "id" ;;
  let! id := subscript body "id" in
  addCleanup (Foreign (VAttr client "delete_volume_type")) [id] ∅ ;;
  ret body.

Definition create_encryption_type
    (client type_id provider key_size cipher control_location : value)
    : M unit :=
  let client := if truthy client then client else admin_volume_types_client in
  let! type_id :=
    if truthy type_id then ret type_id
    else let! volume_type := create_volume_type VNone VNone in
         subscript volume_type "id" in
  let! r := call (VAttr client "create_encryption_type") [type_id]
                 {[ "provider" := provider; "key_size" := key_size;
                    "cipher" := cipher;
                    "control_location" := control_location ]} in
  subscript r "encryption" ;;
  ret tt.

(** ** [ObjectStorageScenarioTest] *)

Definition os_operator : value := VObj "os_operator".
Definition container_client : value := VAttr os_operator "container_client".
Definition object_client : value := VAttr os_operator "object_client".

Definition list_and_check_container_objects
    (container_name present_obj not_present_obj : value) : M unit :=
  let present_obj := if is_none present_obj then VList [] else present_obj in
  let not_present_obj :=
    if is_none not_present_obj then VList [] else not_present_obj in
  let! r := call (VAttr container_client "list_container_contents")
                 [container_name] ∅ in
  let! object_list := second r in
  (if truthy present_obj then
     let! objs := for_in present_obj in
     for_each (λ obj, let! found := py_in obj object_list in
                      assertTrue found "assertIn") objs ;;
     ret tt
   else ret tt) ;;
  (if truthy not_present_obj then
     let! objs := for_in not_present_obj in
     for_each (λ obj, let! found := py_in obj object_list in
                      assertTrue (negb found) "assertNotIn") objs ;;
     ret tt
   else ret tt).

Definition create_container (container_name : value) : M value :=
  let! name := if truthy container_name then ret container_name
               else rand_name (VStr "swift-scenario-container") in
  call (VAttr container_client "create_container") [name] ∅ ;;
  list_and_check_container_objects name VNone VNone ;;
  addCleanup DeleteWrapper [VAttr container_client "delete_container"; name] ∅ ;;
  ret name.

Definition upload_object_to_container (container_name obj_name : value)
    : M (value * value) :=
  let! obj_name := if truthy obj_name then ret obj_name
                   else rand_name (VStr "swift-scenario-object") in
  let! obj_data := call (VAttr (VObj "data_utils") "arbitrary_string") [] ∅ in
  call (VAttr object_client "create_object")
       [container_name; obj_name; obj_data] ∅ ;;
  addCleanup DeleteWrapper
    [VAttr object_client "delete_object"; container_name; obj_name] ∅ ;;
  ret (obj_name, obj_data).

Definition delete_object (container_name filename : value) : M unit :=
  call (VAttr object_client "delete_object") [container_name; filename] ∅ ;;
  list_and_check_container_objects container_name VNone (VList [filename]).

(** ** A test body, as far as the registry sees it *)

(** One registration made by a test or by a factory: a plain [addCleanup]
    or an [addCleanup_with_wait]. *)
Inductive registration : Type :=
| Plain (function : action) (args : list value) (kw : kwargs)
| WithWait (waiter_callable thing_id : value) (thing_id_param : string)
    (cleanup_callable : action) (cleanup_args : option (list value))
    (cleanup_kwargs : option kwargs) (waiter_client : value).

Definition register (r : registration) : M unit :=
  match r with
  | Plain f args kw => addCleanup f args kw
  | WithWait w id p c cargs ckw client =>
      addCleanup_with_wait w id p c cargs ckw client
  end.

Fixpoint register_all (rs : list registration) : M unit :=
  match rs with
  | [] => ret tt
  | r :: rs' => register r ;; register_all rs'
  end.

(** The state teardown starts from: [setUp], then the registrations. *)
Definition after_test (rs : list registration) (st : TestCase) : TestCase :=
  snd ((setUp ;; register_all rs) st).

End Harness.

Arguments TestCase World : clear implicits.
Arguments mkTestCase {World} _ _ _ _.

(** ** What a registration asks for *)

(** The cleanup entry a registration stands for. *)
Definition cleanup_of (r : registration) : CleanupEntry :=
  match r with
  | Plain f args kw => mkEntry f args kw
  | WithWait _ _ _ c cargs ckw _ => mkEntry c (default [] cargs) (default ∅ ckw)
  end.

(** The keyword arguments a wait entry is to hand to its waiter: the
    resource id under its parameter name and, when an override client was
    given, that client. *)
Definition waiter_kwargs (thing_id_param : string) (thing_id waiter_client : value)
    : kwargs :=
  {[thing_id_param := thing_id]} ∪
  (if truthy waiter_client then {["client" := waiter_client]} else ∅).

(** The waiter call a registration asks for, if it asks for one. *)
Definition wait_of (r : registration) : option event :=
  match r with
  | Plain _ _ _ => None
  | WithWait w id p _ _ _ client => Some (Invoke w [] (waiter_kwargs p id client))
  end.

(** The entry [setUp] registers for the drain of the wait queue. *)
Definition wait_entry : CleanupEntry := mkEntry WaitForCleanups [] ∅.

(** What firing a cleanup entry adds to the log when the entry is not the
    drain of the wait queue: the entry itself and the one foreign call it
    makes (none when the arguments do not bind to [delete_wrapper]). *)
Definition entry_events (e : CleanupEntry) : list event :=
  Fire e ::
  match ce_action e with
  | Foreign f => [Invoke f (ce_args e) (ce_kwargs e)]
  | DeleteWrapper =>
      match ce_args e, ce_kwargs e !! "delete_thing" with
      | delete_thing :: rest, None => [Invoke delete_thing rest (ce_kwargs e)]
      | [], Some delete_thing =>
          [Invoke delete_thing [] (delete "delete_thing" (ce_kwargs e))]
      | _, _ => []
      end
  | WaitForCleanups => []
  end.

(** A registration a test makes: the private drain method is not
    registered a second time, and the name of the id parameter is not one
    of the two keys the wait descriptor reserves. *)
Definition test_registration (r : registration) : Prop :=
  ce_action (cleanup_of r) ≠ WaitForCleanups ∧
  match r with
  | Plain _ _ _ => True
  | WithWait _ _ p _ _ _ _ => p ≠ "waiter_callable" ∧ p ≠ "client"
  end.

(** ** Reading a run *)

(** What a call answered, when it did not raise. *)
Definition answered {A} (r : result A) : option A :=
  match r with Ok a => Some a | Raise _ => None end.

(** Calls made one after the other against the backend, up to and
    including the first that raises: how many were made, and the world
    they leave. *)
Fixpoint run_calls {World}
    (invoke : value → list value → kwargs → World → result value * World)
    (calls : list event) (w : World) : nat * World :=
  match calls with
  | Invoke f args kw :: later =>
      match invoke f args kw w with
      | (Ok _, w') => let '(n, w'') := run_calls invoke later w' in (S n, w'')
      | (Raise _, w') => (1, w')
      end
  | _ => (0, w)
  end.


(** ** Backends to run the harness against *)

(** A backend that keeps the ids of the resources that exist.  A method
    whose name starts with [delete] removes the id it is given and answers
    [NotFound] when the id is not there; every other call answers [None]. *)
Definition store_backend (f : value) (args : list value) (kw : kwargs)
    (live : list string) : result value * list string :=
  match f, args with
  | VAttr _ meth, [VStr id] =>
      if String.prefix "delete" meth then
        if bool_decide (id ∈ live)
        then (Ok VNone, filter (λ x, x ≠ id) live)
        else (Raise (NotFound id), live)
      else (Ok VNone, live)
  | _, _ => (Ok VNone, live)
  end.

(** A cloud in two parts: the answers still to give, and the ids of the
    resources that exist.  A method whose name starts with [delete] removes
    the id it is given last and answers [NotFound] when the id is not
    there.  Every other call consumes the next answer; a method whose name
    starts with [create] also records the [name] it was given. *)
Definition cloud : Type := list (result value) * list string.
Definition cloud_backend (f : value) (args : list value) (kw : kwargs)
    (w : cloud) : result value * cloud :=
  let '(script, live) := w in
  let answer live' :=
    match script with
    | r :: script' => (r, (script', live'))
    | [] => (Ok VNone, ([], live'))
    end in
  match f with
  | VAttr _ meth =>
      if String.prefix "delete" meth then
        match last args with
        | Some (VStr id) =>
            if bool_decide (id ∈ live)
            then (Ok VNone, (script, filter (λ x, x ≠ id) live))
            else (Raise (NotFound id), (script, live))
        | _ => (Ok VNone, (script, live))
        end
      else if String.prefix "create" meth then
        match kw !! "name" with
        | Some (VStr n) => answer (n :: live)
        | _ => answer live
        end
      else answer live
  | _ => answer live
  end.

(** A backend with a clock: the time in ticks and the answers still to
    give.  Every call takes one tick and consumes the next answer;
    sleeping takes the time slept. *)
Definition ticking : Type := nat * list (result value).
Definition ticking_backend (f : value) (args : list value) (kw : kwargs)
    (w : ticking) : result value * ticking :=
  match w.2 with
  | r :: script' => (r, (S w.1, script'))
  | [] => (Ok VNone, (S w.1, []))
  end.
Definition ticking_now (w : ticking) : nat := w.1.
Definition ticking_sleep (d : nat) (w : ticking) : ticking := (w.1 + d, w.2).

(** A cloud whose groups already have every rule: each creation of a rule
    answers the [Conflict] of a rule that exists, every other call answers
    the tenant ['t-1'].  The world counts the creations asked for. *)
Definition saturated_backend (f : value) (args : list value) (kw : kwargs)
    (asked : nat) : result value * nat :=
  match f with
  | VAttr _ "create_security_group_rule" =>
      (Raise (Conflict "Security group rule already exists."), S asked)
  | _ => (Ok (VStr "t-1"), asked)
  end.

(** ** Scenarios *)

(** A test case fresh from the base class: nothing registered, nothing
    logged. *)
Definition fresh {World} (w : World) : TestCase World := mkTestCase [] [] w [].

(** A registration whose id parameter is named like the key the wait
    descriptor keeps the override client under. *)
Definition id_named_client : list registration :=
  [ WithWait (waiters "wait_for_server_termination") (VStr "srv-1") "client"
      DeleteWrapper
      (Some [VAttr servers_client "delete_server"; VStr "srv-1"]) None
      servers_client ].

(** A configuration with every option unset. *)
Definition no_CONF (group option : string) : value := VNone.

(** Scenario 2 of the specification: a server's delete-with-wait, then a
    volume's plain delete. *)
Definition server_then_volume : list registration :=
  [ WithWait (waiters "wait_for_server_termination") (VStr "srv-1") "server_id"
      DeleteWrapper
      (Some [VAttr servers_client "delete_server"; VStr "srv-1"]) None
      servers_client;
    Plain DeleteWrapper
      [VAttr (volumes_client no_CONF) "delete_volume"; VStr "vol-1"] ∅ ].

(** [create_server] with its defaults, no vnic type configured, against a
    cloud that answers the tenant network, the created server and the
    server shown. *)
Definition server_start : TestCase cloud :=
  fresh ([ Ok VNone;
           Ok (VList [VDict [("id", VStr "srv-1")]; VList []]);
           Ok (VDict [("server", VDict [("id", VStr "srv-1")])]) ],
         ["srv-1"]).
Definition server_run : result value * TestCase cloud :=
  create_server cloud_backend no_CONF false VNone VNone VNone false VNone true
    VNone ∅ (after_test [] server_start).

(** [create_volume] with its defaults after the registrations of scenario
    2; the cloud echoes the generated name. *)
Definition volume_cloud (echoed : string) : cloud :=
  ([ Ok (VStr "vol-name");
     Ok (VDict [("volume", VDict [("id", VStr "vol-1");
                                  ("display_name", VStr echoed)])]);
     Ok VNone;
     Ok (VDict [("volume", VDict [("id", VStr "vol-1");
                                  ("status", VStr "available")])]) ],
   ["srv-1"; "vol-1"]).
Definition volume_run (echoed : string) : result value * TestCase cloud :=
  create_volume cloud_backend no_CONF "TestVolume" VNone VNone VNone VNone VNone
    (after_test server_then_volume (fresh (volume_cloud echoed))).

(** [create_server_snapshot] of a server booted from a volume: the image
    that comes back carries a block device mapping with a snapshot. *)
Definition snapshot_start : TestCase cloud :=
  fresh ([ Ok (VStr "snap");
                 Ok (VHandle "ResponseBody"
                       [("response",
                         VDict [("location",
                                 VStr "http://glance/v1/images/img-1")])]);
                 Ok VNone;
                 Ok (VDict [("name", VStr "snap");
                            ("properties",
                             VDict [("block_device_mapping",
                                     VStr "[{snapshot_id: snap-1}]")])]);
                 Ok (VList [VDict [("snapshot_id", VStr "snap-1")]]);
                 Ok VNone ],
               ["img-1"; "snap-1"]).
Definition snapshot_run : result value * TestCase cloud :=
  create_server_snapshot cloud_backend no_CONF
    (VDict [("id", VStr "srv-1"); ("name", VStr "server")]) VNone
    (after_test [] snapshot_start).

(** [_create_network] against a cloud that creates the network under
    another name than the one asked for. *)
Definition network_run : result value * TestCase cloud :=
  _create_network cloud_backend VNone VNone VNone (VStr "tenant-1")
    (VStr "network-smoke-")
    (after_test []
       (fresh ([ Ok (VStr "network-smoke-1");
                 Ok (VDict [("network", VDict [("id", VStr "net-1");
                                               ("name", VStr "network-smoke-2");
                                               ("tenant_id", VStr "tenant-1")])]) ],
               []))).

(** [_image_create] of a bare image against a cloud that queues it. *)
Definition image_created : result value * TestCase cloud :=
  _image_create cloud_backend "scenario-img" (VStr "bare") (VStr "/images/cirros")
    VNone VNone
    (after_test []
       (fresh ([ Ok (VStr "scenario-img-1");
                 Ok (VDict [("image", VDict [("id", VStr "img-1");
                                             ("status", VStr "queued")])]);
                 Ok (VObj "image_file");
                 Ok VNone ],
               []))).

(** A test that creates a keypair, deletes it itself and is torn down. *)
Definition keypair_created : result value * TestCase cloud :=
  create_keypair cloud_backend "TestKeypair" VNone
    (after_test []
       (fresh ([ Ok (VStr "kp-1");
                 Ok (VDict [("keypair", VDict [("name", VStr "kp-1")])]) ],
               []))).
Definition keypair_test : list exn * TestCase cloud :=
  let created := keypair_created in
  let deleted :=
    call cloud_backend (VAttr keypairs_client "delete_keypair") [VStr "kp-1"] ∅
      created.2 in
  doCleanups cloud_backend deleted.2.

(** The same test with a floating ip, which the factory registers through
    the wrapper. *)
Definition floating_ip_test : list exn * TestCase cloud :=
  let created :=
    create_floating_ip cloud_backend no_CONF
      (VDict [("id", VStr "srv-1")]) (VStr "public")
      (after_test []
         (fresh ([ Ok (VDict [("floating_ip", VDict [("id", VStr "fip-1");
                                                     ("ip", VStr "10.0.0.9")])]) ],
                 ["fip-1"]))) in
  let deleted :=
    call cloud_backend (VAttr compute_floating_ips_client "delete_floating_ip")
      [VStr "fip-1"] ∅ created.2 in
  doCleanups cloud_backend deleted.2.

(** Scenario 3 of the specification: a pool of five candidate blocks, the
    first [used] of them in use. *)
Definition pool : list value :=
  [ VStr "10.100.0.0/28"; VStr "10.100.0.16/28"; VStr "10.100.0.32/28";
    VStr "10.100.0.48/28"; VStr "10.100.0.64/28" ].
Definition in_use_answer : result value :=
  Ok (VDict [("subnets", VList [VDict [("cidr", VStr "taken")]])]).
Definition subnet_start (used : nat) : TestCase cloud :=
  after_test []
    (fresh ([ Ok (VObj "tenant_cidr"); Ok (VList pool) ] ++
            replicate used in_use_answer ++
            [ Ok (VDict [("subnets", VList [])]);
              Ok (VStr "subnet-smoke-1");
              Ok (VDict [("subnet", VDict [("id", VStr "sub-1");
                                           ("cidr", VStr "10.100.0.48/28")])]) ],
            [])).
Definition tenant_network : value :=
  VHandle "DeletableNetwork" [("id", VStr "net-1"); ("tenant_id", VStr "t-1")].
Definition subnet_run (used : nat) : result value * TestCase cloud :=
  _create_subnet cloud_backend no_CONF tenant_network VNone VNone VNone
    (VStr "subnet-smoke") ∅ (subnet_start used).

(** [_create_loginable_secgroup_rule] on a group that already has a rule:
    the second creation answers [second]. *)
Definition secgroup : value :=
  VHandle "DeletableSecurityGroup" [("id", VStr "sg-1"); ("tenant_id", VStr "t-1")].
Definition rule_answer (direction : string) : list (result value) :=
  [ Ok (VStr "t-1");
    Ok (VDict [("security_group_rule",
                VDict [("tenant_id", VStr "t-1");
                       ("security_group_id", VStr "sg-1");
                       ("direction", VStr direction)])]) ].
Definition rules_run (second : result value) : result (list value) * TestCase cloud :=
  _create_loginable_secgroup_rule cloud_backend VNone secgroup VNone
    (after_test []
       (fresh (rule_answer "ingress" ++ [Ok (VStr "t-1"); second] ++
               rule_answer "ingress" ++ rule_answer "egress" ++
               rule_answer "ingress" ++ rule_answer "egress", []))).

(** A group that already has the ssh rule: the creation conflicts. *)
Definition conflict_start : TestCase cloud :=
  after_test []
    (fresh ([ Ok (VStr "t-1");
              Raise (Conflict "Security group rule already exists.") ], [])).
Definition ssh : kwargs :=
  {[ "protocol" := VStr "tcp"; "port_range_min" := VInt 22;
     "port_range_max" := VInt 22 ]}.

(** A host that does not answer: every ping exits with status 1. *)
Definition ping_start : TestCase ticking :=
  fresh (0, [ Ok (VStr "test_ping");
              Ok (VObj "proc"); Ok VNone; Ok (VInt 1);
              Ok (VObj "proc"); Ok VNone; Ok (VInt 1) ]).


(** A node seen in the power states [looks], one look after the other. *)
Definition node_start (looks : list string) : TestCase ticking :=
  fresh (0, map (λ state, Ok (VList [VNone; VDict [("power_state", VStr state)]]))
                looks).

(** A configuration that names the public network and nothing else. *)
Definition public_CONF (group option : string) : value :=
  if String.eqb group "network" && String.eqb option "public_network_id"
  then VStr "public-net" else VNone.

(** [create_networks] after the registrations of scenario 2, against a
    cloud that creates the network, the router and the subnet under the
    names asked for and has no subnet in use. *)
Definition networks_cloud : cloud :=
  ([ Ok (VStr "network-smoke-1");
     Ok (VDict [("network", VDict [("id", VStr "net-1");
                                   ("name", VStr "network-smoke-1");
                                   ("tenant_id", VStr "t-1")])]);
     Ok (VStr "router-smoke-1");
     Ok (VDict [("router", VDict [("id", VStr "rtr-1");
                                  ("name", VStr "router-smoke-1")])]);
     Ok VNone;
     Ok (VObj "tenant_cidr"); Ok (VList pool);
     Ok (VDict [("subnets", VList [])]);
     Ok (VStr "subnet-smoke-1");
     Ok (VDict [("subnet", VDict [("id", VStr "sub-1");
                                  ("cidr", VStr "10.100.0.0/28")])]) ],
   []).
Definition networks_run : result (value * value * value) * TestCase cloud :=
  create_networks cloud_backend public_CONF VNone VNone VNone VNone
    (VStr "t-1") VNone (after_test server_then_volume (fresh networks_cloud)).

(** A container that holds two objects. *)
Definition container_start : TestCase cloud :=
  fresh ([ Ok (VList [VDict []; VList [VStr "obj-1"; VStr "obj-2"]]) ], []).

(** A configuration whose ping and association timeouts are three ticks. *)
Definition timed_CONF (group option : string) : value :=
  if String.eqb option "ping_timeout" || String.eqb option "association_timeout"
  then VInt 3 else VNone.

(** An instance whose node is not found at the first look and is there at
    the second. *)
Definition association_start : TestCase ticking :=
  fresh (0, [ Raise (NotFound "inst-1");
              Ok (VList [VNone;
                         VDict [("nodes",
                                 VList [VDict [("uuid", VStr "node-1")]])]]) ]).

(** A server with an ssh connection, from which the ping fails. *)
Definition ssh_source : value :=
  VHandle "RemoteClient"
    [("ssh_client", VHandle "Client" [("host", VStr "10.0.0.5")])].
Definition remote_start : TestCase ticking :=
  fresh (0, [ Raise (OtherError "SSHExecCommandFailed") ]).

(** A configuration for ssh on the fixed addresses of the network
    [private], over IPv4. *)
Definition fixed_CONF (group option : string) : value :=
  if String.eqb group "validation" then
    if String.eqb option "connect_method" then VStr "fixed"
    else if String.eqb option "network_for_ssh" then VStr "private"
    else if String.eqb option "ip_version_for_ssh" then VInt 4
    else VNone
  else VNone.

(** A server with an IPv6 and an IPv4 address on that network. *)
Definition private_addresses : list value :=
  [ VDict [("version", VInt 6); ("addr", VStr "fe80::5")];
    VDict [("version", VInt 4); ("addr", VStr "10.0.0.5")] ].
Definition addressed_server : value :=
  VDict [("id", VStr "srv-1");
         ("addresses", VDict [("private", VList private_addresses)])].

(** A tenant that sees two groups named [default]. *)
Definition default_groups : list value :=
  [ VDict [("id", VStr "sg-1"); ("name", VStr "default")];
    VDict [("id", VStr "sg-2"); ("name", VStr "web")];
    VDict [("id", VStr "sg-3"); ("name", VStr "default")] ].
Definition groups_start : TestCase cloud :=
  fresh ([ Ok (VDict [("security_groups", VList default_groups)]) ], []).

(** A container from which the object [obj-1] can be deleted; [obj-2]
    stays. *)
Definition object_start : TestCase cloud :=
  fresh ([ Ok (VList [VDict []; VList [VStr "obj-2"]]) ], ["obj-1"]).

(** The wait descriptor [addCleanup_with_wait] appends for a registration. *)
Definition wait_dict_of (r : registration) : option kwargs :=
  match r with
  | Plain _ _ _ => None
  | WithWait w id p _ _ _ client =>
      let wait_dict : kwargs := <[p := id]> {["waiter_callable" := w]} in
      Some (if truthy client then <["client" := client]> wait_dict
            else wait_dict)
  end.

(** The call [_wait_for_cleanups] makes for a wait descriptor. *)
Definition wait_event (wait : kwargs) : option event :=
  match wait !! "waiter_callable" with
  | Some w => Some (Invoke w [] (delete "waiter_callable" wait))
  | None => None
  end.

(** A step that only appends to the registry, entries that satisfy [P],
    and leaves the wait queue alone. *)
Definition appends {World A} (P : CleanupEntry → Prop)
    (m : M (World:=World) A) : Prop :=
  ∀ (st : TestCase World), ∃ es,
    Forall P es ∧
    _cleanups (m st).2 = _cleanups st ++ es ∧
    cleanup_waits (m st).2 = cleanup_waits st.

(** The entry [_create_port] registers: the wrapped delete of a port
    handle. *)
Definition port_entry (e : CleanupEntry) : Prop :=
  ∃ port, e = mkEntry DeleteWrapper [VAttr port "delete"] ∅.

(** Whether an event is a call of the method [meth] of some object, and
    how many such calls a log holds. *)
Definition is_call (meth : string) (ev : event) : bool :=
  match ev with
  | Invoke (VAttr _ m) _ _ => String.eqb m meth
  | _ => false
  end.
Definition calls (meth : string) (l : list event) : nat :=
  length (List.filter (is_call meth) l).

(** A step that appends to the log, and among what it appends at most [n]
    calls of the method [meth]. *)
Definition at_most {World A} (meth : string) (n : nat)
    (m : M (World:=World) A) : Prop :=
  ∀ (st : TestCase World), ∃ new,
    log (m st).2 = log st ++ new ∧ calls meth new ≤ n.

(** A step during which the clock [now] does not run backwards. *)
Definition steady {World A} (now : World → nat) (m : M (World:=World) A) : Prop :=
  ∀ (st : TestCase World), now (world st) ≤ now (world (m st).2).

(** A cleanup entry, read back as the plain registration that makes it. *)
Definition plain_of (e : CleanupEntry) : registration :=
  Plain (ce_action e) (ce_args e) (ce_kwargs e).

(** A step that keeps the registry and only appends foreign calls to the
    log. *)
Definition quiet {World A} (m : M (World:=World) A) : Prop :=
  ∀ (st : TestCase World), ∃ calls,
    _cleanups (m st).2 = _cleanups st ∧
    log (m st).2 = log st ++ calls ∧
    fired calls = [].

(** [v[key]] without the harness around it: what a dictionary or a handle
    holds under a key. *)
Definition item (v : value) (key : string) : option value :=
  match v with
  | VDict d | VHandle _ d => assoc key d
  | _ => None
  end.

(** The ids of the security groups of a listing that are named [default],
    in the order of the listing. *)
Definition default_ids (sgs : list value) : list value :=
  omap (λ sg, match item sg "name" with
              | Some name => if py_eq name (VStr "default") then item sg "id"
                             else None
              | None => None
              end) sgs.

(** The wrapped delete of a resource handle, as a cleanup entry. *)
Definition handle_delete (handle : value) : CleanupEntry :=
  mkEntry DeleteWrapper [VAttr handle "delete"] ∅.

(** What [for x in v] goes through, without the harness around it. *)
Definition elements (v : value) : option (list value) :=
  match v with
  | VStr s => Some (map (λ c, VStr (String c "")) (String.list_ascii_of_string s))
  | _ => py_iter v
  end.

(** An entry of the port map of a server: the id of a port among [ports]
    whose status is [ACTIVE], with one of the fixed ips of that port, an
    address that passed the test [accepted]. *)
Definition ip4_of_active_port (accepted : value → Prop) (ports : list value)
    (entry : value * value) : Prop :=
  ∃ p status fixed_ips l fxip,
    p ∈ ports ∧ item p "id" = Some entry.1 ∧
    item p "status" = Some status ∧ py_eq status (VStr "ACTIVE") = true ∧
    item p "fixed_ips" = Some fixed_ips ∧ elements fixed_ips = Some l ∧
    fxip ∈ l ∧ item fxip "ip_address" = Some entry.2 ∧ accepted entry.2.

(** * Properties *)

Section Properties.

Context {World : Type}.
Variable invoke : value -> list value -> kwargs -> World -> result value * World.

Variable CONF : string -> string -> value.
Variable class_name : string.
Variable network_scenario : bool.

Abbreviation TC := (TestCase World).
Abbreviation MW := (M (World:=World)).

(** ** Frame lemmas: what a step leaves alone *)

Lemma fired_app (l1 l2 : list event) : fired (l1 ++ l2) = fired l1 ++ fired l2.
Proof. unfold fired. apply omap_app. Qed.

Lemma quiet_ret {A} (a : A) : quiet (ret (World:=World) a).
Proof. intros st. exists []. simpl. by rewrite app_nil_r. Qed.

Lemma quiet_raise {A} (e : exn) : quiet (raise (World:=World) (A:=A) e).
Proof. intros st. exists []. simpl. by rewrite app_nil_r. Qed.

Lemma quiet_bind {A B} (m : MW A) (k : A → MW B) :
  quiet m → (∀ a, quiet (k a)) → quiet (bind m k).
Proof.
  intros Hm Hk st. unfold bind.
  destruct (Hm st) as (c1 & H1 & H2 & H3).
  destruct (m st) as [[a|e] st1]; simpl in *.
  - destruct (Hk a st1) as (c2 & G1 & G2 & G3).
    exists (c1 ++ c2). rewrite G1, G2, H1, H2, fired_app, H3, G3.
    by rewrite app_assoc.
  - by exists c1.
Qed.

Lemma quiet_try_except {A} (m : MW A) (h : exn → MW A) :
  quiet m → (∀ e, quiet (h e)) → quiet (try_except m h).
Proof.
  intros Hm Hh st. unfold try_except.
  destruct (Hm st) as (c1 & H1 & H2 & H3).
  destruct (m st) as [[a|e] st1]; simpl in *.
  - by exists c1.
  - destruct (Hh e st1) as (c2 & G1 & G2 & G3).
    exists (c1 ++ c2). rewrite G1, G2, H1, H2, fired_app, H3, G3.
    by rewrite app_assoc.
Qed.

Lemma quiet_call f args kw : quiet (call invoke f args kw).
Proof.
  intros st. exists [Invoke f args kw]. unfold call.
  by destruct (invoke f args kw (world st)).
Qed.

Lemma quiet_delete_wrapper f args kw : quiet (delete_wrapper invoke f args kw).
Proof.
  apply quiet_try_except.
  - apply quiet_bind; [apply quiet_call | intros; apply quiet_ret].
  - intros []; first [apply quiet_ret | apply quiet_raise].
Qed.

Lemma quiet_store_wait i w : quiet (store_wait (World:=World) i w).
Proof. intros st. exists []. simpl. by rewrite app_nil_r. Qed.

Lemma quiet_wait_loop waits : ∀ i, quiet (wait_loop invoke i waits).
Proof.
  induction waits as [|w rest IH]; intros i; simpl.
  - apply quiet_ret.
  - destruct (w !! "waiter_callable"); [|apply quiet_raise].
    apply quiet_bind; [apply quiet_store_wait|intros _].
    apply quiet_bind; [apply quiet_call|intros _]. apply IH.
Qed.

Lemma quiet_wait_for_cleanups : quiet (_wait_for_cleanups invoke).
Proof. intros st. apply (quiet_wait_loop (cleanup_waits st) 0 st). Qed.

Lemma quiet_call_action a args kw : quiet (call_action invoke a args kw).
Proof.
  destruct a; simpl.
  - apply quiet_bind; [apply quiet_call | intros; apply quiet_ret].
  - destruct args, (kw !! "delete_thing");
      first [apply quiet_delete_wrapper | apply quiet_raise].
  - destruct args; [|apply quiet_raise].
    case_bool_decide; [apply quiet_wait_for_cleanups | apply quiet_raise].
Qed.

(** ** The drain *)

Lemma drain_fired n : ∀ (st : TC),
  length (_cleanups st) ≤ n →
  fired (log (drain invoke n st).2) = fired (log st) ++ rev (_cleanups st) ∧
  _cleanups (drain invoke n st).2 = [].
Proof.
  induction n as [|n IH]; intros st Hn.
  - destruct (_cleanups st) eqn:E; [|simpl in Hn; lia].
    simpl. by rewrite E, app_nil_r.
  - simpl. destruct (rev (_cleanups st)) as [|e earlier] eqn:E.
    + simpl. rewrite app_nil_r. split; [done|].
      rewrite <- (rev_involutive (_cleanups st)), E. done.
    + set (st1 := mkTestCase _ _ _ _).
      destruct (quiet_call_action (ce_action e) (ce_args e) (ce_kwargs e) st1)
        as (calls & H1 & H2 & H3).
      destruct (call_action _ _ _ _ st1) as [r st2]; simpl in *.
      assert (Hlen : length (_cleanups st2) ≤ n).
      { rewrite H1, length_rev.
        assert (length (rev (_cleanups st)) = S (length earlier)) by by rewrite E.
        rewrite length_rev in H. lia. }
      destruct (IH st2 Hlen) as [G1 G2].
      destruct (drain invoke n st2) as [errs st3]; simpl in *.
      rewrite G1, G2, H2, H1, !fired_app, H3, rev_involutive. simpl.
      rewrite app_nil_r, <- app_assoc. done.
Qed.

Lemma drain_plus a : ∀ b (st : TC),
  drain invoke (a + b) st =
  let '(e1, st1) := drain invoke a st in
  let '(e2, st2) := drain invoke b st1 in
  (e1 ++ e2, st2).
Proof.
  induction a as [|a IH]; intros b st.
  - simpl. by destruct (drain invoke b st).
  - simpl. destruct (rev (_cleanups st)) as [|e earlier] eqn:E.
    + destruct b; simpl; [done|]. by rewrite E.
    + destruct (call_action _ _ _ _ _) as [r st2].
      rewrite IH. destruct (drain invoke a st2) as [e1 st3].
      destruct (drain invoke b st3) as [e2 st4]. by destruct r.
Qed.

Lemma drain_log n : ∀ (st : TC), ∃ rest, log (drain invoke n st).2 = log st ++ rest.
Proof.
  induction n as [|n IH]; intros st; simpl.
  - exists []. by rewrite app_nil_r.
  - destruct (rev (_cleanups st)) as [|e earlier]; simpl.
    + exists []. by rewrite app_nil_r.
    + set (st1 := mkTestCase _ _ _ _).
      destruct (quiet_call_action (ce_action e) (ce_args e) (ce_kwargs e) st1)
        as (calls & _ & H2 & _).
      destruct (call_action _ _ _ _ st1) as [r st2]; simpl in *.
      destruct (IH st2) as [rest Hr].
      destruct (drain invoke n st2) as [errs st3]; simpl in *.
      exists (Fire e :: calls ++ rest).
      rewrite Hr, H2. simpl. by rewrite <- !app_assoc.
Qed.

(** ** Registration *)

Lemma register_all_state rs : ∀ (st : TC),
  register_all rs st =
  (Ok tt, mkTestCase (_cleanups st ++ map cleanup_of rs)
                     (cleanup_waits st ++ omap wait_dict_of rs)
                     (world st) (log st)).
Proof.
  induction rs as [|r rs IH]; intros st.
  - simpl. unfold ret. rewrite !app_nil_r. by destruct st.
  - simpl. unfold bind.
    destruct r as [f args kw|w id p c cargs ckw client]; simpl.
    + rewrite IH. simpl. by rewrite <- !app_assoc.
    + unfold addCleanup_with_wait, bind. simpl. rewrite IH. simpl.
      by rewrite <- !app_assoc.
Qed.

Lemma after_test_state rs (st : TC) :
  after_test rs st =
  mkTestCase (_cleanups st ++ wait_entry :: map cleanup_of rs)
             (omap wait_dict_of rs) (world st) (log st).
Proof.
  unfold after_test, setUp, bind. simpl. rewrite register_all_state. simpl.
  by rewrite <- app_assoc.
Qed.

(** ** The two phases of teardown *)

Lemma call_action_events (e : CleanupEntry) (st : TC) :
  ce_action e ≠ WaitForCleanups →
  log (call_action invoke (ce_action e) (ce_args e) (ce_kwargs e) st).2 =
    log st ++ tail (entry_events e) ∧
  _cleanups (call_action invoke (ce_action e) (ce_args e) (ce_kwargs e) st).2 =
    _cleanups st ∧
  cleanup_waits (call_action invoke (ce_action e) (ce_args e) (ce_kwargs e) st).2 =
    cleanup_waits st.
Proof.
  intros Hne. unfold entry_events.
  destruct e as [[f| |] args kw]; simpl in *; [| |done].
  - unfold bind, call. destruct (invoke f args kw (world st)) as [[v|x] w]; done.
  - destruct args as [|d rest], (kw !! "delete_thing") as [d'|]; simpl;
      rewrite ?app_nil_r; try done;
      unfold delete_wrapper, try_except, bind, call;
      match goal with |- context [invoke ?f ?a ?k ?w] =>
        destruct (invoke f a k w) as [[v|[]] w'] end; done.
Qed.

Lemma drain_entries (E : list CleanupEntry) : ∀ (pre : list CleanupEntry) (st : TC),
  Forall (λ e, ce_action e ≠ WaitForCleanups) E →
  _cleanups st = pre ++ E →
  log (drain invoke (length E) st).2 = log st ++ flat_map entry_events (rev E) ∧
  _cleanups (drain invoke (length E) st).2 = pre ∧
  cleanup_waits (drain invoke (length E) st).2 = cleanup_waits st.
Proof.
  induction E as [|e E IH] using rev_ind; intros pre st HE Hst.
  - simpl. rewrite !app_nil_r in *. done.
  - apply Forall_app in HE as [HE He]. rewrite Forall_singleton in He.
    rewrite length_app, Nat.add_comm. simpl.
    rewrite Hst, app_assoc, rev_unit.
    set (st1 := mkTestCase _ _ _ _).
    destruct (call_action_events e st1 He) as (H1 & H2 & H3).
    destruct (call_action _ _ _ _ st1) as [r st2]; simpl in *.
    destruct (IH pre st2 HE) as (G1 & G2 & G3).
    { by rewrite H2, rev_involutive. }
    destruct (drain invoke (length E) st2) as [errs st3]; simpl in *.
    rewrite G1, G2, G3, H1, H3, rev_unit. simpl.
    split; [|done]. unfold entry_events at 2. simpl.
    by rewrite <- !app_assoc.
Qed.

Lemma wait_loop_events (waits : list kwargs) : ∀ i (st : TC),
  ∃ k,
    log (wait_loop invoke i waits st).2 = log st ++ omap wait_event (take k waits) ∧
    _cleanups (wait_loop invoke i waits st).2 = _cleanups st ∧
    ((wait_loop invoke i waits st).1 = Ok tt → k = length waits) ∧
    (k = 0 → omap wait_event (take 1 waits) = []).
Proof.
  induction waits as [|w rest IH]; intros i st; simpl.
  - exists 0. simpl. by rewrite app_nil_r.
  - destruct (w !! "waiter_callable") as [f|] eqn:Ew.
    + unfold bind, call, store_wait. simpl.
      destruct (invoke f [] (delete "waiter_callable" w) (world st)) as [[v|x] w'].
      * match goal with |- context [wait_loop invoke (S i) rest ?s] =>
          destruct (IH (S i) s) as (k & H1 & H2 & H3 & _) end.
        exists (S k). simpl. unfold wait_event at 1. rewrite Ew.
        split_and!.
        -- etrans; [exact H1|]. simpl. by rewrite <- app_assoc.
        -- exact H2.
        -- intros E. f_equal. exact (H3 E).
        -- done.
      * exists 1. simpl. unfold wait_event. rewrite Ew. simpl.
        done.
    + exists 0. simpl. unfold wait_event. rewrite Ew.
      rewrite app_nil_r. by split_and!.
Qed.

Lemma wait_event_of (r : registration) (d : kwargs) :
  test_registration r → wait_dict_of r = Some d → wait_event d = wait_of r.
Proof.
  intros [_ Hp] Hd. destruct r as [|w id p c cargs ckw client]; [done|].
  destruct Hp as [Hw Hc]. simpl in Hd. injection Hd as <-.
  simpl. unfold wait_event, waiter_kwargs.
  assert (Hcw : "client" ≠ "waiter_callable") by discriminate.
  destruct (truthy client).
  - rewrite 2!lookup_insert_ne, lookup_singleton_eq by done.
    rewrite 2!delete_insert_ne, delete_singleton_eq, insert_empty by done.
    rewrite insert_union_singleton_r; [done|].
    by rewrite lookup_singleton_ne.
  - rewrite lookup_insert_ne, lookup_singleton_eq by done.
    rewrite delete_insert_ne, delete_singleton_eq, insert_empty by done.
    by rewrite (right_id_L ∅ (∪)).
Qed.

Lemma wait_events_of (rs : list registration) :
  Forall test_registration rs →
  ∀ k, omap wait_event (take k (omap wait_dict_of rs)) = take k (omap wait_of rs).
Proof.
  induction 1 as [|r rs Hr _ IH]; intros k.
  - by destruct k.
  - simpl. destruct (wait_dict_of r) as [d|] eqn:Ed.
    + rewrite <- (wait_event_of r d Hr Ed).
      destruct k as [|k]; simpl; [done|].
      assert (is_Some (wait_event d)) as [ev Hev].
      { rewrite (wait_event_of r d Hr Ed). destruct r; simpl in *; [done|eauto]. }
      rewrite Hev. by rewrite IH.
    + destruct r; simpl in *; [apply IH|done].
Qed.

Lemma wait_dicts_length (rs : list registration) :
  length (omap wait_dict_of rs) = length (omap wait_of rs).
Proof.
  induction rs as [|[] rs IH]; simpl; auto.
Qed.

Lemma drain_wait_entry (base : list CleanupEntry) (st : TC) :
  _cleanups st = base ++ [wait_entry] →
  ∃ k,
    log (drain invoke 1 st).2 =
      log st ++ Fire wait_entry :: omap wait_event (take k (cleanup_waits st)) ∧
    _cleanups (drain invoke 1 st).2 = base ∧
    ((drain invoke 1 st).1 = [] → k = length (cleanup_waits st)) ∧
    (k = 0 → omap wait_event (take 1 (cleanup_waits st)) = []).
Proof.
  intros Hst. simpl. rewrite Hst, rev_unit. simpl.
  rewrite bool_decide_eq_true_2 by done.
  unfold _wait_for_cleanups. simpl.
  set (st1 := mkTestCase _ _ _ _).
  destruct (wait_loop_events (cleanup_waits st) 0 st1) as (k & H1 & H2 & H3 & H4).
  exists k. destruct (wait_loop invoke 0 (cleanup_waits st) st1) as [r st2].
  simpl in *. rewrite H1, H2, rev_involutive, <- app_assoc. simpl.
  split_and!; [done..| |done]. destruct r as [[]|x]; [auto|done].
Qed.

(** Teardown of a test, phase by phase: the cleanup entries of the test,
    last registered first; the drain of the wait queue, first registered
    first, up to the first waiter that raises; the entries of the base
    class. *)
Lemma teardown_phases (st0 : TC) (rs : list registration) :
  Forall test_registration rs →
  ∃ k rest,
    log (doCleanups invoke (after_test rs st0)).2 =
      log st0 ++ flat_map entry_events (rev (map cleanup_of rs)) ++
      Fire wait_entry :: take k (omap wait_of rs) ++ rest ∧
    fired rest = rev (_cleanups st0) ∧
    ((doCleanups invoke (after_test rs st0)).1 = [] →
     k = length (omap wait_of rs)) ∧
    (k = 0 → omap wait_of rs = []).
Proof.
  intros Hrs. rewrite after_test_state. unfold doCleanups. simpl.
  set (E := map cleanup_of rs). set (base := _cleanups st0).
  set (st1 := mkTestCase _ _ _ _).
  replace (length (base ++ wait_entry :: E))
    with (length E + (1 + length base))
    by (rewrite length_app; simpl; lia).
  rewrite drain_plus.
  destruct (drain_entries E (base ++ [wait_entry]) st1) as (A1 & A2 & A3).
  { subst E. apply Forall_map. eapply Forall_impl; [exact Hrs|].
    by intros r [Hr _]. }
  { subst st1. simpl. by rewrite <- app_assoc. }
  destruct (drain invoke (length E) st1) as [e1 s1]; simpl in A1, A2, A3.
  lazy beta iota. rewrite drain_plus.
  destruct (drain_wait_entry base s1 A2) as (k & B1 & B2 & B3 & B4).
  destruct (drain invoke 1 s1) as [e2 s2]; simpl in B1, B2, B3.
  destruct (drain_log (length base) s2) as [rest C1].
  destruct (drain_fired (length base) s2) as [C2 _]; [by rewrite B2|].
  destruct (drain invoke (length base) s2) as [e3 s3]; simpl in C1, C2.
  lazy beta iota. simpl fst. simpl snd.
  exists k, rest. split_and!.
  - rewrite C1, B1, A1, A3. rewrite wait_events_of by done.
    by rewrite <- !app_assoc.
  - rewrite C1, fired_app, B2 in C2. by apply app_inv_head in C2.
  - intros Herr. apply app_eq_nil in Herr as [_ Herr].
    apply app_eq_nil in Herr as [Herr _].
    rewrite (B3 Herr), A3. apply wait_dicts_length.
  - intros Hk. specialize (B4 Hk). rewrite A3, wait_events_of in B4 by done.
    by destruct (omap wait_of rs).
Qed.

(** ** The delete wrapper *)

Lemma delete_wrapper_result f args kw (st : TC) :
  delete_wrapper invoke f args kw st =
  (match (invoke f args kw (world st)).1 with
   | Ok _ | Raise (NotFound _) => Ok tt
   | Raise e => Raise e
   end,
   mkTestCase (_cleanups st) (cleanup_waits st) (invoke f args kw (world st)).2
              (log st ++ [Invoke f args kw])).
Proof.
  unfold delete_wrapper, try_except, bind, call.
  by destruct (invoke f args kw (world st)) as [[v|[]] w].
Qed.

(** C3: [delete_wrapper] calls the operation once, with the arguments it
    was given.  It returns normally when the operation succeeds or fails
    with [NotFound], and any other failure reaches the caller unchanged.
    Hence, on a resource that is gone (the operation answers [NotFound]
    and the resource stays gone), any number of calls return normally. *)
Theorem delete_wrapper_ignores_not_found f args kw :
  (∀ st : TC,
     log (delete_wrapper invoke f args kw st).2 = log st ++ [Invoke f args kw] ∧
     world (delete_wrapper invoke f args kw st).2 =
       (invoke f args kw (world st)).2 ∧
     (∀ v, (invoke f args kw (world st)).1 = Ok v →
           (delete_wrapper invoke f args kw st).1 = Ok tt) ∧
     (∀ m, (invoke f args kw (world st)).1 = Raise (NotFound m) →
           (delete_wrapper invoke f args kw st).1 = Ok tt) ∧
     (∀ e, (invoke f args kw (world st)).1 = Raise e →
           (∀ m, e ≠ NotFound m) →
           (delete_wrapper invoke f args kw st).1 = Raise e)) ∧
  (∀ gone : World → Prop,
     (∀ w, gone w →
           (∃ m, (invoke f args kw w).1 = Raise (NotFound m)) ∧
           gone (invoke f args kw w).2) →
     ∀ n (st : TC), gone (world st) →
       (delete_repeatedly invoke n f args kw st).1 = Ok tt).
Proof.
  split.
  - intros st. rewrite delete_wrapper_result. simpl.
    split_and!; try done.
    + by intros v ->.
    + by intros m ->.
    + intros e -> He. destruct e; try done. by destruct (He msg).
  - intros gone Hgone n. induction n as [|n IH]; intros st Hst; [done|].
    simpl. unfold bind. rewrite delete_wrapper_result.
    destruct (Hgone _ Hst) as [[m Hm] Hg]. rewrite Hm.
    by apply IH.
Qed.

(** ** What the factories register *)

Lemma appends_ret {A} P (a : A) : appends P (ret (World:=World) a).
Proof. intros st. exists []. simpl. by rewrite app_nil_r. Qed.

Lemma appends_raise {A} P (e : exn) : appends P (raise (World:=World) (A:=A) e).
Proof. intros st. exists []. simpl. by rewrite app_nil_r. Qed.

Lemma appends_bind {A B} P (m : MW A) (k : A → MW B) :
  appends P m → (∀ a, appends P (k a)) → appends P (bind m k).
Proof.
  intros Hm Hk st. unfold bind.
  destruct (Hm st) as (e1 & F1 & H1 & H2).
  destruct (m st) as [[a|e] st1]; simpl in *.
  - destruct (Hk a st1) as (e2 & F2 & G1 & G2).
    exists (e1 ++ e2). rewrite G1, G2, H1, H2, app_assoc.
    split; [by apply Forall_app|done].
  - by exists e1.
Qed.

Lemma appends_call P f args kw : appends P (call invoke f args kw).
Proof.
  intros st. exists []. unfold call.
  destruct (invoke f args kw (world st)). simpl. by rewrite app_nil_r.
Qed.

Lemma appends_addCleanup (P : CleanupEntry → Prop) a args kw :
  P (mkEntry a args kw) → appends P (addCleanup (World:=World) a args kw).
Proof. intros HP st. exists [mkEntry a args kw]. simpl. by rewrite Forall_singleton. Qed.

Lemma appends_assertTrue P b msg : appends P (assertTrue (World:=World) b msg).
Proof. destruct b; [apply appends_ret | apply appends_raise]. Qed.

Lemma appends_subscript P v key : appends P (subscript (World:=World) v key).
Proof.
  destruct v; simpl; try apply appends_raise;
    destruct (assoc key _); first [apply appends_ret | apply appends_raise].
Qed.

Lemma appends_py_in P x c : appends P (py_in (World:=World) x c).
Proof.
  destruct c; simpl; try apply appends_raise; try apply appends_ret;
    destruct x; first [apply appends_ret | apply appends_raise].
Qed.

Lemma appends_getattr P v name : appends P (getattr invoke v name).
Proof.
  destruct v; simpl; try apply appends_call.
  destruct (assoc name _); [apply appends_ret | apply appends_raise].
Qed.

Lemma appends_new_handle P cls given body :
  appends P (new_handle (World:=World) cls given body).
Proof.
  destruct body; simpl; try apply appends_raise;
    destruct (forallb _ _); first [apply appends_ret | apply appends_raise].
Qed.

Lemma appends_iterate P v : appends P (iterate (World:=World) v).
Proof.
  unfold iterate. destruct (py_iter v); [apply appends_ret | apply appends_raise].
Qed.

Lemma appends_for_each {A B} P (f : A → MW B) (l : list A) :
  (∀ x, appends P (f x)) → appends P (for_each f l).
Proof.
  intros Hf. induction l as [|x l IH]; simpl.
  - apply appends_ret.
  - apply appends_bind; [apply Hf|intros y].
    apply appends_bind; [apply IH|intros ys]. apply appends_ret.
Qed.

(** Walks a factory body statement by statement. *)
Ltac appends_step :=
  first
    [ apply appends_ret | apply appends_raise | apply appends_call
    | apply appends_assertTrue | apply appends_subscript
    | apply appends_getattr | apply appends_new_handle | apply appends_iterate
    | apply appends_py_in
    | apply appends_bind; [|intros ?]
    | apply appends_for_each; intros ?
    | match goal with
      | |- appends _ (match ?x with _ => _ end) => destruct x
      end ].

Lemma appends_create_port network_id client namestart kw :
  appends port_entry (_create_port invoke network_id client namestart kw).
Proof.
  unfold _create_port, rand_name, assertIsNotNone. repeat appends_step.
  apply appends_addCleanup. by eexists.
Qed.

Lemma appends_server_ports clients vnic_type kw :
  appends port_entry (server_ports invoke network_scenario clients vnic_type kw).
Proof.
  unfold server_ports. repeat first [apply appends_create_port | appends_step].
Qed.

Lemma teardown_of_registered (st : TC) (base : list CleanupEntry)
    (rs : list registration) :
  Forall test_registration rs →
  _cleanups st = base ++ wait_entry :: map cleanup_of rs →
  cleanup_waits st = omap wait_dict_of rs →
  ∃ k rest,
    log (doCleanups invoke st).2 =
      log st ++ flat_map entry_events (rev (map cleanup_of rs)) ++
      Fire wait_entry :: take k (omap wait_of rs) ++ rest ∧
    fired rest = rev base ∧
    ((doCleanups invoke st).1 = [] → k = length (omap wait_of rs)) ∧
    (k = 0 → omap wait_of rs = []).
Proof.
  intros Hrs Hc Hw.
  assert (E : after_test rs (mkTestCase base [] (world st) (log st)) = st).
  { rewrite after_test_state. simpl. rewrite <- Hc, <- Hw. by destruct st. }
  destruct (teardown_phases (mkTestCase base [] (world st) (log st)) rs Hrs)
    as (k & rest & H1 & H2 & H3 & H4).
  rewrite E in H1, H3. by exists k, rest.
Qed.

Lemma plain_of_entries (es : list CleanupEntry) :
  map cleanup_of (map plain_of es) = es ∧
  omap wait_dict_of (map plain_of es) = [] ∧
  omap wait_of (map plain_of es) = [].
Proof.
  induction es as [|[a args kw] es (IH1 & IH2 & IH3)]; [done|].
  split_and!; [simpl; by f_equal | exact IH2 | exact IH3].
Qed.

Lemma port_entries_registrations (es : list CleanupEntry) :
  Forall port_entry es → Forall test_registration (map plain_of es).
Proof.
  intros H. apply Forall_map. eapply Forall_impl; [exact H|].
  intros e [port ->]. split; [discriminate|done].
Qed.

(** Inversion of a run, statement by statement. *)
Lemma bind_ok {A B} (m : MW A) (k : A → MW B) (st st' : TC) b :
  bind m k st = (Ok b, st') →
  ∃ a st1, m st = (Ok a, st1) ∧ k a st1 = (Ok b, st').
Proof.
  unfold bind. destruct (m st) as [[a|e] st1]; [|discriminate].
  intros H. by exists a, st1.
Qed.

Lemma bind_inv {A B} (m : MW A) (k : A → MW B) (st st' : TC) r :
  bind m k st = (r, st') →
  (∃ e, m st = (Raise e, st') ∧ r = Raise e) ∨
  (∃ a st1, m st = (Ok a, st1) ∧ k a st1 = (r, st')).
Proof.
  unfold bind. destruct (m st) as [[a|e] st1].
  - intros H. right. by exists a, st1.
  - intros [= <- <-]. left. by exists e.
Qed.

Lemma raise_inv {A} e (st st' : TC) (r : result A) :
  raise e st = (r, st') → r = Raise e ∧ st' = st.
Proof. by intros [= <- <-]. Qed.

Lemma appends_run {A} P (m : MW A) (st st' : TC) r :
  appends P m → m st = (r, st') →
  ∃ es, Forall P es ∧ _cleanups st' = _cleanups st ++ es ∧
        cleanup_waits st' = cleanup_waits st.
Proof. intros Hm H. specialize (Hm st). by rewrite H in Hm. Qed.

Lemma keeps_run {A} (m : MW A) (st st' : TC) r :
  appends (λ _, False) m → m st = (r, st') →
  _cleanups st' = _cleanups st ∧ cleanup_waits st' = cleanup_waits st.
Proof.
  intros Hm H. destruct (appends_run _ m st st' r Hm H) as (es & HF & H1 & H2).
  destruct es as [|e es]; [|by inversion HF].
  by rewrite app_nil_r in H1.
Qed.

Lemma addCleanup_ok a args kw (st st' : TC) r :
  addCleanup a args kw st = (r, st') →
  r = Ok tt ∧
  _cleanups st' = _cleanups st ++ [mkEntry a args kw] ∧
  cleanup_waits st' = cleanup_waits st.
Proof. unfold addCleanup. by intros [= <- <-]. Qed.

Lemma addCleanup_with_wait_ok w id p c cargs ckw client (st st' : TC) r :
  addCleanup_with_wait w id p c cargs ckw client st = (r, st') →
  let reg := WithWait w id p c cargs ckw client in
  r = Ok tt ∧
  _cleanups st' = _cleanups st ++ [cleanup_of reg] ∧
  cleanup_waits st' = cleanup_waits st ++ omap wait_dict_of [reg].
Proof. unfold addCleanup_with_wait, addCleanup, bind. by intros [= <- <-]. Qed.

(** Splits a run of a factory into the runs of its statements and leaves,
    for every way the run can go, what each statement did to the registry. *)
Ltac analyse H :=
  lazymatch type of H with
  | raise _ _ = _ => apply raise_inv in H as [? ?]; subst
  | addCleanup _ _ _ _ = _ =>
      apply addCleanup_ok in H as (? & ? & ?); try discriminate
  | addCleanup_with_wait _ _ _ _ _ _ _ _ = _ =>
      apply addCleanup_with_wait_ok in H as (? & ? & ?); try discriminate
  | _ =>
      first
        [ apply keeps_run in H as [? ?]; [|solve [repeat appends_step]]
        | lazymatch type of H with
          | bind _ _ _ = _ =>
              let H1 := fresh "H" in
              apply bind_inv in H as [(? & H & ?)|(? & ? & H1 & H)];
              [ subst; analyse H | analyse H1; analyse H ]
          | (match ?x with _ => _ end) _ = _ => destruct x; analyse H
          end ]
  end.

(** Chains the equations [analyse] leaves behind. *)
Ltac chain :=
  repeat match goal with
         | H : _cleanups ?s = _ |- context [_cleanups ?s] => rewrite H; clear H
         | H : cleanup_waits ?s = _ |- context [cleanup_waits ?s] => rewrite H; clear H
         end.

Lemma create_server_registry name image_id flavor validatable wait_until
    clients kw (st st' : TC) r :
  create_server invoke CONF network_scenario name image_id flavor validatable
    wait_until true clients kw st = (r, st') →
  ∃ ports,
    let sc := VAttr (if is_none clients then manager else clients)
                    "servers_client" in
    Forall port_entry ports ∧
    ((∃ e, r = Raise e) ∧
     _cleanups st' = _cleanups st ++ ports ∧
     cleanup_waits st' = cleanup_waits st
     ∨
     ∃ id,
       _cleanups st' = _cleanups st ++ ports ++
         [ mkEntry (Foreign (waiters "wait_for_server_termination")) [sc; id] ∅;
           mkEntry DeleteWrapper [VAttr sc "delete_server"; id] ∅ ] ∧
       cleanup_waits st' = cleanup_waits st ++
         [ <["client" := sc]>
             (<["server_id" := id]>
                {["waiter_callable" := waiters "wait_for_server_termination"]}) ]).
Proof.
  unfold create_server. intros H.
  set (cl := if is_none clients then manager else clients) in *.
  assert (Hp : appends (World:=World) port_entry
                 (if truthy (CONF "network" "port_vnic_type")
                  then server_ports invoke network_scenario cl
                         (CONF "network" "port_vnic_type") kw
                  else ret kw))
    by (destruct (truthy _); [apply appends_server_ports | apply appends_ret]).
  apply bind_inv in H as [(e & H & ->)|(kw' & s1 & H1 & H)].
  - apply (appends_run _ _ _ _ _ Hp) in H as (ports & HF & Hc & Hw).
    exists ports. split; [done|]. left. split; [by eexists|done].
  - apply (appends_run _ _ _ _ _ Hp) in H1 as (ports & HF & Hc & Hw).
    exists ports. split; [done|]. simpl in H. analyse H.
    all: chain; rewrite ?Hc, ?Hw;
      first [ left; split; [by eexists|done]
            | right; eexists; simpl; rewrite <- ?app_assoc; simpl;
              by destruct (truthy (VAttr cl "servers_client")) ].
Qed.

(** C9: a call of [create_server] with [wait_on_delete=True] either fails
    before the server is known, having registered at most the cleanups of
    the ports it created, or has registered the server-termination waiter
    twice: as a plain cleanup entry, directly before the wrapped delete of
    the server, and as a descriptor in the wait queue.  At the teardown of
    a test that made this one call, the delete of the server is therefore
    followed at once by the waiter, inside the LIFO phase, and the waiter is
    called a second time when the wait queue is drained. *)
Theorem create_server_waits_twice name image_id flavor validatable wait_until
    clients kw (st0 st' : TC) r :
  create_server invoke CONF network_scenario name image_id flavor validatable
    wait_until true clients kw (after_test [] st0) = (r, st') →
  ∃ ports,
    let waiter := waiters "wait_for_server_termination" in
    let sc := VAttr (if is_none clients then manager else clients)
                    "servers_client" in
    Forall port_entry ports ∧
    ((∃ e, r = Raise e) ∧
     _cleanups st' = _cleanups st0 ++ wait_entry :: ports ∧
     cleanup_waits st' = []
     ∨
     ∃ id rest,
       let W := mkEntry (Foreign waiter) [sc; id] ∅ in
       let D := mkEntry DeleteWrapper [VAttr sc "delete_server"; id] ∅ in
       _cleanups st' = _cleanups st0 ++ wait_entry :: ports ++ [W; D] ∧
       cleanup_waits st' =
         [ <["client" := sc]>
             (<["server_id" := id]> {["waiter_callable" := waiter]}) ] ∧
       log (doCleanups invoke st').2 =
         log st' ++
         [ Fire D; Invoke (VAttr sc "delete_server") [id] ∅;
           Fire W; Invoke waiter [sc; id] ∅ ] ++
         flat_map entry_events (rev ports) ++
         [ Fire wait_entry; Invoke waiter [] (waiter_kwargs "server_id" id sc) ] ++
         rest ∧
       fired rest = rev (_cleanups st0)).
Proof.
  intros H. apply create_server_registry in H as (ports & HF & H).
  exists ports. cbv zeta in *. split; [done|].
  rewrite after_test_state in H. simpl in H.
  destruct H as [(He & Hc & Hw)|(id & Hc & Hw)].
  { left. rewrite <- app_assoc in Hc. done. }
  right. rewrite <- app_assoc in Hc. simpl in Hc.
  set (waiter := waiters "wait_for_server_termination") in *.
  set (sc := VAttr (if is_none clients then manager else clients)
                   "servers_client") in *.
  set (rs := map plain_of ports ++
             [ Plain (Foreign waiter) [sc; id] ∅;
               WithWait waiter id "server_id" DeleteWrapper
                 (Some [VAttr sc "delete_server"; id]) None sc ]).
  destruct (plain_of_entries ports) as (P1 & P2 & P3).
  assert (Hrs : Forall test_registration rs).
  { apply Forall_app. split; [by apply port_entries_registrations|].
    repeat constructor; discriminate. }
  assert (Hmap : map cleanup_of rs =
                 ports ++ [ mkEntry (Foreign waiter) [sc; id] ∅;
                            mkEntry DeleteWrapper [VAttr sc "delete_server"; id] ∅ ]).
  { subst rs. by rewrite map_app, P1. }
  assert (Hwaits : omap wait_of rs =
                   [Invoke waiter [] (waiter_kwargs "server_id" id sc)]).
  { subst rs. by rewrite omap_app, P3. }
  destruct (teardown_of_registered st' (_cleanups st0) rs Hrs)
    as (k & rest & L1 & L2 & _ & L4).
  { by rewrite Hmap. }
  { subst rs. rewrite omap_app, P2, Hw. simpl. by destruct (truthy sc) eqn:E. }
  exists id, rest. split_and!; try done.
  rewrite L1, Hmap, Hwaits, rev_app_distr. simpl.
  destruct k as [|k]; [by rewrite Hwaits in L4; specialize (L4 eq_refl)|].
  simpl. by rewrite take_nil.
Qed.

Lemma create_volume_registry size name snapshot_id imageRef volume_type
    (st st' : TC) r :
  create_volume invoke CONF class_name size name snapshot_id imageRef
    volume_type st = (r, st') →
  cleanup_waits st' = cleanup_waits st ∧
  ((∃ e, r = Raise e) ∧ _cleanups st' = _cleanups st
   ∨
   ∃ id,
     _cleanups st' = _cleanups st ++
       [ mkEntry (Foreign (VAttr (volumes_client CONF) "wait_for_resource_deletion"))
                 [id] ∅;
         mkEntry DeleteWrapper [VAttr (volumes_client CONF) "delete_volume"; id] ∅ ]).
Proof.
  unfold create_volume, rand_name, assertEqual. intros H.
  analyse H.
  all: chain; (split; [done|]);
    first [ left; split; [by eexists|done]
          | right; eexists; by rewrite <- ?app_assoc ].
Qed.

Lemma create_server_snapshot_registry server name (st st' : TC) r :
  create_server_snapshot invoke CONF server name st = (r, st') →
  (∃ e, r = Raise e) ∧
  _cleanups st' = _cleanups st ∧ cleanup_waits st' = cleanup_waits st
  ∨
  ∃ image_id,
    let imgD := mkEntry DeleteWrapper [VAttr image_client "delete_image"; image_id] ∅ in
    cleanup_waits st' = cleanup_waits st ++
      [ <["id" := image_id]>
          {["waiter_callable" := VAttr image_client "wait_for_resource_deletion"]} ] ∧
    (_cleanups st' = _cleanups st ++ [imgD] ∨
     ∃ snapshot_id,
       _cleanups st' = _cleanups st ++
         [ imgD;
           mkEntry (Foreign (VAttr (snapshots_client CONF) "wait_for_resource_deletion"))
                   [snapshot_id] ∅;
           mkEntry DeleteWrapper
                   [VAttr (snapshots_client CONF) "delete_snapshot"; snapshot_id] ∅ ]).
Proof.
  unfold create_server_snapshot, rand_name, assertEqual. intros H.
  analyse H.
  all: try match goal with H : Ok _ = Raise _ |- _ => discriminate H end.
  all: chain; simpl;
    first [ left; split; [by eexists|done]
          | right; eexists; simpl; rewrite <- ?app_assoc; simpl;
            (split; [done|]); first [by left | right; by eexists] ].
Qed.

(** Teardown of a test that made the registrations [rs] and then ran a
    factory which made the registrations [rs2]. *)
Lemma teardown_after_factory (st0 st' : TC) (rs rs2 : list registration) :
  Forall test_registration rs → Forall test_registration rs2 →
  _cleanups st' = _cleanups (after_test rs st0) ++ map cleanup_of rs2 →
  cleanup_waits st' = cleanup_waits (after_test rs st0) ++ omap wait_dict_of rs2 →
  ∃ k rest,
    log (doCleanups invoke st').2 =
      log st' ++ flat_map entry_events (rev (map cleanup_of rs2)) ++
      flat_map entry_events (rev (map cleanup_of rs)) ++
      Fire wait_entry :: take k (omap wait_of rs ++ omap wait_of rs2) ++ rest ∧
    fired rest = rev (_cleanups st0) ∧
    (k = 0 → omap wait_of rs ++ omap wait_of rs2 = []).
Proof.
  intros H1 H2. rewrite after_test_state. simpl. intros Hc Hw.
  destruct (teardown_of_registered st' (_cleanups st0) (rs ++ rs2))
    as (k & rest & L1 & L2 & _ & L4).
  { by apply Forall_app. }
  { by rewrite map_app, Hc, <- app_assoc. }
  { by rewrite omap_app. }
  exists k, rest. rewrite omap_app in L1, L4.
  rewrite map_app, rev_app_distr, flat_map_app, <- app_assoc in L1. done.
Qed.

(** C10: a call of [create_volume] that gets as far as the id of the
    volume registers the wait for the deletion of the volume as a plain
    cleanup entry, directly before the wrapped delete, and never adds to the
    wait queue.  At teardown the delete of the volume is followed at once by
    the wait for that deletion, before any entry registered earlier runs,
    and the drain of the wait queue calls only the waiters registered
    earlier.  The same holds for the snapshot that [create_server_snapshot]
    finds in the block device mapping of the image: its wait is a plain
    entry before its wrapped delete, and the only descriptor the factory
    adds to the wait queue is the one of the image. *)
Theorem volume_wait_in_cleanup_phase :
  (∀ size name snapshot_id imageRef volume_type rs (st0 st' : TC) r,
     Forall test_registration rs →
     create_volume invoke CONF class_name size name snapshot_id imageRef
       volume_type (after_test rs st0) = (r, st') →
     cleanup_waits st' = cleanup_waits (after_test rs st0) ∧
     ((∃ e, r = Raise e) ∧ _cleanups st' = _cleanups (after_test rs st0)
      ∨
      ∃ id k rest,
        let wait := VAttr (volumes_client CONF) "wait_for_resource_deletion" in
        let del := VAttr (volumes_client CONF) "delete_volume" in
        let W := mkEntry (Foreign wait) [id] ∅ in
        let D := mkEntry DeleteWrapper [del; id] ∅ in
        _cleanups st' = _cleanups (after_test rs st0) ++ [W; D] ∧
        log (doCleanups invoke st').2 =
          log st' ++
          [ Fire D; Invoke del [id] ∅; Fire W; Invoke wait [id] ∅ ] ++
          flat_map entry_events (rev (map cleanup_of rs)) ++
          Fire wait_entry :: take k (omap wait_of rs) ++ rest ∧
        fired rest = rev (_cleanups st0))) ∧
  (∀ server name rs (st0 st' : TC) r,
     Forall test_registration rs →
     create_server_snapshot invoke CONF server name (after_test rs st0)
       = (r, st') →
     (∃ e, r = Raise e) ∧
     _cleanups st' = _cleanups (after_test rs st0) ∧
     cleanup_waits st' = cleanup_waits (after_test rs st0)
     ∨
     ∃ image_id,
       let img_wait := VAttr image_client "wait_for_resource_deletion" in
       let imgD := mkEntry DeleteWrapper
                     [VAttr image_client "delete_image"; image_id] ∅ in
       cleanup_waits st' = cleanup_waits (after_test rs st0) ++
         [ <["id" := image_id]> {["waiter_callable" := img_wait]} ] ∧
       (_cleanups st' = _cleanups (after_test rs st0) ++ [imgD] ∨
        ∃ snapshot_id k rest,
          let wait := VAttr (snapshots_client CONF) "wait_for_resource_deletion" in
          let del := VAttr (snapshots_client CONF) "delete_snapshot" in
          let W := mkEntry (Foreign wait) [snapshot_id] ∅ in
          let D := mkEntry DeleteWrapper [del; snapshot_id] ∅ in
          _cleanups st' = _cleanups (after_test rs st0) ++ [imgD; W; D] ∧
          log (doCleanups invoke st').2 =
            log st' ++
            [ Fire D; Invoke del [snapshot_id] ∅;
              Fire W; Invoke wait [snapshot_id] ∅;
              Fire imgD; Invoke (VAttr image_client "delete_image") [image_id] ∅ ] ++
            flat_map entry_events (rev (map cleanup_of rs)) ++
            Fire wait_entry ::
              take k (omap wait_of rs ++
                      [Invoke img_wait [] (waiter_kwargs "id" image_id VNone)]) ++
            rest ∧
          fired rest = rev (_cleanups st0))).
Proof.
  split.
  - intros size name snapshot_id imageRef volume_type rs st0 st' r Hrs H.
    apply create_volume_registry in H as (Hw & [Hc|(id & Hc)]).
    { split; [done|]. by left. }
    split; [done|]. right.
    set (wait := VAttr (volumes_client CONF) "wait_for_resource_deletion") in *.
    set (del := VAttr (volumes_client CONF) "delete_volume") in *.
    destruct (teardown_after_factory st0 st' rs
                [Plain (Foreign wait) [id] ∅; Plain DeleteWrapper [del; id] ∅])
      as (k & rest & L1 & L2 & _); try done.
    { repeat constructor; discriminate. }
    { simpl. by rewrite app_nil_r. }
    exists id, k, rest. simpl in L1. rewrite app_nil_r in L1. done.
  - intros server name rs st0 st' r Hrs H.
    apply create_server_snapshot_registry in H as [H|(image_id & Hw & Hc)].
    { by left. }
    right. exists image_id. simpl. split; [done|].
    destruct Hc as [Hc|[snapshot_id Hc]]; [by left|right].
    set (wait := VAttr (snapshots_client CONF) "wait_for_resource_deletion") in *.
    set (del := VAttr (snapshots_client CONF) "delete_snapshot") in *.
    set (img_wait := VAttr image_client "wait_for_resource_deletion") in *.
    destruct (teardown_after_factory st0 st' rs
                [ WithWait img_wait image_id "id" DeleteWrapper
                    (Some [VAttr image_client "delete_image"; image_id]) None VNone;
                  Plain (Foreign wait) [snapshot_id] ∅;
                  Plain DeleteWrapper [del; snapshot_id] ∅ ])
      as (k & rest & L1 & L2 & _); try done.
    { repeat constructor; discriminate. }
    exists snapshot_id, k, rest. done.
Qed.

(** ** Subnet allocation *)

Lemma calls_app meth (l1 l2 : list event) :
  calls meth (l1 ++ l2) = calls meth l1 + calls meth l2.
Proof. unfold calls. by rewrite List.filter_app, length_app. Qed.

Lemma at_most_weaken {A} meth n n' (m : MW A) :
  n ≤ n' → at_most meth n m → at_most meth n' m.
Proof.
  intros Hn Hm st. destruct (Hm st) as (new & H1 & H2).
  exists new. split; [done|lia].
Qed.

Lemma at_most_ret {A} meth (a : A) : at_most meth 0 (ret (World:=World) a).
Proof. intros st. exists []. simpl. by rewrite app_nil_r. Qed.

Lemma at_most_raise {A} meth (e : exn) :
  at_most meth 0 (raise (World:=World) (A:=A) e).
Proof. intros st. exists []. simpl. by rewrite app_nil_r. Qed.

Lemma at_most_bind {A B} meth n1 n2 (m : MW A) (k : A → MW B) :
  at_most meth n1 m → (∀ a, at_most meth n2 (k a)) →
  at_most meth (n1 + n2) (bind m k).
Proof.
  intros Hm Hk st. unfold bind.
  destruct (Hm st) as (l1 & H1 & H2).
  destruct (m st) as [[a|e] st1]; simpl in *.
  - destruct (Hk a st1) as (l2 & G1 & G2).
    exists (l1 ++ l2). rewrite G1, H1, calls_app, app_assoc. split; [done|lia].
  - exists l1. split; [done|lia].
Qed.

Lemma at_most_try_except {A} meth n1 n2 (m : MW A) (h : exn → MW A) :
  at_most meth n1 m → (∀ e, at_most meth n2 (h e)) →
  at_most meth (n1 + n2) (try_except m h).
Proof.
  intros Hm Hh st. unfold try_except.
  destruct (Hm st) as (l1 & H1 & H2).
  destruct (m st) as [[a|e] st1]; simpl in *.
  - exists l1. split; [done|lia].
  - destruct (Hh e st1) as (l2 & G1 & G2).
    exists (l1 ++ l2). rewrite G1, H1, calls_app, app_assoc. split; [done|lia].
Qed.

Lemma at_most_call meth f args kw :
  at_most meth (if is_call meth (Invoke f args kw) then 1 else 0)
          (call invoke f args kw).
Proof.
  intros st. exists [Invoke f args kw]. unfold call.
  destruct (invoke f args kw (world st)). split; [done|].
  unfold calls. cbn [List.filter].
  destruct (is_call meth (Invoke f args kw)); simpl; lia.
Qed.

Lemma at_most_subscript meth v key :
  at_most meth 0 (subscript (World:=World) v key).
Proof.
  destruct v; simpl; try apply at_most_raise;
    destruct (assoc key _); first [apply at_most_ret | apply at_most_raise].
Qed.

Lemma at_most_getattr meth v name : at_most meth 0 (getattr invoke v name).
Proof.
  destruct v; simpl; try apply (at_most_call meth (VObj "getattr")).
  destruct (assoc name _); [apply at_most_ret | apply at_most_raise].
Qed.

Lemma create_or_overlap_result sc subnet (st : TC) :
  create_or_overlap invoke sc subnet st =
  (match (invoke (VAttr sc "create_subnet") [] subnet (world st)).1 with
   | Ok result => Ok (Created result)
   | Raise (Conflict msg) =>
       if contains "overlaps with another subnet" msg then Ok Overlaps
       else Raise (Conflict msg)
   | Raise e => Raise e
   end,
   mkTestCase (_cleanups st) (cleanup_waits st)
              (invoke (VAttr sc "create_subnet") [] subnet (world st)).2
              (log st ++ [Invoke (VAttr sc "create_subnet") [] subnet])).
Proof.
  unfold create_or_overlap, try_except, bind, call.
  destruct (invoke _ [] subnet (world st)) as [[v|[]] w]; try done.
  simpl. by destruct (contains _ _).
Qed.


Lemma at_most_cidr_in_use meth cidr tenant_id :
  at_most meth (if String.eqb "list_subnets" meth then 1 else 0)
          (cidr_in_use invoke cidr tenant_id).
Proof.
  unfold cidr_in_use, _list_subnets.
  eapply at_most_weaken; [|apply at_most_bind with (n2:=0)].
  - by rewrite Nat.add_0_r.
  - eapply at_most_weaken; [|apply at_most_bind with (n2:=0)].
    + by rewrite Nat.add_0_r.
    + apply at_most_call.
    + intros r. apply at_most_subscript.
  - intros l. destruct (py_len l); [apply at_most_ret | apply at_most_raise].
Qed.

Lemma at_most_rand_name meth prefix :
  meth ≠ "rand_name" → at_most meth 0 (rand_name invoke prefix).
Proof.
  intros Hm. eapply at_most_weaken; [|apply at_most_call]. cbn [is_call].
  destruct (String.eqb_spec "rand_name" meth); [by subst|done].
Qed.



Lemma at_most_run {A} meth n (m : MW A) (st st' : TC) r :
  at_most meth n m → m st = (r, st') →
  calls meth (log st) ≤ calls meth (log st') ≤ calls meth (log st) + n.
Proof.
  intros Hm H. destruct (Hm st) as (new & H1 & H2). rewrite H in H1.
  simpl in H1. rewrite H1, calls_app. lia.
Qed.

Lemma try_candidate_in_use c network sc namestart ipv kw (st st' : TC) :
  try_candidate invoke c network sc namestart ipv kw st = (Ok InUse, st') →
  calls "create_subnet" (log st') = calls "create_subnet" (log st).
Proof.
  unfold try_candidate. intros H.
  apply bind_ok in H as (t & s1 & H1 & H).
  apply bind_ok in H as (b & s2 & H2 & H).
  destruct b.
  - injection H as <-.
    apply (at_most_run "create_subnet" 0) in H1; [|apply at_most_getattr].
    apply (at_most_run "create_subnet" 0) in H2;
      [|apply (at_most_cidr_in_use "create_subnet")].
    lia.
  - apply bind_ok in H as (n & s3 & _ & H).
    apply bind_ok in H as (i & s4 & _ & H).
    apply bind_ok in H as (t' & s5 & _ & H).
    case_bool_decide; [|done].
    rewrite create_or_overlap_result in H.
    destruct (invoke _ _ _ _) as [[v|[]] w]; simpl in H; try done.
    by destruct (contains _ _).
Qed.


(** ** Security group rules *)

Lemma new_handle_ok cls given body (st st' : TC) v :
  new_handle cls given body st = (Ok v, st') → ∃ attrs, v = VHandle cls attrs.
Proof.
  destruct body; simpl; try done;
    destruct (forallb _ _); simpl; intros [= <- _]; by eexists.
Qed.

Lemma create_rule_handle secgroup rules_client tenant_id groups_client kw
    (st st' : TC) v :
  _create_security_group_rule invoke secgroup rules_client tenant_id
    groups_client kw st = (Ok v, st') →
  ∃ attrs, v = VHandle "DeletableSecurityGroupRule" attrs.
Proof.
  unfold _create_security_group_rule. intros H.
  do 6 (apply bind_ok in H as (? & ? & _ & H)).
  apply bind_ok in H as (sg_rule & s & Hh & H).
  do 6 (apply bind_ok in H as (? & ? & _ & H)).
  injection H as <- _. by apply new_handle_ok in Hh.
Qed.

Lemma loginable_rules_conflict attempts rules_client secgroup groups_client :
  ∀ rules (st : TC) msg,
    (loginable_rules invoke attempts rules_client secgroup groups_client
                     rules st).1 = Raise (Conflict msg) →
    contains "Security group rule already exists" msg = false.
Proof.
  induction attempts as [|[ruleset r_direction] attempts IH];
    intros rules st msg; [done|].
  simpl. unfold bind at 1, try_except, bind at 1.
  destruct (_create_security_group_rule _ _ _ _ _ _ _) as [[v|e] s1] eqn:E.
  - apply create_rule_handle in E as [attrs ->]. simpl.
    unfold bind at 1. simpl. destruct (assoc "direction" attrs); [|done].
    simpl. unfold bind at 1, assertEqual, assertTrue.
    destruct (py_eq _ _); [apply IH|done].
  - destruct e; simpl; try done.
    destruct (contains _ msg0) eqn:Ec; simpl; [apply IH|].
    by intros [= <-].
Qed.

(** ** Polling *)

Section Polling.

Variable now : World → nat.
Variable sleep : nat → World → World.

(** Sleeping takes at least the time asked for, and no call turns the
    clock back. *)
Hypothesis sleep_advances : ∀ d w, now w + d ≤ now (sleep d w).
Hypothesis clock_monotone : ∀ f args kw w, now w ≤ now (invoke f args kw w).2.

Lemma steady_ret {A} (a : A) : steady now (ret (World:=World) a).
Proof. by intros st. Qed.

Lemma steady_raise {A} (e : exn) : steady now (raise (World:=World) (A:=A) e).
Proof. by intros st. Qed.

Lemma steady_bind {A B} (m : MW A) (k : A → MW B) :
  steady now m → (∀ a, steady now (k a)) → steady now (bind m k).
Proof.
  intros Hm Hk st. unfold bind. specialize (Hm st).
  destruct (m st) as [[a|e] st1]; simpl in *; [|done].
  specialize (Hk a st1). lia.
Qed.

Lemma steady_call f args kw : steady now (call invoke f args kw).
Proof.
  intros st. unfold call. specialize (clock_monotone f args kw (world st)).
  by destruct (invoke f args kw (world st)).
Qed.

Lemma steady_getattr v name : steady now (getattr invoke v name).
Proof.
  destruct v; simpl; try apply steady_call.
  destruct (assoc name _); [apply steady_ret | apply steady_raise].
Qed.

Lemma steady_subscript v key : steady now (subscript (World:=World) v key).
Proof.
  destruct v; simpl; try apply steady_raise;
    destruct (assoc key _); first [apply steady_ret | apply steady_raise].
Qed.

Ltac steady_step :=
  first
    [ apply steady_ret | apply steady_raise | apply steady_call
    | apply steady_getattr | apply steady_subscript
    | apply steady_bind; [|intros ?]
    | match goal with
      | |- steady _ (match ?x with _ => _ end) => destruct x
      end ].

Lemma steady_ping cmd should_succeed : steady now (ping invoke cmd should_succeed).
Proof. unfold ping. repeat steady_step. Qed.


(** The loop of the polling helper comes back when an iteration takes at
    least one tick, and tells what happened. *)
Lemma poll_returns (func : MW value) deadline sleep_for :
  steady now func → 1 ≤ sleep_for →
  ∀ fuel (st : TC), deadline - now (world st) < fuel →
  ∃ r st',
    poll now sleep fuel func deadline sleep_for st = Some (r, st') ∧
    now (world st) ≤ now (world st') ∧
    match r with
    | Ok true => ∃ s v, now (world s) < deadline ∧
                        func s = (Ok v, st') ∧ truthy v = true
    | Ok false => deadline ≤ now (world st')
    | Raise e => ∃ s, now (world s) < deadline ∧ func s = (Raise e, st')
    end.
Proof.
  intros Hf Hs. induction fuel as [|fuel IH]; intros st Hfuel; [lia|].
  simpl. case_bool_decide as Hnow.
  - pose proof (Hf st) as Hst. destruct (func st) as [[v|e] st1] eqn:E.
    + destruct (truthy v) eqn:Hv.
      * exists (Ok true), st1. split_and!; [done..|]. by exists st, v.
      * simpl in Hst. pose proof (sleep_advances sleep_for (world st1)) as Hsl.
        destruct (IH (slept sleep sleep_for st1)) as (r & st' & H1 & H2 & H3).
        { simpl. lia. }
        exists r, st'. split_and!; [done| |done]. simpl in H2. lia.
    + exists (Raise e), st1. split_and!; [done..|]. by exists st.
  - exists (Ok false), st. split_and!; [done..|]. lia.
Qed.

Lemma call_until_true_returns (func : MW value) duration sleep_for fuel (st : TC) :
  steady now func → 1 ≤ sleep_for → duration < fuel →
  ∃ r st',
    call_until_true now sleep fuel func duration sleep_for st = Some (r, st') ∧
    match r with
    | Ok true => ∃ s v, now (world s) < now (world st) + duration ∧
                        func s = (Ok v, st') ∧ truthy v = true
    | Ok false => now (world st) + duration ≤ now (world st')
    | Raise e => ∃ s, now (world s) < now (world st) + duration ∧
                      func s = (Raise e, st')
    end.
Proof.
  intros Hf Hs Hfuel. unfold call_until_true.
  destruct (poll_returns func (now (world st) + duration) sleep_for Hf Hs fuel st)
    as (r & st' & H1 & _ & H2); [lia|].
  by exists r, st'.
Qed.

End Polling.

End Properties.

(** * More properties of the harness *)

Section Coverage.

Context {World : Type}.
Variable invoke : value -> list value -> kwargs -> World -> result value * World.

Variable CONF : string -> string -> value.
Variable class_name : string.
Variable network_scenario : bool.

Abbreviation TC := (TestCase World).
Abbreviation MW := (M (World:=World)).

(** ** The wait queue after a run *)

Lemma wait_loop_waits (waits : list kwargs) : ∀ i (st : TC),
  length (cleanup_waits (wait_loop invoke i waits st).2) =
    length (cleanup_waits st) ∧
  ∀ j, j < i →
    cleanup_waits (wait_loop invoke i waits st).2 !! j = cleanup_waits st !! j.
Proof.
  induction waits as [|w rest IH]; intros i st; simpl; [done|].
  destruct (w !! "waiter_callable") as [f|]; [|done].
  unfold bind, store_wait, call. simpl.
  destruct (invoke f [] _ (world st)) as [[v|x] w'].
  - match goal with |- context [wait_loop invoke (S i) rest ?s] =>
      destruct (IH (S i) s) as [H1 H2] end.
    simpl in *. split.
    + rewrite H1. apply length_insert.
    + intros j Hj. rewrite H2 by lia. apply list_lookup_insert_ne. lia.
  - simpl. split; [apply length_insert|].
    intros j Hj. apply list_lookup_insert_ne. lia.
Qed.

(** X1: [_wait_for_cleanups] takes the waiter out of every descriptor it
    handles and leaves the descriptor in the queue.  After one run over a
    queue that is not empty, whatever the waiters did, the queue has its
    length, and a second run raises [KeyError] at the first descriptor: it
    calls no waiter and changes nothing. *)
Theorem wait_queue_is_consumed (st : TC) :
  cleanup_waits st ≠ [] →
  let st1 := (_wait_for_cleanups invoke st).2 in
  length (cleanup_waits st1) = length (cleanup_waits st) ∧
  _wait_for_cleanups invoke st1 = (Raise (KeyError "waiter_callable"), st1).
Proof.
  intros Hne st1.
  assert (H : length (cleanup_waits st1) = length (cleanup_waits st) ∧
              ∃ w' rest', cleanup_waits st1 = w' :: rest' ∧
                          w' !! "waiter_callable" = None).
  { subst st1. unfold _wait_for_cleanups.
    destruct (cleanup_waits st) as [|w rest] eqn:E; [done|]. simpl.
    destruct (w !! "waiter_callable") as [f|] eqn:Ew.
    - unfold bind, store_wait, call. simpl.
      destruct (invoke f [] _ (world st)) as [[v|x] w0]; rewrite E; simpl.
      + match goal with |- context [wait_loop invoke 1 rest ?s] =>
          destruct (wait_loop_waits rest 1 s) as [H1 H2];
          set (q := cleanup_waits (wait_loop invoke 1 rest s).2) in *
        end.
        specialize (H2 0). simpl in *.
        split; [done|].
        destruct q as [|w' rest']; [done|].
        exists w', rest'. split; [done|].
        specialize (H2 ltac:(lia)). injection H2 as ->.
        apply lookup_delete_eq.
      + split; [done|].
        eexists _, _. split; [done|]. apply lookup_delete_eq.
    - simpl. rewrite E. split; [done|]. by exists w, rest. }
  destruct H as (Hlen & w' & rest' & E' & Hw').
  split; [done|].
  unfold _wait_for_cleanups at 1. rewrite E'. simpl. by rewrite Hw'.
Qed.

(** ** Following a factory through its statements *)

Lemma ret_inv {A} (a : A) (st st' : TC) r :
  ret a st = (r, st') → r = Ok a ∧ st' = st.
Proof. by intros [= <- <-]. Qed.

Lemma subscript_item v key (s s' : TC) x :
  subscript v key s = (Ok x, s') → s' = s ∧ item v key = Some x.
Proof.
  destruct v; simpl; try done;
    destruct (assoc key _); simpl; try done;
    by intros [= <- <-].
Qed.

Lemma item_subscript v key x (s : TC) :
  item v key = Some x → subscript v key s = (Ok x, s).
Proof. destruct v; simpl; try done; by intros ->. Qed.

Lemma appends_try_except {A} P (m : MW A) (h : exn → MW A) :
  appends P m → (∀ e, appends P (h e)) → appends P (try_except m h).
Proof.
  intros Hm Hh st. unfold try_except.
  destruct (Hm st) as (e1 & F1 & H1 & H2).
  destruct (m st) as [[a|e] st1]; simpl in *.
  - by exists e1.
  - destruct (Hh e st1) as (e2 & F2 & G1 & G2).
    exists (e1 ++ e2). rewrite G1, G2, H1, H2, app_assoc.
    split; [by apply Forall_app|done].
Qed.

Lemma appends_for_in P v : appends P (for_in (World:=World) v).
Proof.
  destruct v; simpl; try apply appends_iterate. apply appends_ret.
Qed.

Lemma appends_first_item P v : appends P (first_item (World:=World) v).
Proof.
  destruct v as [| | |[|]| | |[|]| |]; simpl;
    first [apply appends_ret | apply appends_raise].
Qed.

Lemma appends_str_add P a b : appends P (str_add (World:=World) a b).
Proof.
  destruct a, b; simpl; first [apply appends_ret | apply appends_raise].
Qed.

Lemma appends_second P r : appends P (second (World:=World) r).
Proof.
  destruct r as [| | | | | |[|?[|?[|]]]| |]; simpl;
    first [apply appends_ret | apply appends_raise].
Qed.

Lemma appends_at_position P v i : appends P (at_position (World:=World) v i).
Proof.
  destruct v; simpl; try apply appends_raise;
    destruct (item_at _ _); first [apply appends_ret | apply appends_raise].
Qed.

Lemma appends_subscript_by P v key : appends P (subscript_by (World:=World) v key).
Proof.
  destruct key; simpl;
    first [ apply appends_subscript | apply appends_at_position
          | apply appends_raise
          | destruct v; apply appends_raise ].
Qed.

(** Walks a method statement by statement. *)
Ltac frame_step :=
  first
    [ apply appends_ret | apply appends_raise | apply appends_call
    | apply appends_assertTrue | apply appends_subscript
    | apply appends_getattr | apply appends_new_handle | apply appends_iterate
    | apply appends_for_in | apply appends_first_item | apply appends_py_in
    | apply appends_str_add | apply appends_second
    | apply appends_subscript_by
    | apply appends_bind; [|intros ?]
    | apply appends_try_except; [|intros ?]
    | apply appends_for_each; intros ?
    | match goal with
      | |- appends _ (match ?x with _ => _ end) => destruct x
      end ].

Lemma appends_allocate_subnet P candidates :
  ∀ network sc namestart ipv kw c,
    appends (World:=World) P
      (allocate_subnet invoke candidates network sc namestart ipv kw c).
Proof.
  induction candidates as [|c' cs IH]; intros network sc namestart ipv kw c;
    simpl; [apply appends_ret|].
  unfold try_candidate, cidr_in_use, _list_subnets, rand_name, create_or_overlap.
  repeat first [apply IH | frame_step].
Qed.

Lemma appends_loginable_rules P attempts :
  ∀ rules_client secgroup groups_client rules,
    appends (World:=World) P
      (loginable_rules invoke attempts rules_client secgroup groups_client rules).
Proof.
  induction attempts as [|[ruleset r_direction] attempts IH];
    intros rules_client secgroup groups_client rules; simpl;
    [apply appends_ret|].
  unfold _create_security_group_rule, _default_security_group, assertEqual.
  repeat first [apply IH | frame_step].
Qed.

Lemma appends_default_group_id P sgs :
  ∀ id, appends (World:=World) P (default_group_id sgs id).
Proof.
  induction sgs as [|sg sgs IH]; intros id; simpl; [apply appends_ret|].
  repeat first [apply IH | frame_step].
Qed.

Lemma appends_compute_rules P rulesets :
  ∀ id rules, appends (World:=World) P (compute_rules invoke rulesets id rules).
Proof.
  induction rulesets as [|ruleset rulesets IH]; intros id rules; simpl;
    [apply appends_ret|].
  repeat first [apply IH | frame_step].
Qed.

Lemma appends_console_outputs P servers :
  appends (World:=World) P (console_outputs invoke servers).
Proof.
  induction servers as [|server servers IH]; simpl; [apply appends_ret|].
  repeat first [apply IH | frame_step].
Qed.

Lemma appends_fixed_ip4 P p fixed_ips :
  appends (World:=World) P (fixed_ip4 invoke p fixed_ips).
Proof.
  induction fixed_ips as [|fxip fixed_ips IH]; simpl; [apply appends_ret|].
  repeat first [apply IH | frame_step].
Qed.

Lemma appends_port_map_of P ports :
  appends (World:=World) P (port_map_of invoke ports).
Proof.
  induction ports as [|p ports IH]; simpl; [apply appends_ret|].
  repeat first [apply IH | apply appends_fixed_ip4 | frame_step].
Qed.

Lemma appends_address_for_ssh P addresses :
  appends (World:=World) P (address_for_ssh CONF addresses).
Proof.
  induction addresses as [|address addresses IH]; simpl; [apply appends_raise|].
  repeat first [apply IH | frame_step].
Qed.

Ltac registry_step :=
  first
    [ apply appends_allocate_subnet | apply appends_loginable_rules
    | apply appends_default_group_id | apply appends_compute_rules
    | apply appends_console_outputs | apply appends_fixed_ip4
    | apply appends_port_map_of | apply appends_address_for_ssh
    | frame_step ].

(** Splits a run of a method into the runs of its statements and leaves,
    for every way the run can go, what each statement did to the registry
    and what the run returned.  [known] is tried on the statements that
    are calls of a method which registers. *)
Ltac follow_by known H :=
  lazymatch type of H with
  | ret _ _ = _ =>
      apply ret_inv in H as [H ?]; try discriminate H;
      try (injection H as H); subst
  | raise _ _ = _ =>
      apply raise_inv in H as [H ?]; try discriminate H;
      try (injection H as H); subst
  | subscript _ _ _ = (Ok _, _) => apply subscript_item in H as [? H]; subst
  | addCleanup _ _ _ _ = _ =>
      apply addCleanup_ok in H as (? & ? & ?); try discriminate
  | addCleanup_with_wait _ _ _ _ _ _ _ _ = _ =>
      apply addCleanup_with_wait_ok in H as (? & ? & ?); try discriminate
  | bind _ _ _ = _ =>
      let H1 := fresh "H" in
      let Heq := fresh "Heq" in
      apply bind_inv in H as [(? & H & Heq)|(? & ? & H1 & H)];
      [ first [ discriminate Heq
              | try (injection Heq as Heq); subst; follow_by known H ]
      | follow_by known H1; follow_by known H ]
  | (match ?x with _ => _ end) _ = _ =>
      first [ progress (cbv beta iota in H) | destruct x ]; follow_by known H
  | _ =>
      first [ known H
            | apply keeps_run in H as [? ?]; [|solve [repeat registry_step]] ]
  end.

Ltac follow H := follow_by ltac:(fun _ => fail) H.

(** The same, for the registry alone: statements that leave it alone are
    passed over in one step. *)
Ltac skim H :=
  lazymatch type of H with
  | raise _ _ = _ => apply raise_inv in H as [? ?]; try discriminate; subst
  | addCleanup _ _ _ _ = _ =>
      apply addCleanup_ok in H as (? & ? & ?); try discriminate
  | addCleanup_with_wait _ _ _ _ _ _ _ _ = _ =>
      apply addCleanup_with_wait_ok in H as (? & ? & ?); try discriminate
  | _ =>
      first
        [ apply keeps_run in H as [? ?]; [|solve [repeat registry_step]]
        | lazymatch type of H with
          | bind _ _ _ = _ =>
              let H1 := fresh "H" in
              apply bind_inv in H as [(? & H & ?)|(? & ? & H1 & H)];
              [ subst; skim H | skim H1; skim H ]
          | (match ?x with _ => _ end) _ = _ =>
              first [ progress (cbv beta iota in H) | destruct x ]; skim H
          end ]
  end.

Ltac chain :=
  repeat match goal with
         | H : _cleanups ?s = _ |- context [_cleanups ?s] => rewrite H; clear H
         | H : cleanup_waits ?s = _ |- context [cleanup_waits ?s] => rewrite H; clear H
         end.

(** ** Factories that register when they have succeeded *)

(** What a factory of handles has registered when it comes back: the
    wrapped delete of the handle it returns, or nothing. *)
Lemma create_network_run client nc rc tenant_id namestart (st st' : TC) r :
  _create_network invoke client nc rc tenant_id namestart st = (r, st') →
  cleanup_waits st' = cleanup_waits st ∧
  _cleanups st' = _cleanups st ++
    match r with Ok network => [handle_delete network] | Raise _ => [] end.
Proof.
  unfold _create_network, rand_name, assertEqual. intros H. follow H.
  all: chain; by rewrite ?app_nil_r.
Qed.

Lemma create_subnet_run network client sc rc namestart kw (st st' : TC) r :
  _create_subnet invoke CONF network client sc rc namestart kw st = (r, st') →
  cleanup_waits st' = cleanup_waits st ∧
  _cleanups st' = _cleanups st ++
    match r with Ok subnet => [handle_delete subnet] | Raise _ => [] end.
Proof.
  unfold _create_subnet, candidate_blocks, assertIsNotNone, assertEqual.
  intros H. follow H. all: chain; by rewrite ?app_nil_r.
Qed.

Lemma create_port_run network_id client namestart kw (st st' : TC) r :
  _create_port invoke network_id client namestart kw st = (r, st') →
  cleanup_waits st' = cleanup_waits st ∧
  _cleanups st' = _cleanups st ++
    match r with Ok port => [handle_delete port] | Raise _ => [] end.
Proof.
  unfold _create_port, rand_name, assertIsNotNone. intros H. follow H.
  all: chain; by rewrite ?app_nil_r.
Qed.

Lemma create_router_run client tenant_id namestart (st st' : TC) r :
  _create_router invoke client tenant_id namestart st = (r, st') →
  cleanup_waits st' = cleanup_waits st ∧
  _cleanups st' = _cleanups st ++
    match r with Ok router => [handle_delete router] | Raise _ => [] end.
Proof.
  unfold _create_router, rand_name, assertEqual. intros H. follow H.
  all: chain; by rewrite ?app_nil_r.
Qed.

Lemma create_empty_security_group_run client tenant_id namestart
    (st st' : TC) r :
  _create_empty_security_group invoke client tenant_id namestart st = (r, st') →
  cleanup_waits st' = cleanup_waits st ∧
  _cleanups st' = _cleanups st ++
    match r with Ok secgroup => [handle_delete secgroup] | Raise _ => [] end.
Proof.
  unfold _create_empty_security_group, rand_name, assertEqual. intros H.
  follow H. all: chain; by rewrite ?app_nil_r.
Qed.

(** X2: [_create_network], [_create_subnet], [_create_port],
    [_create_router] and [_create_empty_security_group] register the
    wrapped delete of the handle as their last step.  A call that returns
    a handle has appended exactly that entry; a call that raises, be it
    after the resource was created, has registered nothing.  None of them
    touches the wait queue. *)
Theorem network_factories_register_on_success :
  let registered (r : result value) :=
    match r with Ok handle => [handle_delete handle] | Raise _ => [] end in
  let on_success (run : result value * TC) (st : TC) :=
    cleanup_waits run.2 = cleanup_waits st ∧
    _cleanups run.2 = _cleanups st ++ registered run.1 in
  (∀ client nc rc tenant_id namestart st,
     on_success (_create_network invoke client nc rc tenant_id namestart st) st) ∧
  (∀ network client sc rc namestart kw st,
     on_success (_create_subnet invoke CONF network client sc rc namestart kw st)
                st) ∧
  (∀ network_id client namestart kw st,
     on_success (_create_port invoke network_id client namestart kw st) st) ∧
  (∀ client tenant_id namestart st,
     on_success (_create_router invoke client tenant_id namestart st) st) ∧
  (∀ client tenant_id namestart st,
     on_success (_create_empty_security_group invoke client tenant_id namestart st)
                st).
Proof.
  cbv zeta. split_and!; intros.
  - destruct (_create_network _ _ _ _ _ _ _) as [r st'] eqn:H.
    by apply create_network_run in H.
  - destruct (_create_subnet _ _ _ _ _ _ _ _ _) as [r st'] eqn:H.
    by apply create_subnet_run in H.
  - destruct (_create_port _ _ _ _ _ _) as [r st'] eqn:H.
    by apply create_port_run in H.
  - destruct (_create_router _ _ _ _ _) as [r st'] eqn:H.
    by apply create_router_run in H.
  - destruct (_create_empty_security_group _ _ _ _ _) as [r st'] eqn:H.
    by apply create_empty_security_group_run in H.
Qed.

(** ** Factories that register before they have finished *)


(** ** Factories that register before they have finished *)

Lemma subscript_run v key (s : TC) :
  subscript v key s =
  (match item v key with
   | Some x => Ok x
   | None => Raise (match v with
                    | VDict _ | VHandle _ _ => KeyError key
                    | _ => TypeError
                    end)
   end, s).
Proof. destruct v; simpl; try done; by destruct (assoc key _). Qed.

(** What is left of a factory after it has registered: the entry stays,
    whatever the steps that follow do. *)
Lemma registered_stays {A} (m : MW A) a args kw (st st' : TC) r :
  appends (λ _, False) m →
  bind (addCleanup a args kw) (λ _, m) st = (r, st') →
  _cleanups st' = _cleanups st ++ [mkEntry a args kw] ∧
  cleanup_waits st' = cleanup_waits st.
Proof.
  intros Hm H. unfold bind at 1, addCleanup in H.
  apply keeps_run in H as [H1 H2]; [|done]. by rewrite H1, H2.
Qed.

(** X3: [create_floating_ip], [_image_create] and [create_keypair]
    register the delete as soon as the response of the creation has been
    read, before the steps that follow (the association with the server;
    the check of the status and the upload; the reading of the keypair).
    Whether the delete is registered is decided by that response alone:
    it is registered exactly when the creation answered and the id (for
    the keypair, the generated name) could be read from the answer, also
    when a step that follows fails, and nothing is registered otherwise.
    A call that returns has appended exactly the delete of what it
    returns.  None of them touches the wait queue. *)
Theorem compute_factories_register_early :
  (∀ thing pool_name (st : TC),
     let '(r, st') := create_floating_ip invoke CONF thing pool_name st in
     let D id := mkEntry DeleteWrapper
                   [VAttr compute_floating_ips_client "delete_floating_ip"; id] ∅ in
     let pool := if truthy pool_name then pool_name
                 else CONF "network" "floating_network_name" in
     let created :=
       invoke (VAttr compute_floating_ips_client "create_floating_ip") []
              {[ "pool" := pool ]} (world st) in
     let read := resp ← answered created.1;
                 floating_ip ← item resp "floating_ip";
                 item floating_ip "id" in
     cleanup_waits st' = cleanup_waits st ∧
     _cleanups st' = _cleanups st ++
       match read with Some id => [D id] | None => [] end ∧
     match r with
     | Ok floating_ip => item floating_ip "id" = read
     | Raise _ => True
     end) ∧
  (∀ name fmt path disk_format properties (st : TC),
     let '(r, st') := _image_create invoke name fmt path disk_format properties
                                    st in
     let D id := mkEntry (Foreign (VAttr image_client "delete_image")) [id] ∅ in
     let named :=
       invoke (VAttr (VObj "data_utils") "rand_name") [VStr (name +:+ "-")] ∅
              (world st) in
     let params generated : kwargs :=
       <["properties" := if is_none properties then VDict [] else properties]>
         {[ "name" := generated; "container_format" := fmt;
            "disk_format" := (if truthy disk_format then disk_format else fmt);
            "is_public" := VStr "False" ]} in
     let read := generated ← answered named.1;
                 resp ← answered
                          (invoke (VAttr image_client "create_image") []
                                  (params generated) named.2).1;
                 image ← item resp "image";
                 item image "id" in
     cleanup_waits st' = cleanup_waits st ∧
     _cleanups st' = _cleanups st ++
       match read with Some id => [D id] | None => [] end ∧
     match r with
     | Ok id => read = Some id
     | Raise _ => True
     end) ∧
  (∀ client (st : TC),
     let '(r, st') := create_keypair invoke class_name client st in
     let client' := if truthy client then client else keypairs_client in
     let D name := mkEntry (Foreign (VAttr client' "delete_keypair")) [name] ∅ in
     let named :=
       invoke (VAttr (VObj "data_utils") "rand_name") [VStr class_name] ∅
              (world st) in
     let read := generated ← answered named.1;
                 _ ← answered
                       (invoke (VAttr client' "create_keypair") []
                               {[ "name" := generated ]} named.2).1;
                 Some generated in
     cleanup_waits st' = cleanup_waits st ∧
     _cleanups st' = _cleanups st ++
       match read with Some name => [D name] | None => [] end ∧
     match r with
     | Ok _ => is_Some read
     | Raise _ => True
     end).
Proof.
  split_and!.
  - intros thing pool_name st.
    destruct (create_floating_ip _ _ _ _ _) as [r st'] eqn:H. cbv zeta.
    unfold create_floating_ip in H. unfold bind at 1, call in H.
    destruct (invoke _ [] _ (world st)) as [[resp|e] w1];
      cbn [fst snd answered mbind option_bind] in *.
    2:{ injection H as <- <-. simpl. by rewrite app_nil_r. }
    unfold bind at 1 in H. rewrite subscript_run in H.
    destruct (item resp "floating_ip") as [fip|]; cbn [mbind option_bind].
    2:{ injection H as <- <-. simpl. by rewrite app_nil_r. }
    unfold bind at 1 in H. rewrite subscript_run in H.
    destruct (item fip "id") as [id|] eqn:Eid; rewrite ?Eid.
    2:{ injection H as <- <-. simpl. by rewrite app_nil_r. }
    pose proof H as H'.
    apply registered_stays in H' as [H1 H2]; [|solve [repeat registry_step]].
    simpl in H1, H2. split_and!; [done..|].
    destruct r as [floating_ip|]; [|done].
    unfold bind at 1, addCleanup in H.
    do 3 (apply bind_ok in H as (? & ? & _ & H)). by injection H as <- _.
  - intros name fmt path disk_format properties st.
    destruct (_image_create _ _ _ _ _ _ _) as [r st'] eqn:H. cbv zeta.
    unfold _image_create, rand_name in H. unfold bind at 1, call in H.
    destruct (invoke _ [VStr (name +:+ "-")] ∅ (world st)) as [[generated|e] w1];
      cbn [fst snd answered mbind option_bind] in *.
    2:{ injection H as <- <-. simpl. by rewrite app_nil_r. }
    unfold bind at 1, call in H. cbn [world] in H.
    destruct (invoke (VAttr image_client "create_image") [] _ w1)
      as [[resp|e] w2]; cbn [fst snd answered mbind option_bind] in *.
    2:{ injection H as <- <-. simpl. by rewrite app_nil_r. }
    unfold bind at 1 in H. rewrite subscript_run in H.
    destruct (item resp "image") as [image|]; cbn [mbind option_bind].
    2:{ injection H as <- <-. simpl. by rewrite app_nil_r. }
    unfold bind at 1 in H. rewrite subscript_run in H.
    destruct (item image "id") as [id|] eqn:Eid; rewrite ?Eid.
    2:{ injection H as <- <-. simpl. by rewrite app_nil_r. }
    pose proof H as H'.
    apply registered_stays in H' as [H1 H2];
      [|unfold assertEqual; solve [repeat registry_step]].
    simpl in H1, H2. split_and!; [done..|].
    destruct r as [id'|]; [|done].
    unfold bind at 1, addCleanup in H.
    do 4 (apply bind_ok in H as (? & ? & _ & H)). by injection H as <- _.
  - intros client st.
    destruct (create_keypair _ _ _ _) as [r st'] eqn:H. cbv zeta.
    unfold create_keypair, rand_name in H. unfold bind at 1, call in H.
    destruct (invoke _ [VStr class_name] ∅ (world st)) as [[generated|e] w1];
      cbn [fst snd answered mbind option_bind] in *.
    2:{ injection H as <- <-. simpl. by rewrite app_nil_r. }
    unfold bind at 1, call in H. cbn [world] in H.
    destruct (invoke (VAttr _ "create_keypair") [] _ w1)
      as [[resp|e] w2]; cbn [fst snd answered mbind option_bind] in *.
    2:{ injection H as <- <-. simpl. by rewrite app_nil_r. }
    apply registered_stays in H as [H1 H2]; [|solve [repeat registry_step]].
    simpl in H1, H2. split_and!; [done..|]. by destruct r.
Qed.

(** ** [create_server] without the wait on delete *)

Lemma create_server_registry_unwaited name image_id flavor validatable
    wait_until clients kw (st st' : TC) r :
  create_server invoke CONF network_scenario name image_id flavor validatable
    wait_until false clients kw st = (r, st') →
  ∃ ports,
    let sc := VAttr (if is_none clients then manager else clients)
                    "servers_client" in
    Forall port_entry ports ∧
    ((∃ e, r = Raise e) ∧
     _cleanups st' = _cleanups st ++ ports ∧
     cleanup_waits st' = cleanup_waits st
     ∨
     ∃ id,
       _cleanups st' = _cleanups st ++ ports ++
         [ mkEntry DeleteWrapper [VAttr sc "delete_server"; id] ∅ ] ∧
       cleanup_waits st' = cleanup_waits st ++
         [ <["client" := sc]>
             (<["server_id" := id]>
                {["waiter_callable" := waiters "wait_for_server_termination"]}) ]).
Proof.
  unfold create_server. intros H.
  set (cl := if is_none clients then manager else clients) in *.
  assert (Hp : appends (World:=World) port_entry
                 (if truthy (CONF "network" "port_vnic_type")
                  then server_ports invoke network_scenario cl
                         (CONF "network" "port_vnic_type") kw
                  else ret kw))
    by (destruct (truthy _); [apply appends_server_ports | apply appends_ret]).
  apply bind_inv in H as [(e & H & ->)|(kw' & s1 & H1 & H)].
  - apply (appends_run _ _ _ _ _ Hp) in H as (ports & HF & Hc & Hw).
    exists ports. split; [done|]. left. split; [by eexists|done].
  - apply (appends_run _ _ _ _ _ Hp) in H1 as (ports & HF & Hc & Hw).
    exists ports. split; [done|]. simpl in H. skim H.
    all: chain; rewrite ?Hc, ?Hw;
      first [ left; split; [by eexists|done]
            | right; eexists; simpl; rewrite <- ?app_assoc; simpl;
              by destruct (truthy (VAttr cl "servers_client")) ].
Qed.

(** X4: with [wait_on_delete=False], [create_server] registers the
    server-termination waiter once, in the wait queue only.  At the
    teardown of a test that made this one call, the delete of the server
    is followed by the cleanups of the ports, and the waiter is called
    once, when the wait queue is drained, after every cleanup of the
    test. *)
Theorem create_server_waits_once name image_id flavor validatable wait_until
    clients kw (st0 : TC) :
  let '(r, st') :=
    create_server invoke CONF network_scenario name image_id flavor validatable
      wait_until false clients kw (after_test [] st0) in
  ∃ ports,
    let waiter := waiters "wait_for_server_termination" in
    let sc := VAttr (if is_none clients then manager else clients)
                    "servers_client" in
    Forall port_entry ports ∧
    ((∃ e, r = Raise e) ∧
     _cleanups st' = _cleanups st0 ++ wait_entry :: ports ∧
     cleanup_waits st' = []
     ∨
     ∃ id rest,
       let D := mkEntry DeleteWrapper [VAttr sc "delete_server"; id] ∅ in
       _cleanups st' = _cleanups st0 ++ wait_entry :: ports ++ [D] ∧
       cleanup_waits st' =
         [ <["client" := sc]>
             (<["server_id" := id]> {["waiter_callable" := waiter]}) ] ∧
       log (doCleanups invoke st').2 =
         log st' ++
         [ Fire D; Invoke (VAttr sc "delete_server") [id] ∅ ] ++
         flat_map entry_events (rev ports) ++
         [ Fire wait_entry; Invoke waiter [] (waiter_kwargs "server_id" id sc) ] ++
         rest ∧
       fired rest = rev (_cleanups st0)).
Proof.
  destruct (create_server _ _ _ _ _ _ _ _ _ _ _ _) as [r st'] eqn:H.
  apply create_server_registry_unwaited in H as (ports & HF & H).
  exists ports. cbv zeta in *. split; [done|].
  rewrite after_test_state in H. simpl in H.
  destruct H as [(He & Hc & Hw)|(id & Hc & Hw)].
  { left. rewrite <- app_assoc in Hc. done. }
  right. rewrite <- app_assoc in Hc. simpl in Hc.
  set (waiter := waiters "wait_for_server_termination") in *.
  set (sc := VAttr (if is_none clients then manager else clients)
                   "servers_client") in *.
  set (rs := map plain_of ports ++
             [ WithWait waiter id "server_id" DeleteWrapper
                 (Some [VAttr sc "delete_server"; id]) None sc ]).
  destruct (plain_of_entries ports) as (P1 & P2 & P3).
  assert (Hrs : Forall test_registration rs).
  { apply Forall_app. split; [by apply port_entries_registrations|].
    repeat constructor; discriminate. }
  assert (Hmap : map cleanup_of rs =
                 ports ++ [ mkEntry DeleteWrapper [VAttr sc "delete_server"; id] ∅ ]).
  { subst rs. by rewrite map_app, P1. }
  assert (Hwaits : omap wait_of rs =
                   [Invoke waiter [] (waiter_kwargs "server_id" id sc)]).
  { subst rs. by rewrite omap_app, P3. }
  destruct (teardown_of_registered invoke st' (_cleanups st0) rs Hrs)
    as (k & rest & L1 & L2 & _ & L4).
  { by rewrite Hmap. }
  { subst rs. rewrite omap_app, P2, Hw. simpl. by destruct (truthy sc) eqn:E. }
  exists id, rest. split_and!; try done.
  rewrite L1, Hmap, Hwaits, rev_app_distr. simpl.
  destruct k as [|k]; [by rewrite Hwaits in L4; specialize (L4 eq_refl)|].
  simpl. by rewrite take_nil.
Qed.

(** ** The snapshot of a server, without the cleanup of the image *)

(** X5: [create_server_snapshot_nocleanup] never registers a delete of the
    image it creates and never adds to the wait queue.  All it can
    register is the pair of [create_server_snapshot] for a volume snapshot
    found in the block device mapping: the wait for the deletion of the
    snapshot, then its wrapped delete. *)
Theorem snapshot_nocleanup_registers_no_image server name (st : TC) :
  let '(r, st') := create_server_snapshot_nocleanup invoke CONF server name st in
  cleanup_waits st' = cleanup_waits st ∧
  (_cleanups st' = _cleanups st ∨
   ∃ snapshot_id,
     _cleanups st' = _cleanups st ++
       [ mkEntry (Foreign (VAttr (snapshots_client CONF) "wait_for_resource_deletion"))
                 [snapshot_id] ∅;
         mkEntry DeleteWrapper
                 [VAttr (snapshots_client CONF) "delete_snapshot"; snapshot_id] ∅ ]).
Proof.
  destruct (create_server_snapshot_nocleanup _ _ _ _ _) as [r st'] eqn:H.
  unfold create_server_snapshot_nocleanup, rand_name, assertEqual in H.
  skim H.
  all: try match goal with H : Ok _ = Raise _ |- _ => discriminate H end.
  all: chain; (split; [done|]);
    first [ by left | right; eexists; by rewrite <- ?app_assoc ].
Qed.

(** ** Calls a method never makes *)

Lemma silent_bind {A B} meth (m : MW A) (k : A → MW B) :
  at_most meth 0 m → (∀ a, at_most meth 0 (k a)) → at_most meth 0 (bind m k).
Proof. intros Hm Hk. by apply (at_most_bind meth 0 0). Qed.

Lemma silent_try_except {A} meth (m : MW A) (h : exn → MW A) :
  at_most meth 0 m → (∀ e, at_most meth 0 (h e)) →
  at_most meth 0 (try_except m h).
Proof. intros Hm Hh. by apply (at_most_try_except meth 0 0). Qed.

Lemma silent_call meth f args kw :
  is_call meth (Invoke f args kw) = false →
  at_most meth 0 (call invoke f args kw).
Proof.
  intros H. pose proof (at_most_call invoke meth f args kw) as G.
  by rewrite H in G.
Qed.

Lemma silent_same_log {A} meth (m : MW A) :
  (∀ st, log (m st).2 = log st) → at_most meth 0 m.
Proof. intros H st. exists []. by rewrite H, app_nil_r. Qed.

Lemma silent_addCleanup meth a args kw :
  at_most meth 0 (addCleanup (World:=World) a args kw).
Proof. by apply silent_same_log. Qed.

Lemma silent_assertTrue meth b msg :
  at_most meth 0 (assertTrue (World:=World) b msg).
Proof. apply silent_same_log. by destruct b. Qed.

Lemma silent_new_handle meth cls given body :
  at_most meth 0 (new_handle (World:=World) cls given body).
Proof.
  apply silent_same_log. intros st.
  destruct body; simpl; try done; by destruct (forallb _ _).
Qed.

Lemma silent_iterate meth v : at_most meth 0 (iterate (World:=World) v).
Proof. apply silent_same_log. intros st. unfold iterate. by destruct (py_iter v). Qed.

Lemma silent_for_in meth v : at_most meth 0 (for_in (World:=World) v).
Proof. destruct v; simpl; try apply silent_iterate. apply at_most_ret. Qed.

Lemma silent_first_item meth v : at_most meth 0 (first_item (World:=World) v).
Proof.
  apply silent_same_log. intros st.
  by destruct v as [| | |[|]| | |[|]| |].
Qed.

Lemma silent_py_in meth x c : at_most meth 0 (py_in (World:=World) x c).
Proof. apply silent_same_log. intros st. destruct c; simpl; try done; by destruct x. Qed.

Lemma silent_str_add meth a b : at_most meth 0 (str_add (World:=World) a b).
Proof. apply silent_same_log. intros st. by destruct a, b. Qed.

Lemma silent_second meth r : at_most meth 0 (second (World:=World) r).
Proof.
  apply silent_same_log. intros st.
  by destruct r as [| | | | | |[|?[|?[|]]]| |].
Qed.

Lemma silent_subscript_by meth v key :
  at_most meth 0 (subscript_by (World:=World) v key).
Proof.
  destruct key; simpl; try apply at_most_subscript;
    try (apply silent_same_log; intros st; unfold at_position;
         destruct v; simpl; try done; by destruct (item_at _ _)).
Qed.

Lemma silent_for_each {A B} meth (f : A → MW B) (l : list A) :
  (∀ x, at_most meth 0 (f x)) → at_most meth 0 (for_each f l).
Proof.
  intros Hf. induction l as [|x l IH]; simpl; [apply at_most_ret|].
  apply silent_bind; [apply Hf|intros y].
  apply silent_bind; [apply IH|intros ys]. apply at_most_ret.
Qed.

(** Walks a method statement by statement, for a method name that none of
    its calls bears. *)
Ltac silent_step :=
  first
    [ apply at_most_ret | apply at_most_raise | apply at_most_subscript
    | apply at_most_getattr | apply silent_addCleanup | apply silent_assertTrue
    | apply silent_new_handle | apply silent_iterate | apply silent_for_in
    | apply silent_first_item | apply silent_py_in | apply silent_str_add
    | apply silent_second | apply silent_subscript_by
    | apply silent_call; reflexivity
    | apply silent_bind; [|intros ?]
    | apply silent_try_except; [|intros ?]
    | apply silent_for_each; intros ?
    | match goal with
      | |- at_most _ _ (match ?x with _ => _ end) => destruct x
      end ].

Lemma silent_run {A} meth (m : MW A) (st : TC) :
  at_most meth 0 m → calls meth (log (m st).2) = calls meth (log st).
Proof.
  intros Hm. destruct (m st) as [r st'] eqn:H.
  apply (at_most_run _ _ _ _ _ _ Hm) in H. simpl. lia.
Qed.

(** ** Routers *)

Lemma get_router_run client tenant_id (st st' : TC) r :
  _get_router invoke CONF client tenant_id st = (r, st') →
  cleanup_waits st' = cleanup_waits st ∧
  ∃ created,
    _cleanups st' = _cleanups st ++ created ∧
    (created = [] ∨ ∃ router, created = [handle_delete router]) ∧
    (∀ router, r = Ok router →
       created = if truthy (CONF "network" "public_router_id") then []
                 else [handle_delete router]).
Proof.
  unfold _get_router. intros H.
  destruct (truthy (CONF "network" "public_router_id")) eqn:E1;
    [|destruct (truthy (CONF "network" "public_network_id")) eqn:E2].
  - apply keeps_run in H as [H1 H2]; [|solve [repeat registry_step]].
    split; [done|]. exists []. rewrite app_nil_r. split_and!; auto.
  - follow_by ltac:(fun H => apply create_router_run in H as [? ?]) H.
    all: chain; (split; [done|]); simpl.
    all: first [ exists []; rewrite ?app_nil_r; by split_and!; auto
               | eexists; (split; [reflexivity|]);
                 split; [eauto|]; try done; by intros ? [= <-] ].
  - follow H.
    all: chain; (split; [done|]); exists []; rewrite app_nil_r; by split_and!; auto.
Qed.

(** X6: [_get_router] follows the configuration.  With a public router
    configured it shows that router: no router is created and nothing is
    registered.  Otherwise, with a public network configured, it creates a
    router, which registers its wrapped delete, and only then sets the
    gateway: once [_create_router] has returned the router, its delete is
    registered and stays, the gateway is set by the one call that
    follows, and the outcome of that call is the outcome of the method,
    so that a router whose gateway cannot be set is still cleaned up.
    With neither, it raises (the exception of the method itself when a
    tenant was given) without creating or showing a router. *)
Theorem router_follows_configuration client tenant_id (st : TC) :
  let '(r, st') := _get_router invoke CONF client tenant_id st in
  let client' := if truthy client then client else routers_client in
  let network_id := CONF "network" "public_network_id" in
  cleanup_waits st' = cleanup_waits st ∧
  if truthy (CONF "network" "public_router_id") then
    _cleanups st' = _cleanups st ∧
    calls "create_router" (log st') = calls "create_router" (log st)
  else if truthy (CONF "network" "public_network_id") then
    match r with
    | Ok router => _cleanups st' = _cleanups st ++ [handle_delete router]
    | Raise _ =>
        _cleanups st' = _cleanups st ∨
        ∃ router, _cleanups st' = _cleanups st ++ [handle_delete router]
    end ∧
    let looked := (if truthy tenant_id then ret tenant_id
                   else getattr invoke client' "tenant_id") st in
    match looked.1 with
    | Raise e => r = Raise e ∧ _cleanups st' = _cleanups st
    | Ok tenant =>
        let made := _create_router invoke client' tenant (VStr "router-smoke")
                                   looked.2 in
        match made.1 with
        | Raise e => r = Raise e ∧ st' = made.2 ∧ _cleanups st' = _cleanups st
        | Ok router =>
            let set_gateway := VAttr router "set_gateway" in
            _cleanups made.2 = _cleanups st ++ [handle_delete router] ∧
            calls "set_gateway" (log made.2) = calls "set_gateway" (log st) ∧
            _cleanups st' = _cleanups made.2 ∧
            log st' = log made.2 ++ [Invoke set_gateway [network_id] ∅] ∧
            r = match (invoke set_gateway [network_id] ∅ (world made.2)).1 with
                | Ok _ => Ok router
                | Raise e => Raise e
                end
        end
    end
  else
    (if truthy tenant_id then r = Raise (OtherError "Exception")
     else ∃ e, r = Raise e) ∧
    _cleanups st' = _cleanups st ∧
    calls "create_router" (log st') = calls "create_router" (log st) ∧
    calls "show_router" (log st') = calls "show_router" (log st).
Proof.
  destruct (_get_router _ _ _ _ _) as [r st'] eqn:H. cbv zeta.
  assert (Hold :
    cleanup_waits st' = cleanup_waits st ∧
    if truthy (CONF "network" "public_router_id") then
      _cleanups st' = _cleanups st ∧
      calls "create_router" (log st') = calls "create_router" (log st)
    else if truthy (CONF "network" "public_network_id") then
      match r with
      | Ok router => _cleanups st' = _cleanups st ++ [handle_delete router]
      | Raise _ =>
          _cleanups st' = _cleanups st ∨
          ∃ router, _cleanups st' = _cleanups st ++ [handle_delete router]
      end
    else
      (if truthy tenant_id then r = Raise (OtherError "Exception")
       else ∃ e, r = Raise e) ∧
      _cleanups st' = _cleanups st ∧
      calls "create_router" (log st') = calls "create_router" (log st) ∧
      calls "show_router" (log st') = calls "show_router" (log st)).
  {
      assert (Hcalls : ∀ meth,
                (truthy (CONF "network" "public_router_id") = true ∧
                 meth = "create_router") ∨
                (truthy (CONF "network" "public_router_id") = false ∧
                 truthy (CONF "network" "public_network_id") = false ∧
                 (meth = "create_router" ∨ meth = "show_router")) →
                calls meth (log st') = calls meth (log st)).
      { intros meth Hm.
        pose proof (silent_run meth (_get_router invoke CONF client tenant_id) st) as G.
        rewrite H in G. apply G. unfold _get_router.
        destruct Hm as [[-> ->]|(-> & -> & [-> | ->])]; repeat silent_step. }
      pose proof H as H'. apply get_router_run in H' as (Hw & created & Hc & Hk & Hr).
      split; [done|].
      destruct (truthy (CONF "network" "public_router_id")) eqn:E1;
        [|destruct (truthy (CONF "network" "public_network_id")) eqn:E2].
      - split; [|apply Hcalls; by left].
        unfold _get_router in H. rewrite E1 in H.
        by apply keeps_run in H as [H1 H2]; [|solve [repeat registry_step]].
      - destruct r as [router|e].
        + by rewrite Hc, (Hr router eq_refl).
        + destruct Hk as [->|[router ->]]; [left; by rewrite Hc, app_nil_r|right; eauto].
      - unfold _get_router in H. rewrite E1, E2 in H.
        split_and!; try (apply Hcalls; right; by auto).
        + destruct (truthy tenant_id); follow H; eauto.
        + by apply keeps_run in H as [H1 H2]; [|solve [repeat registry_step]].
  }
  destruct Hold as [Hw Hold]. split; [done|].
  destruct (truthy (CONF "network" "public_router_id")) eqn:E1; [done|].
  destruct (truthy (CONF "network" "public_network_id")) eqn:E2; [|done].
  split; [done|]. clear Hold.
  unfold _get_router in H. rewrite E1, E2 in H. unfold bind at 1 in H.
  destruct ((if truthy tenant_id then ret tenant_id
             else getattr invoke (if truthy client then client else routers_client)
                          "tenant_id") st) as [[tenant|e] s0] eqn:El;
    cbn [fst snd].
  2:{ injection H as <- <-. split; [done|].
      by apply keeps_run in El as [? ?]; [|destruct (truthy tenant_id);
                                            repeat registry_step]. }
  pose proof El as El'.
  apply keeps_run in El' as [K1 K2];
    [|destruct (truthy tenant_id); repeat registry_step].
  unfold bind at 1 in H.
  destruct (_create_router invoke _ tenant (VStr "router-smoke") s0)
    as [[router|e] s1] eqn:Em; cbn [fst snd].
  2:{ injection H as <- <-. apply create_router_run in Em as [_ Em].
      simpl in Em. rewrite app_nil_r in Em. split_and!; [done..|congruence]. }
  eapply (at_most_run "set_gateway" 0) in El as L1;
    [|destruct (truthy tenant_id); repeat silent_step].
  eapply (at_most_run "set_gateway" 0) in Em as L2;
    [|unfold _create_router, rand_name; repeat silent_step].
  apply create_router_run in Em as [_ Em]. simpl in Em.
  unfold bind at 1, call in H.
  destruct (invoke (VAttr router "set_gateway") _ ∅ (world s1)) as [[v|e] w];
    injection H as <- <-; simpl; (split_and!; [congruence|lia|done..]).
Qed.

(** ** Security groups *)

Lemma appends_create_loginable_secgroup_rule P rules_client secgroup groups_client :
  appends (World:=World) P
    (_create_loginable_secgroup_rule invoke rules_client secgroup groups_client).
Proof. unfold _create_loginable_secgroup_rule. apply appends_loginable_rules. Qed.

Lemma appends_compute_loginable_secgroup_rule P secgroup_id :
  appends (World:=World) P
    (ScenarioTest_create_loginable_secgroup_rule invoke secgroup_id).
Proof.
  unfold ScenarioTest_create_loginable_secgroup_rule. repeat registry_step.
Qed.

(** X7: [NetworkScenarioTest._create_security_group] registers one
    cleanup, the wrapped delete of the group, before the first rule is
    created: once [_create_empty_security_group] has returned the group,
    no rule having been asked for yet, the delete of that group is
    registered and stays whatever the creation of the rules and the checks
    on them do; no rule gets a cleanup of its own, and a group whose rules
    could not be created or do not pass the checks is still cleaned up.
    When the group could not be made, nothing is registered. *)
Theorem network_security_group_registers_once
    rules_client tenant_id namestart groups_client (st : TC) :
  let '(r, st') :=
    NetworkScenarioTest_create_security_group invoke rules_client tenant_id
      namestart groups_client st in
  let gc := if is_none groups_client then security_groups_client
            else groups_client in
  cleanup_waits st' = cleanup_waits st ∧
  match r with
  | Ok secgroup => _cleanups st' = _cleanups st ++ [handle_delete secgroup]
  | Raise _ =>
      _cleanups st' = _cleanups st ∨
      ∃ secgroup, _cleanups st' = _cleanups st ++ [handle_delete secgroup]
  end ∧
  let looked := (if is_none tenant_id then getattr invoke gc "tenant_id"
                 else ret tenant_id) st in
  match looked.1 with
  | Raise e => r = Raise e ∧ _cleanups st' = _cleanups st
  | Ok tenant =>
      let made := _create_empty_security_group invoke gc tenant namestart
                                               looked.2 in
      match made.1 with
      | Raise e => r = Raise e ∧ st' = made.2 ∧ _cleanups st' = _cleanups st
      | Ok secgroup =>
          _cleanups made.2 = _cleanups st ++ [handle_delete secgroup] ∧
          calls "create_security_group_rule" (log made.2) =
            calls "create_security_group_rule" (log st) ∧
          _cleanups st' = _cleanups made.2
      end
  end.
Proof.
  destruct (NetworkScenarioTest_create_security_group _ _ _ _ _ _)
    as [r st'] eqn:H. cbv zeta.
  assert (Hold :
    cleanup_waits st' = cleanup_waits st ∧
    match r with
    | Ok secgroup => _cleanups st' = _cleanups st ++ [handle_delete secgroup]
    | Raise _ =>
        _cleanups st' = _cleanups st ∨
        ∃ secgroup, _cleanups st' = _cleanups st ++ [handle_delete secgroup]
    end).
  {
      unfold NetworkScenarioTest_create_security_group, assertEqual in H.
      follow_by ltac:(fun H =>
        first [ apply create_empty_security_group_run in H as [? ?]
              | apply keeps_run in H as [? ?];
                [|apply appends_create_loginable_secgroup_rule] ]) H.
      all: chain; (split; [done|]); simpl; rewrite ?app_nil_r; eauto.
  }
  destruct Hold as [Hw Hold]. split; [done|]. split; [done|]. clear Hold.
  unfold NetworkScenarioTest_create_security_group in H.
  unfold bind at 1 in H.
  set (gc := if is_none groups_client then security_groups_client
             else groups_client) in *.
  destruct ((if is_none tenant_id then getattr invoke gc "tenant_id"
             else ret tenant_id) st) as [[tenant|e] s0] eqn:El;
    cbn [fst snd].
  2:{ injection H as <- <-. split; [done|].
      by apply keeps_run in El as [? ?]; [|destruct (is_none tenant_id);
                                            repeat registry_step]. }
  pose proof El as El'.
  apply keeps_run in El' as [K1 K2];
    [|destruct (is_none tenant_id); repeat registry_step].
  eapply (at_most_run "create_security_group_rule" 0) in El as L1;
    [|destruct (is_none tenant_id); repeat silent_step].
  unfold bind at 1 in H.
  destruct (_create_empty_security_group invoke gc tenant namestart s0)
    as [[secgroup|e] s1] eqn:Em; cbn [fst snd].
  2:{ injection H as <- <-. apply create_empty_security_group_run in Em as [_ Em].
      simpl in Em. rewrite app_nil_r in Em. split_and!; [done..|congruence]. }
  eapply (at_most_run "create_security_group_rule" 0) in Em as L2;
    [|unfold _create_empty_security_group, rand_name, assertEqual;
      repeat silent_step].
  apply create_empty_security_group_run in Em as [_ Em]. simpl in Em.
  split; [congruence|]. split; [lia|].
  apply keeps_run in H as [H1 _]; [congruence|].
  unfold assertEqual.
  repeat first [apply appends_create_loginable_secgroup_rule | registry_step].
Qed.

(** X8: [ScenarioTest._create_security_group], on the compute API, checks
    the name and the description the API echoes, then registers the
    wrapped delete of the group, then creates the rules.  Whether the
    delete is registered is decided by the answer to the creation of the
    group alone: it is registered exactly when the creation answered a
    group whose name and description are the ones asked for and whose id
    could be read, also when the creation of the rules fails, and nothing
    is registered otherwise; and no rule is asked for unless the delete
    has been registered.  A call that returns the group has registered
    exactly the delete of its id. *)
Theorem compute_security_group_registers_once (st : TC) :
  let '(r, st') := ScenarioTest_create_security_group invoke class_name st in
  let D id :=
    mkEntry DeleteWrapper
      [VAttr compute_security_groups_client "delete_security_group"; id] ∅ in
  let named :=
    invoke (VAttr (VObj "data_utils") "rand_name") [VStr class_name] ∅
           (world st) in
  let read :=
    sg_name ← answered named.1;
    name ← (match sg_name with VStr n => Some n | _ => None end);
    resp ← answered
             (invoke (VAttr compute_security_groups_client
                            "create_security_group") []
                     {[ "name" := sg_name;
                        "description" := VStr (name ++ " description") ]}
                     named.2).1;
    secgroup ← item resp "security_group";
    echoed ← item secgroup "name";
    if py_eq echoed sg_name then
      description ← item secgroup "description";
      if py_eq description (VStr (name ++ " description"))
      then item secgroup "id" else None
    else None in
  cleanup_waits st' = cleanup_waits st ∧
  match r with
  | Ok secgroup =>
      ∃ id, item secgroup "id" = Some id ∧
            _cleanups st' = _cleanups st ++ [D id]
  | Raise _ =>
      _cleanups st' = _cleanups st ∨
      ∃ id, _cleanups st' = _cleanups st ++ [D id]
  end ∧
  _cleanups st' = _cleanups st ++
    match read with Some id => [D id] | None => [] end ∧
  (read = None →
   calls "create_security_group_rule" (log st') =
     calls "create_security_group_rule" (log st)).
Proof.
  destruct (ScenarioTest_create_security_group _ _ _) as [r st'] eqn:H.
  cbv zeta.
  assert (Hold :
    cleanup_waits st' = cleanup_waits st ∧
    match r with
    | Ok secgroup =>
        ∃ id, item secgroup "id" = Some id ∧
              _cleanups st' = _cleanups st ++
                [mkEntry DeleteWrapper
                   [VAttr compute_security_groups_client "delete_security_group";
                    id] ∅]
    | Raise _ =>
        _cleanups st' = _cleanups st ∨
        ∃ id, _cleanups st' = _cleanups st ++
                [mkEntry DeleteWrapper
                   [VAttr compute_security_groups_client "delete_security_group";
                    id] ∅]
    end).
  {
      unfold ScenarioTest_create_security_group, rand_name, assertEqual in H.
      follow_by ltac:(fun H =>
        apply keeps_run in H as [? ?];
        [|apply appends_compute_loginable_secgroup_rule]) H.
      all: chain; (split; [done|]); eauto.
  }
  destruct Hold as [Hw Hold]. split; [done|]. split; [done|]. clear Hold.
  unfold ScenarioTest_create_security_group, rand_name in H.
  unfold bind at 1, call in H.
  destruct (invoke _ [VStr class_name] ∅ (world st)) as [[sg_name|e] w1];
    cbn [fst snd answered mbind option_bind] in *.
  2:{ injection H as <- <-. simpl. rewrite app_nil_r. split; [done|].
      intros _. rewrite calls_app. unfold calls. simpl. lia. }
  unfold bind at 1 in H.
  destruct sg_name as [| | |n| | | | |];
    try (injection H as <- <-; simpl; rewrite app_nil_r; split; [done|];
         intros _; rewrite calls_app; unfold calls; simpl; lia).
  cbn [str_add ret] in H. unfold bind at 1, call in H. cbn [world log] in H.
  cbn [mbind option_bind].
  destruct (invoke (VAttr compute_security_groups_client "create_security_group")
              [] _ w1) as [[resp|e] w2];
    cbn [fst snd answered mbind option_bind] in *.
  2:{ injection H as <- <-. simpl. rewrite app_nil_r. split; [done|].
      intros _. rewrite !calls_app. unfold calls. simpl. lia. }
  set (s2 := mkTestCase _ _ w2 _) in H.
  assert (L2 : calls "create_security_group_rule" (log s2) =
               calls "create_security_group_rule" (log st)).
  { unfold s2. simpl. rewrite !calls_app. unfold calls. simpl. lia. }
  assert (C2 : _cleanups s2 = _cleanups st) by done.
  clearbody s2.
  assert (Hstop : ∀ r0, (r0, s2) = (r, st') →
    _cleanups st' = _cleanups st ++ [] ∧
    (@None value = None →
     calls "create_security_group_rule" (log st') =
       calls "create_security_group_rule" (log st))).
  { intros r0 [= _ <-]. by rewrite app_nil_r. }
  unfold bind at 1 in H. rewrite subscript_run in H.
  destruct (item resp "security_group") as [secgroup|];
    cbn [mbind option_bind]; [|by apply (Hstop _ H)].
  unfold bind at 1 in H. rewrite subscript_run in H.
  destruct (item secgroup "name") as [echoed|]; cbn [mbind option_bind];
    [|by apply (Hstop _ H)].
  unfold bind at 1, assertEqual, assertTrue in H.
  destruct (py_eq echoed (VStr n)); [|by apply (Hstop _ H)].
  cbn [ret] in H.
  unfold bind at 1 in H. rewrite subscript_run in H.
  destruct (item secgroup "description") as [description|];
    cbn [mbind option_bind]; [|by apply (Hstop _ H)].
  unfold bind at 1 in H.
  destruct (py_eq description (VStr (n ++ " description")));
    [|by apply (Hstop _ H)].
  cbn [ret] in H.
  unfold bind at 1 in H. rewrite subscript_run in H.
  destruct (item secgroup "id") as [id|] eqn:Eid; [|by apply (Hstop _ H)].
  split; [|done].
  apply registered_stays in H as [H1 _]; [congruence|].
  repeat first [apply appends_compute_loginable_secgroup_rule | registry_step].
Qed.

(** ** Floating ips on the network API *)

Lemma appends_get_server_port_id_and_ip4 P server ip_addr :
  appends (World:=World) P (_get_server_port_id_and_ip4 invoke server ip_addr).
Proof. unfold _get_server_port_id_and_ip4, _list_ports. repeat registry_step. Qed.

Lemma network_floating_ip_run thing external_network_id port_id client
    (st st' : TC) r :
  NetworkScenarioTest_create_floating_ip invoke CONF thing external_network_id
    port_id client st = (r, st') →
  cleanup_waits st' = cleanup_waits st ∧
  _cleanups st' = _cleanups st ++
    match r with Ok floating_ip => [handle_delete floating_ip] | Raise _ => [] end.
Proof.
  unfold NetworkScenarioTest_create_floating_ip. intros H.
  follow_by ltac:(fun H =>
    apply keeps_run in H as [? ?];
    [|apply appends_get_server_port_id_and_ip4]) H.
  all: chain; by rewrite ?app_nil_r.
Qed.

(** X9: [NetworkScenarioTest.create_floating_ip] registers the wrapped
    delete of the floating ip exactly when it returns it, and leaves the
    wait queue alone.  Given a port, it does not list the ports of the
    server. *)
Theorem network_floating_ip_registers_on_success
    thing external_network_id port_id client (st : TC) :
  let '(r, st') :=
    NetworkScenarioTest_create_floating_ip invoke CONF thing external_network_id
      port_id client st in
  cleanup_waits st' = cleanup_waits st ∧
  _cleanups st' = _cleanups st ++
    match r with Ok floating_ip => [handle_delete floating_ip] | Raise _ => [] end ∧
  if truthy port_id
  then calls "list_ports" (log st') = calls "list_ports" (log st)
  else True.
Proof.
  pose proof (silent_run "list_ports"
    (NetworkScenarioTest_create_floating_ip invoke CONF thing external_network_id
       port_id client) st) as Hcalls.
  destruct (NetworkScenarioTest_create_floating_ip _ _ _ _ _ _ _)
    as [r st'] eqn:H.
  apply network_floating_ip_run in H as [H1 H2]. split_and!; [done..|].
  destruct (truthy port_id) eqn:E; [|done]. apply Hcalls.
  unfold NetworkScenarioTest_create_floating_ip. rewrite E.
  repeat silent_step.
Qed.

(** ** The port of a server *)

Lemma for_in_elements v (s s' : TC) l :
  for_in v s = (Ok l, s') → s' = s ∧ elements v = Some l.
Proof.
  destruct v; simpl; unfold iterate; simpl; try done;
    by intros [= <- <-].
Qed.

Lemma fixed_ip4_entries p fixed_ips : ∀ (st st' : TC) pm,
  fixed_ip4 invoke p fixed_ips st = (Ok pm, st') →
  Forall (λ entry : value * value,
            ∃ status fxip,
              item p "id" = Some entry.1 ∧
              item p "status" = Some status ∧
              py_eq status (VStr "ACTIVE") = true ∧
              fxip ∈ fixed_ips ∧ item fxip "ip_address" = Some entry.2 ∧
              ∃ w v, (invoke (VAttr (VObj "netaddr") "valid_ipv4")
                             [entry.2] ∅ w).1 = Ok v ∧ truthy v = true) pm.
Proof.
  induction fixed_ips as [|fxip fixed_ips IH]; intros st st' pm H; simpl in H.
  { injection H as <- _. constructor. }
  apply bind_ok in H as (ip & s1 & H1 & H).
  apply subscript_item in H1 as [-> Hip].
  apply bind_ok in H as (valid & s2 & H2 & H).
  apply bind_ok in H as (active & s3 & H3 & H).
  apply bind_ok in H as (here & s4 & H4 & H).
  apply bind_ok in H as (more & s5 & H5 & H).
  injection H as <- <-.
  apply IH in H5. apply Forall_app. split.
  - destruct active; [|injection H4 as <- _; constructor].
    apply bind_ok in H4 as (id & s6 & H6 & H4).
    apply subscript_item in H6 as [-> Hid].
    apply bind_ok in H4 as (ip' & s7 & H7 & H4).
    apply subscript_item in H7 as [-> Hip'].
    injection H4 as <- _. rewrite Hip in Hip'. injection Hip' as <-.
    destruct (truthy valid) eqn:Hv; [|by injection H3].
    apply bind_ok in H3 as (status & s8 & H8 & H3).
    apply subscript_item in H8 as [-> Hstatus].
    injection H3 as Hact _.
    constructor; [|constructor]. exists status, fxip. simpl.
    split_and!; try done; [apply elem_of_cons; by left|].
    unfold call in H2. exists (world st).
    destruct (invoke _ _ _ (world st)) as [a w] eqn:Ei.
    injection H2 as -> _. by exists valid.
  - eapply Forall_impl; [exact H5|].
    intros entry (status & fx & G1 & G2 & G3 & G4 & G5 & G6).
    exists status, fx. split_and!; try done. apply elem_of_cons. by right.
Qed.

Lemma port_map_of_entries ports : ∀ (st st' : TC) pm,
  port_map_of invoke ports st = (Ok pm, st') →
  Forall (ip4_of_active_port
            (λ ip, ∃ w v, (invoke (VAttr (VObj "netaddr") "valid_ipv4")
                                  [ip] ∅ w).1 = Ok v ∧ truthy v = true)
            ports) pm.
Proof.
  induction ports as [|p ports IH]; intros st st' pm H; simpl in H.
  { injection H as <- _. constructor. }
  apply bind_ok in H as (fixed_ips & s1 & H1 & H).
  apply subscript_item in H1 as [-> Hfx].
  apply bind_ok in H as (l & s2 & H2 & H).
  apply for_in_elements in H2 as [-> Hl].
  apply bind_ok in H as (here & s3 & H3 & H).
  apply bind_ok in H as (more & s4 & H4 & H).
  injection H as <- <-.
  apply fixed_ip4_entries in H3. apply IH in H4.
  apply Forall_app. split.
  - eapply Forall_impl; [exact H3|].
    intros entry (status & fxip & G1 & G2 & G3 & G4 & G5 & G6).
    exists p, status, fixed_ips, l, fxip.
    split_and!; try done. apply elem_of_cons. by left.
  - eapply Forall_impl; [exact H4|].
    intros entry (p' & status & fx & l' & fxip & G0 & G).
    exists p', status, fx, l', fxip. split; [|done].
    apply elem_of_cons. by right.
Qed.

(** X10: [_get_server_port_id_and_ip4] registers nothing.  What it returns
    is the only entry of the port map of the ports that were listed for
    the server: the id of a port whose status is [ACTIVE], with a fixed ip
    of that port which [netaddr.valid_ipv4] accepted.  A port that is not
    active and an address that is not IPv4 are never returned. *)
Theorem server_port_is_active_with_ip4 server ip_addr (st : TC) :
  let '(r, st') := _get_server_port_id_and_ip4 invoke server ip_addr st in
  _cleanups st' = _cleanups st ∧ cleanup_waits st' = cleanup_waits st ∧
  match r with
  | Ok entry =>
      ∃ id listing ports (s s' : TC),
        item server "id" = Some id ∧
        _list_ports invoke {[ "device_id" := id; "fixed_ip" := ip_addr ]} st
          = (Ok listing, s) ∧
        elements listing = Some ports ∧
        port_map_of invoke ports s = (Ok [entry], s') ∧
        ip4_of_active_port
          (λ ip, ∃ w v, (invoke (VAttr (VObj "netaddr") "valid_ipv4")
                                [ip] ∅ w).1 = Ok v ∧ truthy v = true)
          ports entry
  | Raise _ => True
  end.
Proof.
  destruct (_get_server_port_id_and_ip4 _ _ _ _) as [r st'] eqn:H.
  pose proof H as H'.
  apply keeps_run in H' as [H1 H2];
    [|apply appends_get_server_port_id_and_ip4].
  split_and!; [done..|]. destruct r as [entry|e]; [|done].
  unfold _get_server_port_id_and_ip4 in H.
  apply bind_ok in H as (id & s1 & G1 & H).
  apply subscript_item in G1 as [-> Hid].
  apply bind_ok in H as (listing & s2 & G2 & H).
  apply bind_ok in H as (ports & s3 & G3 & H).
  apply for_in_elements in G3 as [-> Hports].
  apply bind_ok in H as (pm & s4 & G4 & H).
  apply bind_ok in H as (inactive & s5 & G5 & H).
  apply bind_ok in H as ([] & s6 & G6 & H).
  apply bind_ok in H as ([] & s7 & G7 & H).
  unfold assertTrue in G7.
  destruct pm as [|x [|y pm]];
    [discriminate H| |rewrite bool_decide_eq_false_2 in G7 by (simpl; lia);
                      discriminate G7].
  injection H as <- _.
  exists id, listing, ports, s2, s4. split_and!; try done.
  apply port_map_of_entries in G4. by rewrite Forall_singleton in G4.
Qed.

(** ** The address of a server *)

Lemma py_eq_str v s : py_eq v (VStr s) = true ↔ v = VStr s.
Proof.
  split; [|intros ->; simpl; apply String.eqb_refl].
  destruct v; simpl; try done. by intros ->%String.eqb_eq.
Qed.

(** A step that leaves the whole state as it is. *)
Lemma same_state_bind {A B} (m : MW A) (k : A → MW B) :
  (∀ st, (m st).2 = st) → (∀ a st, (k a st).2 = st) →
  ∀ st, (bind m k st).2 = st.
Proof.
  intros Hm Hk st. unfold bind. specialize (Hm st).
  destruct (m st) as [[a|e] st1]; simpl in *; subst; [apply Hk|done].
Qed.

Lemma same_state_subscript v key (st : TC) : (subscript v key st).2 = st.
Proof. destruct v; simpl; try done; by destruct (assoc key _). Qed.

Lemma same_state_subscript_by v key (st : TC) : (subscript_by v key st).2 = st.
Proof.
  destruct key; simpl; try apply same_state_subscript;
    unfold at_position; destruct v; simpl; try done; by destruct (item_at _ _).
Qed.

Lemma same_state_for_in v (st : TC) : (for_in v st).2 = st.
Proof. destruct v; simpl; try done; unfold iterate; simpl; done. Qed.

Lemma same_state_address_for_ssh addresses (st : TC) :
  (address_for_ssh CONF addresses st).2 = st.
Proof.
  induction addresses as [|address addresses IH]; simpl; [done|].
  apply same_state_bind; [apply same_state_subscript|].
  intros version st'. destruct (py_eq _ _); [apply same_state_subscript|].
  clear IH. revert st'.
  induction addresses as [|address' addresses IH]; intros st'; simpl; [done|].
  apply same_state_bind; [apply same_state_subscript|].
  intros version' st''. destruct (py_eq _ _); [apply same_state_subscript|apply IH].
Qed.

Lemma address_for_ssh_finds addresses (st : TC) :
  Forall (λ x, is_Some (item x "version") ∧ is_Some (item x "addr")) addresses →
  address_for_ssh CONF addresses st =
    (match List.find
             (λ x, match item x "version" with
                   | Some v => py_eq v (CONF "validation" "ip_version_for_ssh")
                   | None => false
                   end) addresses with
     | Some x => Ok (default VNone (item x "addr"))
     | None => Raise (OtherError "ServerUnreachable")
     end, st).
Proof.
  induction 1 as [|x addresses [[v Hv] [a Ha]] _ IH]; simpl; [done|].
  unfold bind. rewrite (item_subscript _ _ _ _ Hv), Hv.
  destruct (py_eq v _); [|done].
  by rewrite (item_subscript _ _ _ _ Ha), Ha.
Qed.

(** X11: [get_server_ip] follows [CONF.validation.connect_method].  Unless
    the method is [floating], it calls nothing and registers nothing: the
    state is left as it was.  With [fixed] and a server that lists its
    addresses on the network for ssh, it returns the first address whose
    version is the configured one, and raises [ServerUnreachable] when
    there is none.  With any other value it raises
    [InvalidConfiguration]. *)
Theorem server_ip_follows_connect_method server (st : TC) :
  let connect_method := CONF "validation" "connect_method" in
  let run := get_server_ip invoke CONF network_scenario server st in
  (connect_method ≠ VStr "floating" → run.2 = st) ∧
  (connect_method ≠ VStr "floating" → connect_method ≠ VStr "fixed" →
   run.1 = Raise (OtherError "InvalidConfiguration")) ∧
  (∀ net on_all_networks addresses,
     connect_method = VStr "fixed" →
     CONF "validation" "network_for_ssh" = VStr net →
     item server "addresses" = Some on_all_networks →
     item on_all_networks net = Some (VList addresses) →
     Forall (λ x, is_Some (item x "version") ∧ is_Some (item x "addr"))
            addresses →
     run.1 =
       match List.find
               (λ x, match item x "version" with
                     | Some v => py_eq v (CONF "validation" "ip_version_for_ssh")
                     | None => false
                     end) addresses with
       | Some x => Ok (default VNone (item x "addr"))
       | None => Raise (OtherError "ServerUnreachable")
       end).
Proof.
  cbv zeta. unfold get_server_ip. split_and!.
  - intros Hf.
    destruct (py_eq _ (VStr "floating")) eqn:E1; [by apply py_eq_str in E1|].
    destruct (py_eq _ (VStr "fixed")); [|done].
    apply same_state_bind; [apply same_state_subscript|intros a st1].
    apply same_state_bind; [apply same_state_subscript_by|intros b st2].
    apply same_state_bind; [apply same_state_for_in|intros l st3].
    apply same_state_address_for_ssh.
  - intros Hf Hx.
    destruct (py_eq _ (VStr "floating")) eqn:E1; [by apply py_eq_str in E1|].
    destruct (py_eq _ (VStr "fixed")) eqn:E2; [by apply py_eq_str in E2|].
    done.
  - intros net on_all_networks addresses Hm Hnet Ha Hn Hall.
    rewrite Hm, Hnet. simpl. unfold bind.
    rewrite (item_subscript _ _ _ _ Ha). simpl.
    rewrite (item_subscript _ _ _ _ Hn). simpl.
    by rewrite address_for_ssh_finds.
Qed.

(** ** A network with its subnet and its router *)

Lemma appends_get_network_by_name P name :
  appends (World:=World) P (_get_network_by_name invoke name).
Proof. unfold _get_network_by_name, _list_networks. repeat registry_step. Qed.

Lemma create_networks_run client nc rc sc tenant_id dns (st st' : TC) r :
  create_networks invoke CONF client nc rc sc tenant_id dns st = (r, st') →
  cleanup_waits st' = cleanup_waits st ∧
  if truthy (CONF "baremetal" "driver_enabled") then
    _cleanups st' = _cleanups st ∧
    match r with
    | Ok (_, subnet, router) => subnet = VNone ∧ router = VNone
    | Raise _ => True
    end
  else
    ∃ created,
      _cleanups st' = _cleanups st ++ created ∧
      match r with
      | Ok (network, subnet, router) =>
          created =
            handle_delete network ::
            (if truthy (CONF "network" "public_router_id") then []
             else [handle_delete router]) ++
            [handle_delete subnet]
      | Raise _ =>
          Forall (λ e, ∃ handle, e = handle_delete handle) created ∧
          length created ≤ 3
      end.
Proof.
  unfold create_networks. intros H.
  destruct (truthy (CONF "baremetal" "driver_enabled")).
  - destruct (truthy (CONF "compute" "fixed_network_name")).
    + follow_by ltac:(fun H =>
        apply keeps_run in H as [? ?]; [|apply appends_get_network_by_name]) H.
      all: by chain.
    + by follow H.
  - apply bind_inv in H as [(e & H & ->)|(network & s1 & H1 & H)].
    { apply create_network_run in H as [Hw Hc]. split; [done|].
      exists []. split; [done|]. split; [constructor|simpl; lia]. }
    apply create_network_run in H1 as [Hw1 Hc1].
    apply bind_inv in H as [(e & H & ->)|(router & s2 & H2 & H)].
    { apply get_router_run in H as (Hw & created & Hc & Hk & _).
      split; [congruence|]. exists (handle_delete network :: created).
      split; [by rewrite Hc, Hc1, <- app_assoc|].
      destruct Hk as [->|[rt ->]]; (split; [|simpl; lia]);
        repeat constructor; by eexists. }
    apply get_router_run in H2 as (Hw2 & created & Hc2 & _ & Hr).
    specialize (Hr router eq_refl). subst created.
    apply bind_inv in H as [(e & H & ->)|(subnet & s3 & H3 & H)].
    { apply create_subnet_run in H as [Hw Hc]. split; [congruence|].
      eexists. split; [by rewrite Hc, Hc2, Hc1, app_nil_r, <- app_assoc|].
      destruct (truthy (CONF "network" "public_router_id"));
        (split; [|simpl; lia]); repeat constructor; by eexists. }
    apply create_subnet_run in H3 as [Hw3 Hc3].
    follow H.
    all: chain; rewrite ?Hw3, ?Hw2, ?Hw1, ?Hc3, ?Hc2, ?Hc1; (split; [done|]).
    all: eexists; (split; [by rewrite <- !app_assoc|]); simpl; try done.
    all: destruct (truthy (CONF "network" "public_router_id"));
        (split; [|simpl; lia]); repeat constructor; by eexists.
Qed.

(** X12: [create_networks] on a cloud without the baremetal driver
    registers the wrapped deletes in the order it creates: the network,
    then the router when it had to create one, then the subnet.  Teardown
    therefore deletes the subnet first, then the router, then the network,
    before the cleanups registered earlier.  A call that raises has
    registered at most these three.  With the baremetal driver, nothing is
    created or registered, and the subnet and the router are [None]. *)
Theorem networks_are_deleted_in_reverse client nc rc sc tenant_id dns rs
    (st0 : TC) :
  Forall test_registration rs →
  let st := after_test rs st0 in
  let '(r, st') := create_networks invoke CONF client nc rc sc tenant_id dns st in
  cleanup_waits st' = cleanup_waits st ∧
  if truthy (CONF "baremetal" "driver_enabled") then
    _cleanups st' = _cleanups st ∧
    match r with
    | Ok (_, subnet, router) => subnet = VNone ∧ router = VNone
    | Raise _ => True
    end
  else
    match r with
    | Ok (network, subnet, router) =>
        let routers :=
          if truthy (CONF "network" "public_router_id") then []
          else [handle_delete router] in
        _cleanups st' =
          _cleanups st ++
          handle_delete network :: routers ++ [handle_delete subnet] ∧
        ∃ k rest,
          log (doCleanups invoke st').2 =
            log st' ++
            entry_events (handle_delete subnet) ++
            flat_map entry_events routers ++
            entry_events (handle_delete network) ++
            flat_map entry_events (rev (map cleanup_of rs)) ++
            Fire wait_entry :: take k (omap wait_of rs) ++ rest ∧
          fired rest = rev (_cleanups st0)
    | Raise _ =>
        ∃ created,
          _cleanups st' = _cleanups st ++ created ∧
          Forall (λ e, ∃ handle, e = handle_delete handle) created ∧
          length created ≤ 3
    end.
Proof.
  intros Hrs st.
  destruct (create_networks _ _ _ _ _ _ _ _ _) as [r st'] eqn:H.
  apply create_networks_run in H as [Hw H]. split; [done|].
  destruct (truthy (CONF "baremetal" "driver_enabled")); [done|].
  destruct H as (created & Hc & H).
  destruct r as [[[network subnet] router]|e]; [|by exists created].
  subst created. split; [done|].
  set (routers := if truthy (CONF "network" "public_router_id") then []
                  else [handle_delete router]) in *.
  set (created := handle_delete network :: routers ++ [handle_delete subnet]) in *.
  destruct (plain_of_entries created) as (P1 & P2 & P3).
  destruct (teardown_after_factory invoke st0 st' rs (map plain_of created))
    as (k & rest & L1 & L2 & _); try done.
  { apply port_entries_registrations. subst created routers.
    destruct (truthy _); repeat constructor; by eexists. }
  { by rewrite P1. }
  { by rewrite P2, app_nil_r. }
  exists k, rest. split; [|done].
  rewrite L1, P1, P3, app_nil_r. subst created routers.
  destruct (truthy (CONF "network" "public_router_id")); simpl;
    by rewrite <- ?app_assoc.
Qed.


(** ** The rules of a security group on the compute API *)

Lemma default_group_id_last sgs : ∀ id0 (st : TC),
  Forall (λ sg, is_Some (item sg "name") ∧ is_Some (item sg "id")) sgs →
  default_group_id sgs id0 st = (Ok (default id0 (last (default_ids sgs))), st).
Proof.
  induction sgs as [|sg sgs IH]; intros id0 st Hall; [done|].
  apply Forall_cons in Hall as [[[name Hname] [id Hid]] Hall].
  simpl. unfold bind. rewrite (item_subscript _ _ _ _ Hname).
  unfold default_ids. simpl. rewrite Hname.
  destruct (py_eq name (VStr "default")).
  - rewrite (item_subscript _ _ _ _ Hid), IH, Hid by done. simpl.
    rewrite last_cons. fold (default_ids sgs).
    by destruct (last (default_ids sgs)).
  - by rewrite IH.
Qed.

Lemma silent_default_group_id meth sgs :
  ∀ id, at_most (World:=World) meth 0 (default_group_id sgs id).
Proof.
  induction sgs as [|sg sgs IH]; intros id; simpl; [apply at_most_ret|].
  repeat first [apply IH | silent_step].
Qed.

Lemma at_most_compute_rules rulesets : ∀ id rules,
  at_most "create_security_group_rule" (length rulesets)
          (compute_rules invoke rulesets id rules).
Proof.
  induction rulesets as [|ruleset rulesets IH]; intros id rules; simpl;
    [apply at_most_ret|].
  apply (at_most_bind _ 1 (length rulesets)).
  - eapply at_most_weaken; [|apply at_most_call]. cbn [is_call].
    destruct (String.eqb _ _); lia.
  - intros r. apply (at_most_bind _ 0 (length rulesets));
      [apply at_most_subscript|intros sg_rule; apply IH].
Qed.

Lemma silent_compute_rules rulesets : ∀ id rules,
  at_most "list_security_groups" 0 (compute_rules invoke rulesets id rules).
Proof.
  induction rulesets as [|ruleset rulesets IH]; intros id rules; simpl;
    [apply at_most_ret|].
  repeat first [apply IH | silent_step].
Qed.

Lemma compute_rules_length rulesets : ∀ id rules (st st' : TC) out,
  compute_rules invoke rulesets id rules st = (Ok out, st') →
  length out = length rules + length rulesets.
Proof.
  induction rulesets as [|ruleset rulesets IH]; intros id rules st st' out H;
    simpl in H.
  - injection H as <- _. simpl. lia.
  - apply bind_ok in H as (r & s1 & _ & H).
    apply bind_ok in H as (sg_rule & s2 & _ & H).
    apply IH in H. rewrite length_app in H. simpl in *. lia.
Qed.

(** X13: [ScenarioTest._create_loginable_secgroup_rule], on the compute
    API, registers nothing and makes at most two creations; when it
    returns, it returns two rules.  Given a group id, it does not list the
    groups.  Given none, the rules go to the group named [default] that
    comes last in the listing, and to no group ([None]) when the listing
    has none of that name. *)
Theorem compute_rules_go_to_the_last_default secgroup_id (st : TC) :
  let method := ScenarioTest_create_loginable_secgroup_rule invoke in
  let list_groups := VAttr compute_security_groups_client "list_security_groups" in
  (let '(r, st') := method secgroup_id st in
   _cleanups st' = _cleanups st ∧ cleanup_waits st' = cleanup_waits st ∧
   calls "create_security_group_rule" (log st') ≤
     calls "create_security_group_rule" (log st) + 2 ∧
   (if is_none secgroup_id then True
    else calls "list_security_groups" (log st') =
         calls "list_security_groups" (log st)) ∧
   match r with
   | Ok rules => length rules = 2
   | Raise _ => True
   end) ∧
  (∀ listing sgs w,
     invoke list_groups [] ∅ (world st) = (Ok listing, w) →
     item listing "security_groups" = Some (VList sgs) →
     Forall (λ sg, is_Some (item sg "name") ∧ is_Some (item sg "id")) sgs →
     method VNone st =
       compute_rules invoke compute_rulesets
         (default VNone (last (default_ids sgs))) []
         (mkTestCase (_cleanups st) (cleanup_waits st) w
                     (log st ++ [Invoke list_groups [] ∅]))).
Proof.
  cbv zeta. split.
  - pose proof (silent_run "list_security_groups"
      (ScenarioTest_create_loginable_secgroup_rule invoke secgroup_id) st)
      as Hlist.
    destruct (ScenarioTest_create_loginable_secgroup_rule _ _ _)
      as [r st'] eqn:H.
    pose proof H as H'.
    apply keeps_run in H' as [H1 H2];
      [|apply appends_compute_loginable_secgroup_rule].
    split_and!; [done..| | |].
    + eapply (at_most_run "create_security_group_rule" 2) in H; [lia|].
      unfold ScenarioTest_create_loginable_secgroup_rule.
      apply (at_most_bind _ 0 2); [|intros id; apply at_most_compute_rules].
      destruct (is_none secgroup_id);
        repeat first [apply silent_default_group_id | silent_step].
    + destruct (is_none secgroup_id) eqn:E; [done|]. apply Hlist.
      unfold ScenarioTest_create_loginable_secgroup_rule. rewrite E.
      apply silent_bind; [apply at_most_ret|intros id].
      apply silent_compute_rules.
    + destruct r as [rules|e]; [|done].
      unfold ScenarioTest_create_loginable_secgroup_rule in H.
      apply bind_ok in H as (id & s1 & _ & H).
      by apply compute_rules_length in H.
  - intros listing sgs w Hi Hl Hall.
    unfold ScenarioTest_create_loginable_secgroup_rule. simpl.
    unfold bind at 1. unfold bind at 1, call. rewrite Hi.
    unfold bind at 1. rewrite (item_subscript _ _ _ _ Hl).
    unfold bind at 1. simpl. unfold iterate. simpl. unfold ret at 1.
    by rewrite default_group_id_last.
Qed.

(** ** Object storage *)

Lemma check_each (expected : bool → bool) msg objects l (st : TC) :
  for_each (λ obj, bind (py_in obj (VList objects))
                     (λ found, assertTrue (expected found) msg)) l st =
  (if forallb (λ obj, expected (existsb (py_eq obj) objects)) l
   then Ok (map (λ _, tt) l) else Raise (AssertionError msg), st).
Proof.
  induction l as [|obj l IH]; [done|].
  assert (E : bind (py_in obj (VList objects))
                (λ found, assertTrue (expected found) msg) st =
              (if expected (existsb (py_eq obj) objects)
               then Ok tt else Raise (AssertionError msg), st)).
  { unfold bind. simpl. by destruct (expected _). }
  cbn [for_each forallb map]. unfold bind at 1. rewrite E.
  destruct (expected (existsb (py_eq obj) objects)); [|done].
  unfold bind at 1. rewrite IH. by destruct (forallb _ l).
Qed.

Lemma check_all (expected : bool → bool) msg objects l (st : TC) :
  (if truthy (VList l)
   then bind (for_in (VList l))
          (λ objs, bind (for_each
                           (λ obj, bind (py_in obj (VList objects))
                                     (λ found, assertTrue (expected found) msg))
                           objs)
                     (λ _, ret tt))
   else ret tt) st =
  (if forallb (λ obj, expected (existsb (py_eq obj) objects)) l
   then Ok tt else Raise (AssertionError msg), st).
Proof.
  destruct l as [|x l]; [done|].
  change (truthy (VList (x :: l))) with true. cbv iota.
  unfold bind at 1. cbn [for_in iterate py_iter]. unfold ret at 1.
  unfold bind at 1. rewrite check_each. by destruct (forallb _ _).
Qed.

Lemma list_and_check_run container_name present absent resp objects w
    (st : TC) :
  let list_contents := VAttr container_client "list_container_contents" in
  invoke list_contents [container_name] ∅ (world st)
    = (Ok (VList [resp; VList objects]), w) →
  list_and_check_container_objects invoke container_name (VList present)
                                   (VList absent) st =
    (if forallb (λ obj, existsb (py_eq obj) objects) present
     then if forallb (λ obj, negb (existsb (py_eq obj) objects)) absent
          then Ok tt
          else Raise (AssertionError "assertNotIn")
     else Raise (AssertionError "assertIn"),
     mkTestCase (_cleanups st) (cleanup_waits st) w
                (log st ++ [Invoke list_contents [container_name] ∅])).
Proof.
  intros list_contents Hi.
  unfold list_and_check_container_objects. cbn [is_none].
  unfold bind at 1, call. fold list_contents. rewrite Hi.
  unfold bind at 1. cbn [second]. unfold ret at 1. unfold bind at 1.
  rewrite (check_all (λ b, b) "assertIn").
  destruct (forallb _ present); [|done].
  apply (check_all negb "assertNotIn").
Qed.

(** X14: [list_and_check_container_objects] lists the container once and
    then only compares.  When the listing is a list of objects, the call
    returns exactly when every object expected is in the listing and none
    of the objects not expected is; otherwise it raises the
    [AssertionError] of the first check that fails, the presence checks
    first. *)
Theorem container_listing_is_checked container_name present absent resp
    objects w (st : TC) :
  let list_contents := VAttr container_client "list_container_contents" in
  invoke list_contents [container_name] ∅ (world st)
    = (Ok (VList [resp; VList objects]), w) →
  list_and_check_container_objects invoke container_name (VList present)
                                   (VList absent) st =
    (if forallb (λ obj, existsb (py_eq obj) objects) present
     then if forallb (λ obj, negb (existsb (py_eq obj) objects)) absent
          then Ok tt
          else Raise (AssertionError "assertNotIn")
     else Raise (AssertionError "assertIn"),
     mkTestCase (_cleanups st) (cleanup_waits st) w
                (log st ++ [Invoke list_contents [container_name] ∅])).
Proof. apply list_and_check_run. Qed.

(** X15: [delete_object] deletes and then checks: after a delete that the
    service accepted, it returns exactly when the object is gone from the
    listing of the container, and raises [AssertionError] when the listing
    still holds it.  A delete that the service refused reaches the caller
    as it is, and the container is not listed. *)
Theorem deleted_object_is_checked container_name filename (st : TC) :
  let delete := VAttr object_client "delete_object" in
  let list_contents := VAttr container_client "list_container_contents" in
  let run := delete_object invoke container_name filename st in
  (∀ e, (invoke delete [container_name; filename] ∅ (world st)).1 = Raise e →
        run.1 = Raise e ∧
        log run.2 = log st ++ [Invoke delete [container_name; filename] ∅]) ∧
  (∀ v w1 resp objects w2,
     invoke delete [container_name; filename] ∅ (world st) = (Ok v, w1) →
     invoke list_contents [container_name] ∅ w1
       = (Ok (VList [resp; VList objects]), w2) →
     run.1 = if existsb (py_eq filename) objects
             then Raise (AssertionError "assertNotIn") else Ok tt).
Proof.
  cbv zeta. unfold delete_object. split.
  - intros e He. unfold bind, call.
    destruct (invoke _ _ _ (world st)) as [a w]. simpl in He. by subst a.
  - intros v w1 resp objects w2 Hd Hl. unfold bind, call. rewrite Hd.
    change VNone with VNone.
    pose proof (list_and_check_run container_name [] [filename] resp objects w2
                  (mkTestCase (_cleanups st) (cleanup_waits st) w1
                     (log st ++ [Invoke (VAttr object_client "delete_object")
                                        [container_name; filename] ∅])) Hl) as G.
    unfold list_and_check_container_objects in G |- *. cbn [is_none] in G |- *.
    rewrite G. simpl. by destruct (existsb _ _).
Qed.

Lemma appends_list_and_check P container_name present absent :
  appends (World:=World) P
    (list_and_check_container_objects invoke container_name present absent).
Proof. unfold list_and_check_container_objects. repeat registry_step. Qed.

(** X16: [create_container] and [upload_object_to_container] register the
    wrapped delete as their last step: a call that returns has appended
    exactly the delete of the container, or of the object in its
    container, that it returns, and a call that raises, be it after the
    creation, has registered nothing.  [create_container] returns the name
    it was given, when it was given one. *)
Theorem storage_factories_register_on_success :
  (∀ container_name (st : TC),
     let '(r, st') := create_container invoke container_name st in
     cleanup_waits st' = cleanup_waits st ∧
     _cleanups st' = _cleanups st ++
       match r with
       | Ok name =>
           [mkEntry DeleteWrapper
                    [VAttr container_client "delete_container"; name] ∅]
       | Raise _ => []
       end ∧
     match r with
     | Ok name => if truthy container_name then name = container_name else True
     | Raise _ => True
     end) ∧
  (∀ container_name obj_name (st : TC),
     let '(r, st') := upload_object_to_container invoke container_name obj_name
                                                 st in
     cleanup_waits st' = cleanup_waits st ∧
     _cleanups st' = _cleanups st ++
       match r with
       | Ok (name, _) =>
           [mkEntry DeleteWrapper
                    [VAttr object_client "delete_object"; container_name; name] ∅]
       | Raise _ => []
       end ∧
     match r with
     | Ok (name, _) => if truthy obj_name then name = obj_name else True
     | Raise _ => True
     end).
Proof.
  split.
  - intros container_name st.
    destruct (create_container _ _ _) as [r st'] eqn:H.
    unfold create_container, rand_name in H.
    follow_by ltac:(fun H =>
      apply keeps_run in H as [? ?]; [|apply appends_list_and_check]) H.
    all: chain; by rewrite ?app_nil_r.
  - intros container_name obj_name st.
    destruct (upload_object_to_container _ _ _ _) as [r st'] eqn:H.
    unfold upload_object_to_container, rand_name in H.
    follow H. all: chain; by rewrite ?app_nil_r.
Qed.

(** ** Volume types *)

Lemma create_volume_type_run client name (st st' : TC) r :
  create_volume_type invoke CONF client name st = (r, st') →
  let client' := if truthy client then client
                 else admin_volume_types_client CONF in
  cleanup_waits st' = cleanup_waits st ∧
  ∃ created,
    _cleanups st' = _cleanups st ++ created ∧
    match r with
    | Ok body =>
        ∃ id, item body "id" = Some id ∧
              created = [mkEntry (Foreign (VAttr client' "delete_volume_type"))
                                 [id] ∅]
    | Raise _ => created = []
    end.
Proof.
  unfold create_volume_type, rand_name. intros H. follow H.
  all: chain; (split; [done|]);
    first [ exists []; rewrite app_nil_r; by split
          | eexists; (split; [reflexivity|]); eauto ].
Qed.

(** X17: [create_volume_type] checks that the response has an id and then
    registers the delete of that id, with the client itself and not
    through the delete wrapper: a call that returns has appended exactly
    that entry, a call that raises nothing.  [create_encryption_type]
    creates no volume type when it is given the id of one; given none, it
    creates one through the admin client, whatever client it was given,
    and the delete of that type is all it registers. *)
Theorem volume_type_is_registered_unwrapped :
  (∀ client name (st : TC),
     let '(r, st') := create_volume_type invoke CONF client name st in
     let client' := if truthy client then client
                    else admin_volume_types_client CONF in
     cleanup_waits st' = cleanup_waits st ∧
     match r with
     | Ok body =>
         ∃ id, item body "id" = Some id ∧
               _cleanups st' = _cleanups st ++
                 [mkEntry (Foreign (VAttr client' "delete_volume_type")) [id] ∅]
     | Raise _ => _cleanups st' = _cleanups st
     end) ∧
  (∀ client type_id provider key_size cipher control_location (st : TC),
     let '(r, st') :=
       create_encryption_type invoke CONF client type_id provider key_size
                              cipher control_location st in
     let D id := mkEntry (Foreign (VAttr (admin_volume_types_client CONF)
                                         "delete_volume_type")) [id] ∅ in
     cleanup_waits st' = cleanup_waits st ∧
     if truthy type_id then
       _cleanups st' = _cleanups st ∧
       calls "create_volume_type" (log st') = calls "create_volume_type" (log st)
     else
       match r with
       | Ok _ => ∃ id, _cleanups st' = _cleanups st ++ [D id]
       | Raise _ =>
           _cleanups st' = _cleanups st ∨
           ∃ id, _cleanups st' = _cleanups st ++ [D id]
       end).
Proof.
  split.
  - intros client name st.
    destruct (create_volume_type _ _ _ _ _) as [r st'] eqn:H.
    apply create_volume_type_run in H as (Hw & created & Hc & H).
    split; [done|]. destruct r as [body|e].
    + destruct H as (id & Hid & ->). by exists id.
    + subst created. by rewrite app_nil_r in Hc.
  - intros client type_id provider key_size cipher control_location st.
    pose proof (silent_run "create_volume_type"
      (create_encryption_type invoke CONF client type_id provider key_size
         cipher control_location) st) as Hcalls.
    destruct (create_encryption_type _ _ _ _ _ _ _ _ _) as [r st'] eqn:H.
    unfold create_encryption_type in H, Hcalls.
    destruct (truthy type_id) eqn:E.
    + split_and!; [| |apply Hcalls; repeat silent_step];
        by apply keeps_run in H as [? ?]; [|solve [repeat registry_step]].
    + follow_by ltac:(fun H =>
        apply create_volume_type_run in H as (? & ? & ? & ?)) H.
      all: chain; (split; [done|]).
      all: repeat match goal with
             | H : ∃ _, _ ∧ _ = _ |- _ => destruct H as (? & ? & ->)
             | H : ?c = [] |- _ => subst c
             end; rewrite ?app_nil_r; eauto.
Qed.


(** ** The default security group *)

Lemma for_each_elem {A B} (f : A → MW B) (l : list A) : ∀ (st st' : TC) ys,
  for_each f l st = (Ok ys, st') →
  Forall (λ y, ∃ x s s', x ∈ l ∧ f x s = (Ok y, s')) ys.
Proof.
  induction l as [|x l IH]; intros st st' ys H; simpl in H.
  { injection H as <- _. constructor. }
  apply bind_ok in H as (y & s1 & H1 & H).
  apply bind_ok in H as (ys' & s2 & H2 & H).
  injection H as <- _. constructor.
  - exists x, st, s1. split; [apply elem_of_cons; by left|done].
  - apply IH in H2. eapply Forall_impl; [exact H2|].
    intros y' (x' & s & s' & Hx & Hf). exists x', s, s'.
    split; [apply elem_of_cons; by right|done].
Qed.

Lemma appends_default_security_group P client tenant_id :
  appends (World:=World) P (_default_security_group invoke client tenant_id).
Proof. unfold _default_security_group. repeat registry_step. Qed.

(** X18: [_default_security_group] registers nothing, and the group it
    returns is one of the tenant: its name is [default] and, when the
    caller named a tenant, its tenant is that one.  A group of another
    tenant, or of another name, is never returned. *)
Theorem default_security_group_is_the_tenants client tenant_id (st : TC) :
  let '(r, st') := _default_security_group invoke client tenant_id st in
  _cleanups st' = _cleanups st ∧ cleanup_waits st' = cleanup_waits st ∧
  match r with
  | Ok secgroup =>
      ∃ tenant name,
        item secgroup "tenant_id" = Some tenant ∧
        item secgroup "name" = Some name ∧
        py_eq name (VStr "default") = true ∧
        if truthy tenant_id then py_eq tenant tenant_id = true else True
  | Raise _ => True
  end.
Proof.
  destruct (_default_security_group _ _ _ _) as [r st'] eqn:H.
  pose proof H as H'.
  apply keeps_run in H' as [H1 H2]; [|apply appends_default_security_group].
  split_and!; [done..|]. destruct r as [secgroup|e]; [|done].
  unfold _default_security_group in H.
  apply bind_ok in H as (tenant & s1 & G1 & H).
  apply bind_ok in H as (r & s2 & _ & H).
  apply bind_ok in H as (listed & s3 & _ & H).
  apply bind_ok in H as (groups & s4 & _ & H).
  apply bind_ok in H as (marked & s5 & G5 & H).
  destruct (filter _ marked) as [|[sg b] rest] eqn:Ef; [done|].
  assert (Hin : (sg, b) ∈ filter (λ p : value * bool, p.2 = true) marked)
    by (rewrite Ef; apply elem_of_cons; by left).
  apply list_elem_of_filter in Hin as [Hb Hin]. simpl in Hb. subst b.
  apply for_each_elem in G5. rewrite Forall_forall in G5.
  destruct (G5 _ Hin) as (x & s & s' & _ & Hf).
  apply bind_ok in Hf as (t & s6 & G6 & Hf).
  apply subscript_item in G6 as [-> Ht].
  destruct (py_eq t tenant) eqn:Et; [|by injection Hf].
  apply bind_ok in Hf as (n & s7 & G7 & Hf).
  apply subscript_item in G7 as [-> Hn].
  injection Hf as -> Hd _.
  exists t, n.
  assert (Hitem : ∀ key, key ≠ "client" → item secgroup key = item sg key).
  { intros key Hkey.
    destruct sg; simpl in Ht; try done; simpl in H;
      destruct (assoc "client" _); simpl in H; try done;
      injection H as <- _; simpl;
      by destruct (String.eqb_spec key "client"). }
  rewrite !Hitem by done. split_and!; try done.
  destruct (truthy tenant_id); [|done]. by injection G1 as <- _.
Qed.

(** ** The ssh client of a server *)

Lemma silent_console_outputs meth servers :
  meth ≠ "get_console_output" →
  at_most meth 0 (console_outputs invoke servers).
Proof.
  intros Hm. induction servers as [|server servers IH]; simpl;
    [apply at_most_ret|].
  apply silent_bind; [apply at_most_subscript|intros id].
  apply silent_bind.
  { apply silent_call. cbn [is_call].
    by destruct (String.eqb_spec "get_console_output" meth). }
  intros r. apply silent_bind; [apply at_most_subscript|intros _]. apply IH.
Qed.

Lemma silent_log_console_output servers :
  at_most "RemoteClient" 0 (_log_console_output invoke CONF servers).
Proof.
  unfold _log_console_output.
  repeat first [apply silent_console_outputs; done | silent_step].
Qed.

Lemma appends_log_console_output P servers :
  appends (World:=World) P (_log_console_output invoke CONF servers).
Proof. unfold _log_console_output. repeat registry_step. Qed.

Lemma validated linux_client (st st' : TC) r :
  bind (try_except
          (bind (call invoke (VAttr linux_client "validate_authentication") [] ∅)
                (λ _, ret tt))
          (λ e, bind (call invoke (VAttr (VObj "misc_utils") "find_test_caller")
                           [] ∅)
                  (λ _, bind (_log_console_output invoke CONF VNone)
                          (λ _, raise e))))
       (λ _, ret linux_client) st = (r, st') →
  ∃ more,
    log st' = log st ++ more ∧ calls "RemoteClient" more = 0 ∧
    match r with
    | Ok returned =>
        returned = linux_client ∧
        more = [Invoke (VAttr linux_client "validate_authentication") [] ∅]
    | Raise _ => True
    end.
Proof.
  intros H.
  assert (Hs : at_most "RemoteClient" 0
    (bind (try_except
          (bind (call invoke (VAttr linux_client "validate_authentication") [] ∅)
                (λ _, ret tt))
          (λ e, bind (call invoke (VAttr (VObj "misc_utils") "find_test_caller")
                           [] ∅)
                  (λ _, bind (_log_console_output invoke CONF VNone)
                          (λ _, raise e))))
       (λ _, ret linux_client))).
  { repeat first [apply silent_log_console_output | silent_step]. }
  destruct (Hs st) as (more & Hl & Hc). rewrite H in Hl. simpl in Hl.
  exists more. split; [done|]. split; [lia|].
  destruct r as [returned|e]; [|done].
  apply bind_ok in H as (u & s1 & G & H). injection H as <- <-.
  split; [done|]. unfold try_except in G.
  destruct (bind (call invoke (VAttr linux_client "validate_authentication")
                       [] ∅) (λ _, ret tt) st) as [[u'|e] s2] eqn:E.
  - injection G as _ <-.
    apply bind_ok in E as (v & s3 & E1 & E2). injection E2 as _ <-.
    unfold call in E1. destruct (invoke _ [] ∅ (world st)) as [a w].
    injection E1 as _ <-. simpl in Hl. by apply app_inv_head in Hl.
  - apply bind_ok in G as (? & ? & _ & G).
    apply bind_ok in G as (? & ? & _ & G). discriminate G.
Qed.

Lemma get_remote_client_run keypair ip_address username private_key
    (st st' : TC) r :
  get_remote_client invoke CONF keypair ip_address username private_key st
    = (r, st') →
  let username' := if is_none username then CONF "validation" "image_ssh_user"
                   else username in
  _cleanups st' = _cleanups st ∧ cleanup_waits st' = cleanup_waits st ∧
  ∃ new,
    log st' = log st ++ new ∧
    ((new = [] ∧ ∃ e, r = Raise e)
     ∨
     ∃ pkey password more,
       new = Invoke (VAttr (VObj "remote_client") "RemoteClient")
                    [ip_address; username']
                    {[ "pkey" := pkey; "password" := password ]} :: more ∧
       (if py_eq (CONF "validation" "auth_method") (VStr "keypair")
        then password = VNone ∧
             if is_none private_key
             then ∃ k, keypair = Some k ∧ item k "private_key" = Some pkey
             else pkey = private_key
        else pkey = VNone ∧
             password = CONF "validation" "image_ssh_password") ∧
       calls "RemoteClient" more = 0 ∧
       match r with
       | Ok linux_client =>
           more = [Invoke (VAttr linux_client "validate_authentication") [] ∅]
       | Raise _ => True
       end).
Proof.
  intros H username'.
  pose proof H as H'.
  apply keeps_run in H' as [H1 H2].
  2:{ unfold get_remote_client.
      repeat first [apply appends_log_console_output | registry_step]. }
  split_and!; [done..|].
  unfold get_remote_client in H.
  apply bind_inv in H as [(e & H & ->)|([password pkey] & s1 & G & H)].
  - exists []. rewrite app_nil_r. split; [|left; split; [done|by exists e]].
    destruct (py_eq _ _); [|done].
    apply bind_inv in H as [(e' & H & _)|(? & ? & _ & H)]; [|done].
    destruct (is_none private_key); [|done].
    destruct keypair as [k|]; [|by injection H as _ <-].
    pose proof (same_state_subscript k "private_key" st) as Hs.
    rewrite H in Hs. simpl in Hs. by subst.
  - assert (Hpre : s1 = st ∧
      if py_eq (CONF "validation" "auth_method") (VStr "keypair")
      then password = VNone ∧
           if is_none private_key
           then ∃ k, keypair = Some k ∧ item k "private_key" = Some pkey
           else pkey = private_key
      else pkey = VNone ∧ password = CONF "validation" "image_ssh_password").
    { destruct (py_eq _ _); [|by injection G as <- <- <-].
      apply bind_ok in G as (pk & s2 & G & G').
      injection G' as <- <- <-.
      destruct (is_none private_key); [|by injection G as <- <-].
      destruct keypair as [k|]; [|done].
      apply subscript_item in G as [-> Hk]. split; [done|].
      split; [done|]. by exists k. }
    destruct Hpre as [-> Hpre].
    apply bind_inv in H as [(e & H & ->)|(linux_client & s2 & G2 & H)].
    + unfold call in H. destruct (invoke _ _ _ (world st)) as [a w].
      injection H as -> <-. simpl. eexists. split; [reflexivity|].
      right. exists pkey, password, []. by split_and!.
    + apply validated in H as (more & Hl & Hc & Hr).
      unfold call in G2. destruct (invoke _ _ _ (world st)) as [a w].
      injection G2 as -> <-. simpl in Hl.
      eexists. split; [by rewrite Hl, <- app_assoc|].
      right. exists pkey, password, more. split_and!; try done.
      destruct r as [returned|e]; [|done]. by destruct Hr as [-> ->].
Qed.

(** X19: [get_remote_client] registers nothing and opens at most one
    connection, with the key or with the password and never with both:
    under [auth_method = keypair] the password is [None] and the key is
    the one of the caller or, when the caller gave none, the one of
    [self.keypair]; under any other method the key is [None], also when
    the caller gave one, and the password is the one of the configuration.
    A client that is returned has passed [validate_authentication], and
    nothing was called after that. *)
Theorem remote_client_uses_one_credential keypair ip_address username
    private_key (st : TC) :
  let '(r, st') :=
    get_remote_client invoke CONF keypair ip_address username private_key st in
  let username' := if is_none username then CONF "validation" "image_ssh_user"
                   else username in
  _cleanups st' = _cleanups st ∧ cleanup_waits st' = cleanup_waits st ∧
  ∃ new,
    log st' = log st ++ new ∧
    ((new = [] ∧ ∃ e, r = Raise e)
     ∨
     ∃ pkey password more,
       new = Invoke (VAttr (VObj "remote_client") "RemoteClient")
                    [ip_address; username']
                    {[ "pkey" := pkey; "password" := password ]} :: more ∧
       (if py_eq (CONF "validation" "auth_method") (VStr "keypair")
        then password = VNone ∧
             if is_none private_key
             then ∃ k, keypair = Some k ∧ item k "private_key" = Some pkey
             else pkey = private_key
        else pkey = VNone ∧
             password = CONF "validation" "image_ssh_password") ∧
       calls "RemoteClient" more = 0 ∧
       match r with
       | Ok linux_client =>
           more = [Invoke (VAttr linux_client "validate_authentication") [] ∅]
       | Raise _ => True
       end).
Proof.
  destruct (get_remote_client _ _ _ _ _ _ _) as [r st'] eqn:H.
  by apply get_remote_client_run in H.
Qed.

(** ** The image of the scenario *)

Lemma image_create_run name fmt path disk_format properties (st st' : TC) r :
  _image_create invoke name fmt path disk_format properties st = (r, st') →
  cleanup_waits st' = cleanup_waits st ∧
  ∃ ids,
    _cleanups st' =
      _cleanups st ++
      map (λ id, mkEntry (Foreign (VAttr image_client "delete_image")) [id] ∅)
          ids ∧
    match r with
    | Ok id => ids = [id]
    | Raise _ => length ids ≤ 1
    end.
Proof.
  intros H. unfold _image_create, rand_name, assertEqual in H. follow H.
  all: chain; (split; [done|]).
  all: first [ by exists []; rewrite app_nil_r; simpl; split; [|lia]
             | eexists [_]; simpl; split; [reflexivity|first [done|lia]] ].
Qed.

Lemma at_most_image_create name fmt path disk_format properties :
  at_most "create_image" 1
    (_image_create invoke name fmt path disk_format properties).
Proof.
  unfold _image_create, assertEqual.
  apply (at_most_bind _ 0 1); [by apply at_most_rand_name|intros n].
  apply (at_most_bind _ 1 0);
    [eapply at_most_weaken; [|apply at_most_call]; simpl; lia|intros r].
  repeat first [ eapply at_most_weaken; [|apply at_most_call]; simpl; lia
               | silent_step ].
Qed.

Lemma str_add_run a b (st st' : TC) r :
  str_add (World:=World) a b st = (r, st') → st' = st.
Proof. destruct a, b; simpl; by intros [= _ <-]. Qed.

(** X20: [glance_image_create] asks for at most four images (the image
    of the configuration and the kernel, the ramdisk and the machine image
    of the bundle) and registers nothing but deletes of images, at most
    four of them and with no wait.  The image it returns is the one
    registered last, so the one deleted first. *)
Theorem glance_image_is_registered_last (st : TC) :
  let '(r, st') := glance_image_create invoke CONF st in
  cleanup_waits st' = cleanup_waits st ∧
  calls "create_image" (log st') ≤ calls "create_image" (log st) + 4 ∧
  ∃ ids,
    _cleanups st' =
      _cleanups st ++
      map (λ id, mkEntry (Foreign (VAttr image_client "delete_image")) [id] ∅)
          ids ∧
    length ids ≤ 4 ∧
    match r with
    | Ok image => last ids = Some image
    | Raise _ => True
    end.
Proof.
  destruct (glance_image_create _ _ _) as [r st'] eqn:H.
  split_and!.
  - eapply (appends_run (λ _, True)) in H as (? & _ & _ & H); [done|].
    unfold glance_image_create, _image_create, assertEqual.
    repeat first [by apply appends_addCleanup | registry_step].
  - eapply (at_most_run "create_image" 4) in H; [lia|].
    unfold glance_image_create.
    do 8 (apply (at_most_bind _ 0 4); [apply silent_str_add|intros ?]).
    apply (at_most_try_except _ 1 3); [apply at_most_image_create|intros e].
    destruct e;
      try (apply (at_most_weaken _ 0); [lia|apply at_most_raise]).
    destruct (String.eqb kind "IOError");
      [|apply (at_most_weaken _ 0); [lia|apply at_most_raise]].
    apply (at_most_bind _ 1 2); [apply at_most_image_create|intros ?].
    apply (at_most_bind _ 1 1); [apply at_most_image_create|intros ?].
    apply at_most_image_create.
  - unfold glance_image_create in H.
    do 8 (apply bind_inv in H as [(? & H & ->)|(? & ? & G & H)];
          [apply str_add_run in H as ->; exists []; simpl;
           by rewrite app_nil_r; split_and!; [|lia|]
          |apply str_add_run in G as ->]).
    unfold try_except in H.
    destruct (_image_create invoke "scenario-img" _ _ _ _ st)
      as [[id|e] s1] eqn:E1;
      apply image_create_run in E1 as (_ & ids1 & E1 & L1).
    { injection H as <- <-. subst ids1. exists [id]. simpl.
      split_and!; [done|lia|done]. }
    assert (Hstop : (r, st') = (Raise e, s1) →
      ∃ ids, _cleanups st' = _cleanups st ++
        map (λ id, mkEntry (Foreign (VAttr image_client "delete_image")) [id] ∅)
            ids ∧ length ids ≤ 4 ∧
        match r with Ok image => last ids = Some image | Raise _ => True end).
    { intros [= -> ->]. exists ids1. split_and!; [done|lia|done]. }
    destruct e; try (by apply Hstop).
    destruct (String.eqb kind "IOError"); [|by apply Hstop]. clear Hstop.
    apply bind_inv in H as [(? & H & ->)|(kernel & s2 & G2 & H)].
    { apply image_create_run in H as (_ & ids2 & E2 & L2).
      exists (ids1 ++ ids2). rewrite map_app, app_assoc, <- E1.
      split_and!; [done| |done]. rewrite length_app. lia. }
    apply image_create_run in G2 as (_ & ids2 & E2 & ->).
    apply bind_inv in H as [(? & H & ->)|(ramdisk & s3 & G3 & H)].
    { apply image_create_run in H as (_ & ids3 & E3 & L3).
      exists (ids1 ++ [kernel] ++ ids3).
      rewrite !map_app, !app_assoc, <- E1, <- E2.
      split_and!; [done| |done]. rewrite !length_app. simpl. lia. }
    apply image_create_run in G3 as (_ & ids3 & E3 & ->).
    apply image_create_run in H as (_ & ids4 & E4 & L4).
    exists (ids1 ++ [kernel] ++ [ramdisk] ++ ids4).
    rewrite !map_app, !app_assoc, <- E1, <- E2, <- E3.
    split_and!; [done| |].
    + rewrite !length_app. simpl. destruct r; [subst; simpl; lia|lia].
    + destruct r as [image|]; [|done]. subst ids4.
      by rewrite <- !app_assoc, !last_app.
Qed.

(** ** The ports of a node *)

Lemma same_state_second r (st : TC) : (second r st).2 = st.
Proof.
  unfold second.
  repeat match goal with
         | |- context [match ?x with _ => _ end] => destruct x
         end; done.
Qed.

Lemma show_each_port (l : list value) : ∀ (st st' : TC) ports,
  for_each (λ port,
      bind (subscript port "uuid") (λ uuid,
      bind (call invoke (VAttr baremetal_client "show_port") [uuid] ∅) (λ r,
      second r))) l st = (Ok ports, st') →
  ∃ uuids,
    log st' = log st ++
      map (λ u, Invoke (VAttr baremetal_client "show_port") [u] ∅) uuids ∧
    length ports = length uuids ∧
    Forall2 (λ port u, item port "uuid" = Some u) l uuids.
Proof.
  induction l as [|port l IH]; intros st st' ports H; simpl in H.
  { injection H as <- <-. exists []. simpl. by rewrite app_nil_r. }
  apply bind_ok in H as (p & s1 & H1 & H).
  apply bind_ok in H as (ps & s2 & H2 & H). injection H as <- <-.
  apply bind_ok in H1 as (uuid & s3 & G1 & H1).
  apply subscript_item in G1 as [-> Hu].
  apply bind_ok in H1 as (r & s4 & G2 & H1).
  pose proof (same_state_second r s4) as Hs. rewrite H1 in Hs. simpl in Hs.
  subst s4. unfold call in G2.
  destruct (invoke _ [uuid] ∅ (world st)) as [a w]. injection G2 as _ <-.
  apply IH in H2 as (uuids & Hl & Hn & Hf). simpl in Hl.
  exists (uuid :: uuids). simpl. rewrite Hl, <- app_assoc.
  split_and!; [done|by rewrite Hn|by constructor].
Qed.

(** X21: [get_ports] registers nothing, and a call that returns has
    asked for the list of the node's ports once and then, for each port
    of the list that call answered, for that port by its uuid, in the
    order of the list, and for nothing else; it returns one port for each
    of them. *)
Theorem get_ports_shows_each_listed_port node_uuid (st : TC) :
  let '(r, st') := get_ports invoke node_uuid st in
  let list_ports := VAttr baremetal_client "list_node_ports" in
  _cleanups st' = _cleanups st ∧ cleanup_waits st' = cleanup_waits st ∧
  match r with
  | Ok ports =>
      ∃ resp body listing listed uuids,
        (invoke list_ports [node_uuid] ∅ (world st)).1
          = Ok (VList [resp; body]) ∧
        item body "ports" = Some listing ∧
        elements listing = Some listed ∧
        Forall2 (λ port u, item port "uuid" = Some u) listed uuids ∧
        length ports = length listed ∧
        log st' =
          log st ++
          Invoke list_ports [node_uuid] ∅ ::
          map (λ u, Invoke (VAttr baremetal_client "show_port") [u] ∅) uuids
  | Raise _ => True
  end.
Proof.
  destruct (get_ports _ _ _) as [r st'] eqn:H.
  pose proof H as H'.
  apply keeps_run in H' as [H1 H2];
    [|unfold get_ports; repeat registry_step].
  split_and!; [done..|]. destruct r as [ports|]; [|done].
  unfold get_ports in H.
  apply bind_ok in H as (r & s1 & G1 & H).
  apply bind_ok in H as (body & s2 & G2 & H).
  apply bind_ok in H as (listing & s3 & G3 & H).
  apply bind_ok in H as (listed & s4 & G4 & H).
  assert (∃ resp, r = VList [resp; body] ∧ s2 = s1) as (resp & -> & ->).
  { unfold second in G2.
    repeat match type of G2 with
           | (match ?x with _ => _ end) _ = _ => destruct x; try done
           end.
    injection G2 as <- <-. by eexists. }
  apply subscript_item in G3 as [-> G3].
  apply for_in_elements in G4 as [-> G4].
  apply show_each_port in H as (uuids & Hl & Hn & Hf).
  unfold call in G1.
  destruct (invoke _ [node_uuid] ∅ (world st)) as [a w]. injection G1 as -> <-.
  exists resp, body, listing, listed, uuids. split_and!; [done..| |].
  - rewrite Hn. symmetry. by eapply Forall2_length.
  - simpl in Hl. by rewrite Hl, <- app_assoc.
Qed.

(** ** Polling for a node and for a remote host *)

Section CoveragePolling.

Variable now : World → nat.
Variable sleep : nat → World → World.

Hypothesis sleep_advances : ∀ d w, now w + d ≤ now (sleep d w).
Hypothesis clock_monotone : ∀ f args kw w, now w ≤ now (invoke f args kw w).2.

Lemma steady_try_except {A} (m : MW A) (h : exn → MW A) :
  steady now m → (∀ e, steady now (h e)) → steady now (try_except m h).
Proof.
  intros Hm Hh st. unfold try_except. specialize (Hm st).
  destruct (m st) as [[a|e] st1]; simpl in *; [done|].
  specialize (Hh e st1). lia.
Qed.

Ltac clock_step :=
  first
    [ apply steady_ret | apply steady_raise
    | apply steady_call; assumption
    | apply steady_getattr; assumption
    | apply steady_subscript
    | apply steady_bind; [|intros ?]
    | apply steady_try_except; [|intros ?]
    | match goal with
      | |- steady _ (match ?x with _ => _ end) => destruct x
      | |- steady _ (if ?x then _ else _) => destruct x
      end ].


Lemma steady_ping_remote source dest should_succeed nic :
  steady now (ping_remote invoke source dest should_succeed nic).
Proof. unfold ping_remote. repeat clock_step. Qed.


(** X23: [_check_remote_connectivity] comes back with a boolean.  It is
    true only when the last ping had the expected outcome: [ping_host]
    returned and success was expected, or [ping_host] failed with
    [SSHExecCommandFailed] and failure was expected.  It is false once the
    ping timeout of the configuration has elapsed, and an exception is one
    that the ping raised. *)
Theorem remote_connectivity_matches_expectation fuel source dest
    should_succeed nic (st : TC) timeout :
  ticks (CONF "validation" "ping_timeout") = Some timeout →
  timeout < fuel →
  ∃ r st',
    _check_remote_connectivity invoke CONF now sleep fuel source dest
      should_succeed nic st = Some (r, st') ∧
    match r with
    | Ok true =>
        ∃ s, match (invoke (VAttr source "ping_host") [dest]
                           {[ "nic" := nic ]} (world s)).1 with
             | Ok _ => should_succeed = true
             | Raise e => e = OtherError "SSHExecCommandFailed" ∧
                          should_succeed = false
             end
    | Ok false => now (world st) + timeout ≤ now (world st')
    | Raise e =>
        ∃ s, ping_remote invoke source dest should_succeed nic s
               = (Raise e, st')
    end.
Proof.
  intros Ht Hfuel. unfold _check_remote_connectivity. rewrite Ht.
  destruct (call_until_true_returns now sleep sleep_advances
              (ping_remote invoke source dest should_succeed nic)
              timeout 1 fuel st)
    as (b & st' & H1 & H2); [apply steady_ping_remote|lia|done|].
  exists b, st'. split; [done|]. destruct b as [[|]|e]; [|done|].
  - destruct H2 as (s & v & _ & H2 & Hv). exists s.
    unfold ping_remote, try_except, bind at 1, call in H2.
    destruct (invoke _ [dest] _ (world s)) as [[a|e] w]; simpl in *.
    + injection H2 as <- _. done.
    + destruct e; try discriminate H2.
      destruct (String.eqb_spec kind "SSHExecCommandFailed") as [->|];
        [|discriminate H2].
      split; [done|].
      apply bind_ok in H2 as (? & ? & _ & H2).
      apply bind_ok in H2 as (? & ? & _ & H2).
      injection H2 as <- _. simpl in Hv. by destruct should_succeed.
  - destruct H2 as (s & _ & H2). by exists s.
Qed.

Lemma poll_frame meth (func : MW value) deadline sleep_for :
  appends (λ _, False) func → at_most meth 0 func →
  ∀ fuel (st st' : TC) r,
    poll now sleep fuel func deadline sleep_for st = Some (r, st') →
    _cleanups st' = _cleanups st ∧ cleanup_waits st' = cleanup_waits st ∧
    calls meth (log st') = calls meth (log st).
Proof.
  intros Hk Hs. induction fuel as [|fuel IH]; intros st st' r H; [done|].
  simpl in H. case_bool_decide; [|by injection H as _ <-].
  destruct (func st) as [[v|e] s1] eqn:E.
  - pose proof (keeps_run _ _ _ _ Hk E) as [K1 K2].
    pose proof (at_most_run _ _ _ _ _ _ Hs E) as K3.
    destruct (truthy v).
    + injection H as _ <-. split_and!; [done..|lia].
    + apply IH in H as (H1 & H2 & H3). simpl in *.
      split_and!; [congruence..|lia].
  - pose proof (keeps_run _ _ _ _ Hk E) as [K1 K2].
    pose proof (at_most_run _ _ _ _ _ _ Hs E) as K3.
    injection H as _ <-. split_and!; [done..|lia].
Qed.

(** X24: [check_vm_connectivity] comes back and registers nothing.  A
    negative check never opens an ssh connection; a positive one opens at
    most one.  It returns only after a ping with the expected outcome
    and, for a positive check, with the validation of the ssh client as
    the last thing done. *)
Theorem vm_connectivity_check_follows_expectation fuel keypair ip_address
    username private_key should_connect (st : TC) timeout :
  ticks (CONF "validation" "ping_timeout") = Some timeout →
  timeout < fuel →
  let cmd := VList [VStr "ping"; VStr "-c1"; VStr "-w1"; ip_address] in
  ∃ r st',
    check_vm_connectivity invoke CONF now sleep fuel keypair ip_address
      username private_key should_connect st = Some (r, st') ∧
    _cleanups st' = _cleanups st ∧ cleanup_waits st' = cleanup_waits st ∧
    (if should_connect
     then calls "RemoteClient" (log st') ≤ calls "RemoteClient" (log st) + 1
     else calls "RemoteClient" (log st') = calls "RemoteClient" (log st)) ∧
    match r with
    | Ok _ =>
        (∃ s v s1, ping invoke cmd should_connect s = (Ok v, s1) ∧
                   truthy v = true) ∧
        (if should_connect
         then ∃ linux_client,
                last (log st') =
                  Some (Invoke (VAttr linux_client "validate_authentication")
                               [] ∅)
         else True)
    | Raise _ => True
    end.
Proof.
  intros Ht Hfuel cmd.
  unfold check_vm_connectivity, ping_ip_address. cbn [truthy]. rewrite Ht.
  fold cmd.
  destruct (call invoke _ [] ∅ st) as [[caller|e] st1] eqn:E0;
    unfold call in E0; destruct (invoke _ [] ∅ (world st)) as [a w];
    injection E0 as -> <-.
  2:{ eexists _, _. split; [done|]. simpl. split_and!; [done..| |done].
      rewrite calls_app. unfold calls. simpl. destruct should_connect; lia. }
  set (st1 := mkTestCase _ _ _ _).
  assert (L1 : calls "RemoteClient" (log st1) = calls "RemoteClient" (log st)).
  { unfold st1. simpl. rewrite calls_app. unfold calls. simpl. lia. }
  destruct (call_until_true_returns now sleep sleep_advances
              (ping invoke cmd should_connect) timeout 1 fuel st1)
    as (b & st2 & H1 & H2);
    [by apply steady_ping|lia|done|].
  rewrite H1. unfold call_until_true in H1.
  apply (poll_frame "RemoteClient") in H1 as (F1 & F2 & F3).
  2:{ unfold ping. repeat registry_step. }
  2:{ unfold ping. repeat silent_step. }
  unfold st1 in F1, F2. simpl in F1, F2.
  destruct b as [[|]|e].
  - destruct H2 as (s & v & _ & H2 & Hv).
    destruct should_connect.
    + cbn [assertTrue]. unfold bind at 1. simpl.
      unfold bind at 1.
      destruct (get_remote_client invoke CONF keypair ip_address username
                  private_key st2) as [[lc|e] st3] eqn:G;
        apply get_remote_client_run in G
          as (G1 & G2 & new & G3 & [(-> & e' & Ge)|(pk & pw & more & -> & _ & Gc & Gr)]);
        try discriminate Ge.
      * eexists _, _. split; [done|]. simpl. subst more.
        rewrite G1, G2, G3. split_and!; [done|done| | |].
        -- rewrite calls_app, F3, L1. unfold calls. simpl. lia.
        -- by exists s, v, st2.
        -- exists lc.
           match goal with
           | |- last (?l ++ [?a; ?b]) = _ =>
               change (l ++ [a; b]) with (l ++ [a] ++ [b])
           end.
           by rewrite app_assoc, last_snoc.
      * eexists _, _. split; [done|]. simpl.
        rewrite G1, G2, G3, app_nil_r. split_and!; [done..|lia|done].
      * eexists _, _. split; [done|]. simpl.
        rewrite G1, G2, G3. split_and!; [done..| |done].
        rewrite calls_app, F3, L1. unfold calls at 2. cbn [List.filter is_call].
        simpl in Gc |- *. unfold calls in Gc. lia.
    + eexists _, _. split; [done|]. simpl.
      split_and!; [done|done|lia| |done]. by exists s, v, st2.
  - eexists _, _. split; [done|]. simpl.
    split_and!; [done..| |done]. destruct should_connect; lia.
  - eexists _, _. split; [done|]. simpl.
    split_and!; [done..| |done]. destruct should_connect; lia.
Qed.

End CoveragePolling.

End Coverage.

(** * The harness, step by step *)

Section Steps.

Context {World : Type}.
Variable invoke : value -> list value -> kwargs -> World -> result value * World.

Variable CONF : string -> string -> value.

Abbreviation TC := (TestCase World).
Abbreviation MW := (M (World:=World)).

(** The wait loop, call by call: every waiter up to and including the
    first that raises. *)
Lemma wait_loop_calls (waits : list kwargs) : ∀ i (st : TC),
  Forall (λ d, is_Some (d !! "waiter_callable")) waits →
  let k := (run_calls invoke (omap wait_event waits) (world st)).1 in
  log (wait_loop invoke i waits st).2 =
    log st ++ take k (omap wait_event waits) ∧
  ((wait_loop invoke i waits st).1 = Ok tt → k = length waits) ∧
  (k = 0 → waits = []).
Proof.
  induction waits as [|w rest IH]; intros i st Hw; cbv zeta.
  - simpl. rewrite app_nil_r. repeat split; auto.
  - apply Forall_cons in Hw as [[f Hf] Hw].
    set (wait := delete "waiter_callable" w).
    assert (Hcons : omap wait_event (w :: rest) =
                    Invoke f [] wait :: omap wait_event rest).
    { cbn [omap list_omap]. unfold wait_event at 1. by rewrite Hf. }
    assert (Hstep : wait_loop invoke i (w :: rest) st =
      match invoke f [] wait (world st) with
      | (Ok _, w') =>
          wait_loop invoke (S i) rest
            (mkTestCase (_cleanups st) (<[i := wait]> (cleanup_waits st)) w'
                        (log st ++ [Invoke f [] wait]))
      | (Raise x, w') =>
          (Raise x,
           mkTestCase (_cleanups st) (<[i := wait]> (cleanup_waits st)) w'
                      (log st ++ [Invoke f [] wait]))
      end).
    { simpl. rewrite Hf. unfold bind, store_wait, call. simpl.
      by destruct (invoke f [] _ (world st)) as [[v|x] w']. }
    rewrite Hcons, Hstep. clear Hcons Hstep. cbn [run_calls].
    destruct (invoke f [] wait (world st)) as [[v|x] w'].
    + match goal with |- context [wait_loop invoke (S i) rest ?s] =>
        destruct (IH (S i) s Hw) as (H1 & H2 & _) end.
      cbn [world log] in H1, H2.
      destruct (run_calls invoke (omap wait_event rest) w') as [n w''].
      cbn [fst snd] in *. split_and!.
      * rewrite H1. cbn [take]. by rewrite <- app_assoc.
      * intros E. cbn [length]. f_equal. exact (H2 E).
      * done.
    + cbn [fst snd log take]. by split_and!.
Qed.

Lemma test_waits_callable (rs : list registration) :
  Forall test_registration rs →
  Forall (λ d, is_Some (d !! "waiter_callable")) (omap wait_dict_of rs) ∧
  omap wait_event (omap wait_dict_of rs) = omap wait_of rs.
Proof.
  intros Hrs. split.
  - induction Hrs as [|r rs Hr _ IH]; simpl; [constructor|].
    destruct (wait_dict_of r) as [d|] eqn:Ed; [|done].
    constructor; [|done].
    pose proof (wait_event_of r d Hr Ed) as He.
    destruct r; simpl in *; [done|]. unfold wait_event in He.
    by destruct (d !! "waiter_callable").
  - pose proof (wait_events_of rs Hrs (length (omap wait_dict_of rs))) as H.
    rewrite firstn_all in H. rewrite H, wait_dicts_length.
    by rewrite firstn_all.
Qed.

(** Teardown of a test, step by step: the state after the cleanup entries
    of the test, the state after the drain of the wait queue, and the
    entries of the base class from there. *)
Lemma teardown_steps (st0 : TC) (rs : list registration) :
  Forall test_registration rs →
  let st := after_test rs st0 in
  let s1 := (drain invoke (length rs) st).2 in
  let s2 := (drain invoke (S (length rs)) st).2 in
  let k := (run_calls invoke (omap wait_of rs) (world s1)).1 in
  log s1 = log st0 ++ flat_map entry_events (rev (map cleanup_of rs)) ∧
  log s2 = log s1 ++ Fire wait_entry :: take k (omap wait_of rs) ∧
  _cleanups s2 = _cleanups st0 ∧
  (doCleanups invoke st).2 = (drain invoke (length (_cleanups st0)) s2).2 ∧
  ((doCleanups invoke st).1 = [] → k = length (omap wait_of rs)) ∧
  (k = 0 → omap wait_of rs = []).
Proof.
  intros Hrs. cbv zeta. rewrite after_test_state. unfold doCleanups. cbn [_cleanups].
  set (E := map cleanup_of rs). set (base := _cleanups st0).
  set (st1 := mkTestCase _ _ _ _).
  assert (Hlen : length rs = length E) by (subst E; by rewrite length_map).
  replace (length (base ++ wait_entry :: E))
    with (length E + (1 + length base))
    by (rewrite length_app; simpl; lia).
  replace (S (length rs)) with (length E + 1) by lia.
  rewrite Hlen, !drain_plus.
  destruct (drain_entries invoke E (base ++ [wait_entry]) st1) as (A1 & A2 & A3).
  { subst E. apply Forall_map. eapply Forall_impl; [exact Hrs|].
    by intros r [Hr _]. }
  { subst st1. simpl. by rewrite <- app_assoc. }
  destruct (drain invoke (length E) st1) as [e1 s1] eqn:D1.
  simpl in A1, A2, A3. lazy beta iota. rewrite drain_plus.
  destruct (test_waits_callable rs Hrs) as [W1 W2].
  assert (B : ∃ e2 s2, drain invoke 1 s1 = (e2, s2) ∧
    let k := (run_calls invoke (omap wait_of rs) (world s1)).1 in
    log s2 = log s1 ++ Fire wait_entry :: take k (omap wait_of rs) ∧
    _cleanups s2 = base ∧
    (e2 = [] → k = length (omap wait_of rs)) ∧
    (k = 0 → omap wait_of rs = [])).
  { simpl. rewrite A2, rev_unit. simpl.
    rewrite bool_decide_eq_true_2 by done.
    unfold _wait_for_cleanups. simpl. rewrite A3. subst st1. simpl.
    set (st2 := mkTestCase _ _ _ _).
    destruct (wait_loop_calls (omap wait_dict_of rs) 0 st2 W1) as (H1 & H2 & H3).
    rewrite W2 in H1, H2, H3. simpl in H1, H2, H3.
    pose proof (quiet_wait_loop invoke (omap wait_dict_of rs) 0 st2)
      as (cs & Q1 & _).
    destruct (wait_loop invoke 0 (omap wait_dict_of rs) st2) as [r s2].
    simpl in *. eexists _, _. split; [reflexivity|]. simpl.
    split_and!.
    - rewrite H1. by rewrite <- app_assoc.
    - by rewrite Q1, rev_involutive.
    - intros He. rewrite <- wait_dicts_length. apply H2.
      by destruct r as [[]|].
    - intros Hk. specialize (H3 Hk).
      rewrite <- W2, H3. done. }
  destruct B as (e2 & s2 & D2 & B1 & B2 & B3 & B4).
  rewrite D2. simpl.
  destruct (drain invoke (length base) s2) as [e3 s3] eqn:D3. simpl.
  rewrite A1. split_and!; try done.
  - by rewrite B1, A1.
  - intros Herr. apply app_eq_nil in Herr as [_ Herr].
    apply app_eq_nil in Herr as [Herr _]. by apply B3.
Qed.

(** ** The registry at teardown *)

(** C1: for every sequence of registrations made during a test (plain
    [addCleanup] or the cleanup part of [addCleanup_with_wait]), the
    registry holds their entries in registration order, and draining at
    teardown starts them in strict reverse order, last registered first;
    the entry [setUp] registered and whatever the base class had
    registered before follow, and the registry ends empty.  Starting an
    entry is calling it: when no registration is the drain of the wait
    queue itself, what teardown does up to the entry of [setUp] is, for
    each entry from the last registered to the first, to start it and to
    make its call, the registered callable on the registered arguments,
    and nothing else. *)
Theorem cleanups_drain_lifo (st0 : TC) (rs : list registration) :
  _cleanups (after_test rs st0) =
    _cleanups st0 ++ wait_entry :: map cleanup_of rs ∧
  fired (log (doCleanups invoke (after_test rs st0)).2) =
    fired (log st0) ++ rev (map cleanup_of rs) ++
    wait_entry :: rev (_cleanups st0) ∧
  _cleanups (doCleanups invoke (after_test rs st0)).2 = [] ∧
  (Forall (λ r, ce_action (cleanup_of r) ≠ WaitForCleanups) rs →
   ∃ rest,
     log (doCleanups invoke (after_test rs st0)).2 =
       log st0 ++ flat_map entry_events (rev (map cleanup_of rs)) ++
       Fire wait_entry :: rest).
Proof.
  rewrite after_test_state. split; [done|]. unfold doCleanups.
  set (st1 := mkTestCase _ _ _ _).
  destruct (drain_fired invoke (length (_cleanups st1)) st1) as [H1 H2]; [done|].
  split; [|split; [done|]].
  { rewrite H1. simpl. rewrite rev_app_distr. simpl. by rewrite <- !app_assoc. }
  intros Hrs. clear H1 H2. cbn [_cleanups st1].
  set (E := map cleanup_of rs). set (base := _cleanups st0).
  replace (length (base ++ wait_entry :: E))
    with (length E + (1 + length base))
    by (rewrite length_app; simpl; lia).
  rewrite drain_plus.
  destruct (drain_entries invoke E (base ++ [wait_entry]) st1) as (A1 & A2 & _).
  { subst E. by apply Forall_map. }
  { subst st1. simpl. by rewrite <- app_assoc. }
  destruct (drain invoke (length E) st1) as [e1 s1]. simpl in A1, A2.
  lazy beta iota. rewrite drain_plus.
  assert (B : ∃ cs, log (drain invoke 1 s1).2 = log s1 ++ Fire wait_entry :: cs).
  { simpl. rewrite A2, rev_unit.
    set (s := mkTestCase _ _ _ _).
    destruct (quiet_call_action invoke (ce_action wait_entry)
                (ce_args wait_entry) (ce_kwargs wait_entry) s)
      as (cs & _ & Q & _).
    destruct (call_action _ _ _ _ s) as [r s']. simpl in Q |- *.
    exists cs. rewrite Q. simpl. by rewrite <- app_assoc. }
  destruct B as [cs B].
  destruct (drain invoke 1 s1) as [e2 s2]. simpl in B.
  destruct (drain_log invoke (length base) s2) as [rest C].
  destruct (drain invoke (length base) s2) as [e3 s3]. simpl in C |- *.
  exists (cs ++ rest). rewrite C, B, A1. simpl.
  by rewrite <- !app_assoc.
Qed.

(** C2: for every interleaving of plain and with-wait registrations of a
    test, teardown first fires every cleanup entry, of both kinds, last
    registered first, each with its call; only then does the entry of
    [setUp] drain the wait queue, calling the waiters in registration
    order, each with its resource id under the recorded parameter name and
    with the override client when one was given.  The waiters called are
    exactly those up to and including the first that raises against the
    state the cleanups left: all of them when none raises, and at least
    the first.  What follows is the entries of the base class, and
    nothing when it had registered none. *)
Theorem waits_after_cleanups (st0 : TC) (rs : list registration) :
  Forall test_registration rs →
  let st := after_test rs st0 in
  let s1 := (drain invoke (length rs) st).2 in
  let k := (run_calls invoke (omap wait_of rs) (world s1)).1 in
  log s1 = log st0 ++ flat_map entry_events (rev (map cleanup_of rs)) ∧
  (k = 0 → omap wait_of rs = []) ∧
  ∃ rest,
    log (doCleanups invoke st).2 =
      log st0 ++ flat_map entry_events (rev (map cleanup_of rs)) ++
      Fire wait_entry :: take k (omap wait_of rs) ++ rest ∧
    fired rest = rev (_cleanups st0) ∧
    (_cleanups st0 = [] → rest = []) ∧
    ((doCleanups invoke st).1 = [] → k = length (omap wait_of rs)).
Proof.
  intros Hrs.
  destruct (teardown_steps st0 rs Hrs) as (T1 & T2 & T3 & T4 & T5 & T6).
  cbv zeta in *. split; [done|]. split; [done|].
  set (s2 := (drain invoke (S (length rs)) (after_test rs st0)).2) in *.
  destruct (drain_log invoke (length (_cleanups st0)) s2) as [rest C1].
  destruct (drain_fired invoke (length (_cleanups st0)) s2) as [C2 _];
    [by rewrite T3|].
  exists rest. rewrite T4. split_and!.
  - rewrite C1, T2, T1. by rewrite <- !app_assoc.
  - rewrite C1, fired_app, T3 in C2. by apply app_inv_head in C2.
  - intros Hb. rewrite Hb in C1. simpl in C1.
    rewrite <- (app_nil_r (log s2)) in C1 at 1.
    by apply app_inv_head in C1.
  - exact T5.
Qed.

(** ** The allocation of a subnet, block by block *)



(** ** The loginable rules, attempt by attempt *)

Lemma subscript_raises v key (s s' : TC) e :
  subscript v key s = (Raise e, s') →
  s' = s ∧ (e = KeyError key ∨ e = TypeError).
Proof.
  destruct v; simpl; try (intros [= <- <-]; by auto);
    destruct (assoc key _); simpl; try done;
    intros [= <- <-]; by auto.
Qed.

Lemma new_handle_run cls given body (s s' : TC) x :
  new_handle cls given body s = (x, s') →
  s' = s ∧ ((∃ fields, x = Ok (VHandle cls fields)) ∨ x = Raise TypeError).
Proof.
  destruct body; simpl; try (intros [= <- <-]; by auto);
    destruct (forallb _ _); simpl; intros [= <- <-]; split; eauto.
Qed.

Section Rules.

Variables (rules_client groups_client : value).
Variables (cls : string) (attrs : list (string * value)) (gid gt : value).

Let secgroup := VHandle cls attrs.
Let rc := if is_none rules_client then security_group_rules_client
          else rules_client.
Let gc := if is_none groups_client then security_groups_client
          else groups_client.
Let create := VAttr rc "create_security_group_rule".
Let asked (attempt : kwargs * string) : kwargs :=
  <["direction" := VStr attempt.2]> attempt.1 ∪
  {[ "security_group_id" := gid; "tenant_id" := gt ]}.

Hypothesis group_id : assoc "id" attrs = Some gid.
Hypothesis group_tenant : assoc "tenant_id" attrs = Some gt.

Lemma rules_clients_given : is_none rc = false ∧ is_none gc = false.
Proof.
  unfold rc, gc. split.
  - by destruct (is_none rules_client) eqn:E.
  - by destruct (is_none groups_client) eqn:E.
Qed.

(** One creation through [_create_security_group_rule], against the
    answer of the cloud: the failure of the creation as it is, or the
    rule, or the failure of a check, which is no [Conflict]. *)
Lemma create_rule_run kw (st st1 : TC) t :
  getattr invoke gc "tenant_id" st = (Ok t, st1) →
  let ruleset : kwargs :=
    kw ∪ {[ "security_group_id" := gid; "tenant_id" := gt ]} in
  let answer := invoke create [] ruleset (world st1) in
  let st2 := mkTestCase (_cleanups st1) (cleanup_waits st1) answer.2
                        (log st1 ++ [Invoke create [] ruleset]) in
  ∃ x,
    _create_security_group_rule invoke secgroup rc VNone gc kw st = (x, st2) ∧
    match answer.1 with
    | Raise e => x = Raise e
    | Ok _ =>
        (∃ fields, x = Ok (VHandle "DeletableSecurityGroupRule" fields)) ∨
        (∃ e, x = Raise e ∧ ∀ msg, e ≠ Conflict msg)
    end.
Proof.
  intros Ht ruleset answer st2.
  destruct rules_clients_given as [Hrc Hgc].
  unfold _create_security_group_rule. rewrite Hrc, Hgc. cbn [truthy].
  unfold bind at 1. rewrite Ht.
  unfold secgroup. cbn [is_none].
  unfold bind at 1. cbn [ret getattr]. rewrite group_id, group_tenant.
  unfold bind at 1. cbn [ret]. unfold bind at 1. cbn [ret].
  unfold bind at 1, call. fold create. fold ruleset. fold answer.
  destruct answer as [[r|e] w2] eqn:Ea; cbn [fst snd] in *; fold st2.
  2:{ by exists (Raise e). }
  unfold bind at 1.
  destruct (subscript r "security_group_rule" st2) as [[body|e] s3] eqn:E3.
  2:{ apply subscript_raises in E3 as [-> He].
      exists (Raise e). split; [done|]. right. exists e. split; [done|].
      by destruct He as [-> | ->]. }
  apply subscript_item in E3 as [-> _].
  unfold bind at 1.
  destruct (new_handle "DeletableSecurityGroupRule" [("client", rc)] body st2)
    as [x s4] eqn:E4.
  apply new_handle_run in E4 as [-> [[fields ->] | ->]].
  2:{ exists (Raise TypeError). split; [done|]. right. by eexists. }
  unfold bind at 1. cbn [ret getattr].
  unfold bind at 1.
  destruct (assoc "tenant_id" fields) as [rt|]; cbn [ret raise].
  2:{ eexists. split; [done|]. right. by eexists. }
  unfold bind at 1, assertEqual, assertTrue.
  destruct (py_eq gt rt); cbn [ret raise].
  2:{ eexists. split; [done|]. right. by eexists. }
  unfold bind at 1. cbn [ret]. unfold bind at 1.
  destruct (assoc "security_group_id" fields) as [rg|]; cbn [ret raise].
  2:{ eexists. split; [done|]. right. by eexists. }
  unfold bind at 1.
  destruct (py_eq gid rg); cbn [ret raise].
  2:{ eexists. split; [done|]. right. by eexists. }
  eexists. split; [done|]. left. by eexists.
Qed.

Let loop attempts rules (st : TC) :=
  loginable_rules invoke attempts rc secgroup gc rules st.
Let tolerated msg := contains "Security group rule already exists" msg.
Let creations (l : list event) :=
  List.filter (is_call "create_security_group_rule") l.
Let creation (attempt : kwargs * string) := Invoke create [] (asked attempt).

(** One turn of the loop, against the answer of the cloud to the
    creation. *)
Lemma loginable_step attempt attempts rules (st st1 : TC) t :
  getattr invoke gc "tenant_id" st = (Ok t, st1) →
  let answer := invoke create [] (asked attempt) (world st1) in
  let st2 := mkTestCase (_cleanups st1) (cleanup_waits st1) answer.2
                        (log st1 ++ [creation attempt]) in
  match answer.1 with
  | Raise (Conflict msg) =>
      loop (attempt :: attempts) rules st =
        if tolerated msg then loop attempts rules st2
        else (Raise (Conflict msg), st2)
  | Raise e => loop (attempt :: attempts) rules st = (Raise e, st2)
  | Ok _ =>
      (∃ rule, loop (attempt :: attempts) rules st =
                 loop attempts (rules ++ [rule]) st2) ∨
      (∃ e, loop (attempt :: attempts) rules st = (Raise e, st2) ∧
            ∀ msg, e ≠ Conflict msg)
  end.
Proof.
  intros Ht answer st2. destruct attempt as [ruleset dir].
  destruct (create_rule_run (<["direction" := VStr dir]> ruleset) st st1 t Ht)
    as (x & E & Hx).
  assert (Hloop : loop ((ruleset, dir) :: attempts) rules st =
    match x with
    | Ok rule =>
        bind (getattr invoke rule "direction") (λ direction,
          bind (assertEqual (VStr dir) direction "direction") (λ _,
            loginable_rules invoke attempts rc secgroup gc (rules ++ [rule])))
          st2
    | Raise (Conflict msg) =>
        if tolerated msg then loop attempts rules st2
        else (Raise (Conflict msg), st2)
    | Raise e => (Raise e, st2)
    end).
  { unfold loop. cbn [loginable_rules].
    unfold bind at 1, try_except, bind at 1. rewrite E. fold st2.
    destruct x as [rule|[]]; try done.
    unfold tolerated. by destruct (contains _ msg). }
  rewrite Hloop. clear Hloop E.
  unfold asked in answer. cbn [fst snd] in answer. fold answer in Hx.
  destruct answer.1 as [r|e].
  - destruct Hx as [[fields ->] | (e & -> & He)].
    + unfold bind at 1 3. cbn [getattr].
      destruct (assoc "direction" fields) as [d|]; cbn [ret raise].
      2:{ right. eexists. split; [reflexivity|done]. }
      unfold bind at 1 2, assertEqual, assertTrue.
      destruct (py_eq (VStr dir) d); cbn [ret raise].
      * left. by eexists.
      * right. eexists. split; [reflexivity|done].
    + right. exists e. split; [|done].
      destruct e; try done. by destruct (He msg).
  - subst x. by destruct e.
Qed.

Lemma creations_app l1 l2 : creations (l1 ++ l2) = creations l1 ++ creations l2.
Proof. apply List.filter_app. Qed.

Lemma creations_creation attempt : creations [creation attempt] = [creation attempt].
Proof.
  unfold creations, creation, create. cbn [List.filter is_call].
  by rewrite String.eqb_refl.
Qed.

Lemma tenant_lookup_run (st st1 : TC) x :
  getattr invoke gc "tenant_id" st = (x, st1) →
  _cleanups st1 = _cleanups st ∧
  ∃ new, log st1 = log st ++ new ∧ creations new = [].
Proof.
  intros H.
  pose proof (appends_getattr invoke (λ _, False) gc "tenant_id") as Ha.
  apply (keeps_run _ _ _ _ Ha) in H as Hk. destruct Hk as [Hk _].
  split; [done|].
  destruct (at_most_getattr invoke "create_security_group_rule" gc "tenant_id" st)
    as (new & H1 & H2).
  rewrite H in H1. simpl in H1. exists new. split; [done|].
  unfold calls in H2. unfold creations.
  destruct (List.filter _ new); [done|simpl in H2; lia].
Qed.

Hypothesis tenant_readable :
  ∀ s : TC, ∃ t, (getattr invoke gc "tenant_id" s).1 = Ok t.

(** The loop, as the cloud sees it: the creations it asks for are those of
    the attempts, in their order, up to the attempt that made it fail, and
    all of them when it returns. *)
Lemma loginable_trace attempts : ∀ rules (st : TC),
  ∃ new n,
    log (loop attempts rules st).2 = log st ++ new ∧
    creations new = map creation (take n attempts) ∧
    match (loop attempts rules st).1 with
    | Ok out =>
        n = length attempts ∧
        ∃ created, out = rules ++ created ∧ length created ≤ length attempts
    | Raise e => 1 ≤ n ∧ ∀ msg, e = Conflict msg → tolerated msg = false
    end.
Proof.
  induction attempts as [|attempt attempts IH]; intros rules st.
  { exists [], 0. unfold loop. simpl. rewrite !app_nil_r.
    split_and!; [done..|]. exists []. by rewrite app_nil_r. }
  destruct (tenant_readable st) as [t Ht].
  destruct (getattr invoke gc "tenant_id" st) as [x st1] eqn:G.
  simpl in Ht. subst x.
  destruct (tenant_lookup_run st st1 _ G) as (_ & new0 & L0 & C0).
  pose proof (loginable_step attempt attempts rules st st1 t G) as Hs.
  cbv zeta in Hs.
  set (st2 := mkTestCase _ _ _ _) in Hs.
  assert (L2 : log st2 = log st ++ new0 ++ [creation attempt])
    by (unfold st2; simpl; by rewrite L0, <- app_assoc).
  assert (Hcontinue : ∀ rules',
    loop (attempt :: attempts) rules st = loop attempts rules' st2 →
    (∃ created, rules' = rules ++ created ∧ length created ≤ 1) →
    ∃ new n,
      log (loop (attempt :: attempts) rules st).2 = log st ++ new ∧
      creations new = map creation (take n (attempt :: attempts)) ∧
      match (loop (attempt :: attempts) rules st).1 with
      | Ok out =>
          n = length (attempt :: attempts) ∧
          ∃ created, out = rules ++ created ∧
                     length created ≤ length (attempt :: attempts)
      | Raise e => 1 ≤ n ∧ ∀ msg, e = Conflict msg → tolerated msg = false
      end).
  { intros rules' E (c1 & -> & Hc1). rewrite E.
    destruct (IH (rules ++ c1) st2) as (new & n & H1 & H2 & H3).
    exists ((new0 ++ [creation attempt]) ++ new), (S n).
    split_and!.
    - by rewrite H1, L2, <- !app_assoc.
    - rewrite !creations_app, C0, creations_creation, H2. done.
    - destruct (loop attempts (rules ++ c1) st2).1 as [out|e].
      + destruct H3 as (-> & c2 & -> & Hc2). split; [done|].
        exists (c1 ++ c2). rewrite app_assoc, length_app. simpl.
        split; [done|lia].
      + destruct H3 as [H3 H4]. split; [lia|done]. }
  assert (Hstop : ∀ e,
    loop (attempt :: attempts) rules st = (Raise e, st2) →
    (∀ msg, e = Conflict msg → tolerated msg = false) →
    ∃ new n,
      log (loop (attempt :: attempts) rules st).2 = log st ++ new ∧
      creations new = map creation (take n (attempt :: attempts)) ∧
      match (loop (attempt :: attempts) rules st).1 with
      | Ok out =>
          n = length (attempt :: attempts) ∧
          ∃ created, out = rules ++ created ∧
                     length created ≤ length (attempt :: attempts)
      | Raise e => 1 ≤ n ∧ ∀ msg, e = Conflict msg → tolerated msg = false
      end).
  { intros e E He. rewrite E. exists (new0 ++ [creation attempt]), 1.
    simpl. split_and!; [done| |lia|done].
    by rewrite creations_app, C0, creations_creation. }
  destruct (invoke create [] (asked attempt) (world st1)).1 as [r|e].
  - destruct Hs as [[rule E] | (e & E & He)].
    + apply (Hcontinue _ E). exists [rule]. by split.
    + apply (Hstop _ E). intros msg ->. by destruct (He msg).
  - destruct e; try (apply (Hstop _ Hs); by intros).
    destruct (tolerated msg) eqn:Em.
    + apply (Hcontinue _ Hs). exists []. rewrite app_nil_r. split; [done|simpl; lia].
    + apply (Hstop _ Hs). by intros msg' [= <-].
Qed.

(** Against a cloud that already has every rule, every attempt is made
    and skipped. *)
Lemma loginable_all_skipped :
  (∀ kw w, ∃ msg, (invoke create [] kw w).1 = Raise (Conflict msg) ∧
                   tolerated msg = true) →
  ∀ attempts rules (st : TC),
    ∃ st' new,
      loop attempts rules st = (Ok rules, st') ∧
      log st' = log st ++ new ∧
      creations new = map creation attempts.
Proof.
  intros Hall. induction attempts as [|attempt attempts IH]; intros rules st.
  { exists st, []. unfold loop. simpl. by rewrite app_nil_r. }
  destruct (tenant_readable st) as [t Ht].
  destruct (getattr invoke gc "tenant_id" st) as [x st1] eqn:G.
  simpl in Ht. subst x.
  destruct (tenant_lookup_run st st1 _ G) as (_ & new0 & L0 & C0).
  pose proof (loginable_step attempt attempts rules st st1 t G) as Hs.
  cbv zeta in Hs. set (st2 := mkTestCase _ _ _ _) in Hs.
  destruct (Hall (asked attempt) (world st1)) as (msg & Ha & Hm).
  rewrite Ha, Hm in Hs.
  destruct (IH rules st2) as (st' & new & E & L & C).
  exists st', ((new0 ++ [creation attempt]) ++ new). split_and!.
  - by rewrite Hs.
  - rewrite L. unfold st2. simpl. by rewrite L0, <- !app_assoc.
  - by rewrite !creations_app, C0, creations_creation, C.
Qed.
End Rules.

(** C6: the loop of [_create_loginable_secgroup_rule], for a group given
    as a handle and a client whose tenant can be read.  A creation that
    fails with a [Conflict] whose message contains 'Security group rule
    already exists' is skipped: the loop goes on with the attempts that
    are left and the rules it has so far; a [Conflict] with any other
    message ends the loop and reaches the caller.  Hence the factory
    returns only after it has asked for every one of the six rules, in
    their order; against a cloud that already has every rule it asks for
    all six and returns no rule; against a cloud that answers another
    [Conflict] it raises that one after the first creation; and whenever
    it raises, it has asked for the rules up to the one that failed and
    the failure is no tolerated [Conflict]. *)
Theorem existing_rule_conflict_is_skipped rules_client groups_client cls attrs
    gid gt :
  assoc "id" attrs = Some gid →
  assoc "tenant_id" attrs = Some gt →
  let secgroup := VHandle cls attrs in
  let rc := if is_none rules_client then security_group_rules_client
            else rules_client in
  let gc := if is_none groups_client then security_groups_client
            else groups_client in
  let create := VAttr rc "create_security_group_rule" in
  let creation (attempt : kwargs * string) :=
    Invoke create []
      (<["direction" := VStr attempt.2]> attempt.1 ∪
       {[ "security_group_id" := gid; "tenant_id" := gt ]}) in
  let creations (l : list event) :=
    List.filter (is_call "create_security_group_rule") l in
  let tolerated msg := contains "Security group rule already exists" msg in
  let loop attempts rules (st : TC) :=
    loginable_rules invoke attempts rc secgroup gc rules st in
  let factory (st : TC) :=
    _create_loginable_secgroup_rule invoke rules_client secgroup groups_client
                                    st in
  (∀ s : TC, ∃ t, (getattr invoke gc "tenant_id" s).1 = Ok t) →
  (∀ attempt attempts rules (st st1 : TC) t msg,
     getattr invoke gc "tenant_id" st = (Ok t, st1) →
     let answer := invoke create []
                     (<["direction" := VStr attempt.2]> attempt.1 ∪
                      {[ "security_group_id" := gid; "tenant_id" := gt ]})
                     (world st1) in
     let st2 := mkTestCase (_cleanups st1) (cleanup_waits st1) answer.2
                           (log st1 ++ [creation attempt]) in
     answer.1 = Raise (Conflict msg) →
     loop (attempt :: attempts) rules st =
       if tolerated msg then loop attempts rules st2
       else (Raise (Conflict msg), st2)) ∧
  (∀ (st : TC),
     ∃ new n,
       log (factory st).2 = log st ++ new ∧
       creations new = map creation (take n loginable_attempts) ∧
       match (factory st).1 with
       | Ok rules => n = 6 ∧ length rules ≤ 6
       | Raise e => 1 ≤ n ∧ ∀ msg, e = Conflict msg → tolerated msg = false
       end) ∧
  ((∀ kw w, ∃ msg, (invoke create [] kw w).1 = Raise (Conflict msg) ∧
                    tolerated msg = true) →
   ∀ (st : TC),
     ∃ st' new,
       factory st = (Ok [], st') ∧
       log st' = log st ++ new ∧
       creations new = map creation loginable_attempts) ∧
  (∀ msg,
     tolerated msg = false →
     (∀ kw w, (invoke create [] kw w).1 = Raise (Conflict msg)) →
     ∀ (st : TC),
       (factory st).1 = Raise (Conflict msg) ∧
       ∃ new,
         log (factory st).2 = log st ++ new ∧
         creations new = map creation (take 1 loginable_attempts)).
Proof.
  intros Hid Htenant secgroup rc gc create creation creations tolerated loop
    factory Hread.
  assert (Hfactory : ∀ st, factory st = loop loginable_attempts [] st) by done.
  split_and!.
  - intros attempt attempts rules st st1 t msg Ht answer st2 Ha.
    pose proof (loginable_step rules_client groups_client cls attrs gid gt
                  Hid Htenant attempt attempts rules st st1 t Ht) as Hs.
    cbv beta zeta in Hs.
    subst answer st2. unfold loop, tolerated, creation, create, rc, gc, secgroup
      in *.
    by rewrite Ha in Hs.
  - intros st. rewrite Hfactory.
    destruct (loginable_trace rules_client groups_client cls attrs gid gt
                Hid Htenant Hread loginable_attempts [] st)
      as (new & n & H1 & H2 & H3).
    cbv beta zeta in H1, H2, H3.
    exists new, n.
    unfold loop, tolerated, creation, creations, create, rc, gc, secgroup in *.
    split_and!; [done..|].
    destruct (loginable_rules _ _ _ _ _ _ _).1 as [rules|e]; [|done].
    destruct H3 as (-> & created & -> & Hc). by split.
  - intros Hall st. rewrite Hfactory.
    apply (loginable_all_skipped rules_client groups_client cls attrs gid gt
             Hid Htenant Hread Hall).
  - intros msg Hm Hall st. rewrite Hfactory.
    destruct (Hread st) as [t Ht].
    destruct (getattr invoke gc "tenant_id" st) as [x st1] eqn:G.
    simpl in Ht. subst x.
    destruct (tenant_lookup_run groups_client st st1 _ G)
      as (_ & new0 & L0 & C0).
    destruct loginable_attempts as [|attempt attempts] eqn:Ea; [done|].
    pose proof (loginable_step rules_client groups_client cls attrs gid gt
                  Hid Htenant attempt attempts [] st st1 t G) as Hs.
    cbv beta zeta in Hs, C0.
    unfold loop, tolerated, creation, creations, create, rc, gc, secgroup in *.
    rewrite Hall, Hm in Hs. rewrite Hs. split; [done|]. simpl.
    exists (new0 ++ [Invoke
      (VAttr (if is_none rules_client then security_group_rules_client
              else rules_client) "create_security_group_rule") []
      (<["direction" := VStr attempt.2]> attempt.1 ∪
       {[ "security_group_id" := gid; "tenant_id" := gt ]})]).
    split; [by rewrite L0, <- app_assoc|].
    rewrite List.filter_app, C0. cbn [List.filter is_call app].
    by rewrite String.eqb_refl.
Qed.

(** ** Polling, evaluation by evaluation *)

Section Evaluations.

Variable now : World → nat.
Variable sleep : nat → World → World.

Hypothesis sleep_advances : ∀ d w, now w + d ≤ now (sleep d w).
Hypothesis clock_monotone : ∀ f args kw w, now w ≤ now (invoke f args kw w).2.



End Evaluations.

End Steps.

(** * The properties at concrete inputs *)

Example server_then_volume_teardown :
  log (doCleanups store_backend
         (after_test server_then_volume (fresh ["srv-1"; "vol-1"]))).2 =
  [ Fire (mkEntry DeleteWrapper
            [VAttr (volumes_client no_CONF) "delete_volume"; VStr "vol-1"] ∅);
    Invoke (VAttr (volumes_client no_CONF) "delete_volume") [VStr "vol-1"] ∅;
    Fire (mkEntry DeleteWrapper
            [VAttr servers_client "delete_server"; VStr "srv-1"] ∅);
    Invoke (VAttr servers_client "delete_server") [VStr "srv-1"] ∅;
    Fire wait_entry;
    Invoke (waiters "wait_for_server_termination") []
      (waiter_kwargs "server_id" (VStr "srv-1") servers_client) ].
Proof. vm_compute. reflexivity. Qed.

(** Outside [test_registration]: the override client takes the place of
    the resource id in the wait descriptor, and the waiter is called
    without the id. *)
Example reserved_key_is_overwritten :
  cleanup_waits (after_test id_named_client (fresh ["srv-1"])) =
    [ {[ "waiter_callable" := waiters "wait_for_server_termination";
         "client" := servers_client ]} ] ∧
  last (log (doCleanups store_backend
               (after_test id_named_client (fresh ["srv-1"]))).2) =
    Some (Invoke (waiters "wait_for_server_termination") []
                 {[ "client" := servers_client ]}).
Proof. vm_compute. by split. Qed.

Lemma cleanups_drain_lifo_witness :
  Forall (λ r, ce_action (cleanup_of r) ≠ WaitForCleanups) server_then_volume ∧
  ∃ rest,
    log (doCleanups store_backend
           (after_test server_then_volume (fresh ["srv-1"; "vol-1"]))).2 =
      [ Fire (mkEntry DeleteWrapper
                [VAttr (volumes_client no_CONF) "delete_volume"; VStr "vol-1"] ∅);
        Invoke (VAttr (volumes_client no_CONF) "delete_volume") [VStr "vol-1"] ∅;
        Fire (mkEntry DeleteWrapper
                [VAttr servers_client "delete_server"; VStr "srv-1"] ∅);
        Invoke (VAttr servers_client "delete_server") [VStr "srv-1"] ∅;
        Fire wait_entry ] ++ rest.
Proof.
  assert (H : Forall (λ r, ce_action (cleanup_of r) ≠ WaitForCleanups)
                     server_then_volume)
    by (repeat constructor; discriminate).
  split; [exact H|].
  exact (proj2 (proj2 (proj2
           (cleanups_drain_lifo store_backend (fresh ["srv-1"; "vol-1"])
              server_then_volume))) H).
Defined.

Lemma waits_after_cleanups_witness :
  Forall test_registration server_then_volume ∧
  log (doCleanups store_backend
         (after_test server_then_volume (fresh ["srv-1"; "vol-1"]))).2 =
    flat_map entry_events (rev (map cleanup_of server_then_volume)) ++
    Fire wait_entry ::
    [ Invoke (waiters "wait_for_server_termination") []
             {[ "server_id" := VStr "srv-1"; "client" := servers_client ]} ].
Proof.
  assert (H : Forall test_registration server_then_volume).
  { repeat constructor; simpl; discriminate. }
  split; [exact H|].
  destruct (waits_after_cleanups store_backend (fresh ["srv-1"; "vol-1"])
              server_then_volume H) as (_ & _ & rest & H1 & _ & H2 & _).
  rewrite (H2 eq_refl), app_nil_r in H1. rewrite H1.
  vm_compute. reflexivity.
Defined.

Example server_run_returns :
  server_run.1 = Ok (VDict [("id", VStr "srv-1")]).
Proof. vm_compute. reflexivity. Qed.

Example volume_run_returns :
  (volume_run "vol-name").1 =
  Ok (VDict [("id", VStr "vol-1"); ("status", VStr "available")]).
Proof. vm_compute. reflexivity. Qed.

Example snapshot_run_registers :
  map ce_args (_cleanups snapshot_run.2) =
  [ []; [VAttr image_client "delete_image"; VStr "img-1"];
    [VStr "snap-1"];
    [VAttr (snapshots_client no_CONF) "delete_snapshot"; VStr "snap-1"] ].
Proof. vm_compute. reflexivity. Qed.

(** C4, where the code departs from it: [_create_network] checks the
    echoed name before it registers the cleanup.  Against a cloud that
    creates the network under another name, the creation call is made, the
    check fails, and the registry holds nothing but the entry of [setUp]:
    the network is left without a cleanup.  [create_volume], in the same
    situation, has registered its two entries before the check fails. *)
Theorem network_cleanup_follows_validation :
  network_run.1 = Raise (AssertionError "name") ∧
  calls "create_network" (log network_run.2) = 1 ∧
  _cleanups network_run.2 = [wait_entry] ∧
  (volume_run "another-name").1 = Raise (AssertionError "name") ∧
  _cleanups (volume_run "another-name").2 =
    _cleanups (after_test server_then_volume
                 (fresh (volume_cloud "another-name"))) ++
    [ mkEntry (Foreign (VAttr (volumes_client no_CONF) "wait_for_resource_deletion"))
              [VStr "vol-1"] ∅;
      mkEntry DeleteWrapper
              [VAttr (volumes_client no_CONF) "delete_volume"; VStr "vol-1"] ∅ ].
Proof. vm_compute. by split_and!. Qed.

(** C8, where the code departs from it: [create_keypair] registers the
    delete method of the client itself, not the wrapper, and so does
    [_image_create].  When the test has deleted the keypair, the cleanup
    fails at teardown with [NotFound].  [create_floating_ip] registers
    through the wrapper, and the same test ends without a failure. *)
Theorem keypair_cleanup_is_not_wrapped :
  _cleanups keypair_created.2 =
    [ wait_entry;
      mkEntry (Foreign (VAttr keypairs_client "delete_keypair")) [VStr "kp-1"] ∅ ] ∧
  _cleanups image_created.2 =
    [ wait_entry;
      mkEntry (Foreign (VAttr image_client "delete_image")) [VStr "img-1"] ∅ ] ∧
  keypair_test.1 = [NotFound "kp-1"] ∧
  floating_ip_test.1 = [].
Proof. vm_compute. by split_and!. Qed.

Lemma create_server_waits_twice_witness :
  server_run.1 = Ok (VDict [("id", VStr "srv-1")]) ∧
  ∃ ports id rest,
    let waiter := waiters "wait_for_server_termination" in
    let sc := VAttr manager "servers_client" in
    let W := mkEntry (Foreign waiter) [sc; id] ∅ in
    let D := mkEntry DeleteWrapper [VAttr sc "delete_server"; id] ∅ in
    Forall port_entry ports ∧
    _cleanups server_run.2 = wait_entry :: ports ++ [W; D] ∧
    cleanup_waits server_run.2 =
      [ <["client" := sc]> (<["server_id" := id]> {["waiter_callable" := waiter]}) ] ∧
    log (doCleanups cloud_backend server_run.2).2 =
      log server_run.2 ++
      [ Fire D; Invoke (VAttr sc "delete_server") [id] ∅;
        Fire W; Invoke waiter [sc; id] ∅ ] ++
      flat_map entry_events (rev ports) ++
      [ Fire wait_entry; Invoke waiter [] (waiter_kwargs "server_id" id sc) ] ++
      rest ∧
    fired rest = [].
Proof.
  split; [by vm_compute|].
  assert (H : create_server cloud_backend no_CONF false VNone VNone VNone false
                VNone true VNone ∅ (after_test [] server_start)
              = (Ok (VDict [("id", VStr "srv-1")]), server_run.2))
    by (by vm_compute).
  destruct (create_server_waits_twice cloud_backend no_CONF false
              VNone VNone VNone false VNone VNone ∅ server_start server_run.2
              (Ok (VDict [("id", VStr "srv-1")])) H)
    as (ports & HF & [([e He] & _)|(id & rest & H1 & H2 & H3 & H4)]);
    [discriminate He|].
  exists ports, id, rest.
  split; [exact HF|]. split; [exact H1|]. split; [exact H2|].
  split; [exact H3|exact H4].
Defined.

Lemma volume_wait_in_cleanup_phase_witness :
  (∃ id k rest,
     let wait := VAttr (volumes_client no_CONF) "wait_for_resource_deletion" in
     let del := VAttr (volumes_client no_CONF) "delete_volume" in
     let W := mkEntry (Foreign wait) [id] ∅ in
     let D := mkEntry DeleteWrapper [del; id] ∅ in
     _cleanups (volume_run "vol-name").2 =
       _cleanups (after_test server_then_volume (fresh (volume_cloud "vol-name")))
       ++ [W; D] ∧
     log (doCleanups cloud_backend (volume_run "vol-name").2).2 =
       log (volume_run "vol-name").2 ++
       [ Fire D; Invoke del [id] ∅; Fire W; Invoke wait [id] ∅ ] ++
       flat_map entry_events (rev (map cleanup_of server_then_volume)) ++
       Fire wait_entry :: take k (omap wait_of server_then_volume) ++ rest ∧
     fired rest = []) ∧
  (∃ image_id,
     cleanup_waits snapshot_run.2 =
       [ <["id" := image_id]>
           {["waiter_callable" := VAttr image_client "wait_for_resource_deletion"]} ] ∧
     length (_cleanups snapshot_run.2) = 4).
Proof.
  assert (Hrs : Forall test_registration server_then_volume)
    by (repeat constructor; discriminate).
  assert (H : create_volume cloud_backend no_CONF "TestVolume" VNone VNone VNone
                VNone VNone
                (after_test server_then_volume (fresh (volume_cloud "vol-name")))
              = (Ok (VDict [("id", VStr "vol-1"); ("status", VStr "available")]),
                 (volume_run "vol-name").2))
    by (by vm_compute).
  assert (G : create_server_snapshot cloud_backend no_CONF
                (VDict [("id", VStr "srv-1"); ("name", VStr "server")]) VNone
                (after_test [] snapshot_start)
              = (snapshot_run.1, snapshot_run.2))
    by (by vm_compute).
  pose proof (volume_wait_in_cleanup_phase cloud_backend no_CONF "TestVolume")
    as [V S].
  split.
  - destruct (V VNone VNone VNone VNone VNone server_then_volume
                (fresh (volume_cloud "vol-name")) (volume_run "vol-name").2
                (Ok (VDict [("id", VStr "vol-1"); ("status", VStr "available")]))
                Hrs H)
      as [_ [([e He] & _)|(id & k & rest & H1 & H2 & H3)]]; [discriminate He|].
    exists id, k, rest. split; [exact H1|]. split; [exact H2|exact H3].
  - destruct (S _ VNone [] snapshot_start snapshot_run.2 snapshot_run.1
                (Forall_nil_2 _) G)
      as [(_ & Hc & _)|(image_id & Hw & _)].
    + by vm_compute in Hc.
    + exists image_id. split; [exact Hw|by vm_compute].
Defined.

Example subnet_fourth_candidate :
  (subnet_run 3).1 =
    Ok (VHandle "DeletableSubnet"
          [ ("network_client", network_client);
            ("subnets_client", subnets_client);
            ("routers_client", routers_client);
            ("id", VStr "sub-1"); ("cidr", VStr "10.100.0.48/28") ]) ∧
  calls "list_subnets" (log (subnet_run 3).2) = 4 ∧
  calls "create_subnet" (log (subnet_run 3).2) = 1.
Proof. vm_compute. by split_and!. Qed.

Example subnet_pool_exhausted :
  (subnet_run 5).1 = Raise (AssertionError "Unable to allocate tenant network") ∧
  calls "list_subnets" (log (subnet_run 5).2) = 5 ∧
  calls "create_subnet" (log (subnet_run 5).2) = 0.
Proof. vm_compute. by split_and!. Qed.

Example existing_rule_skipped :
  (∃ rules,
     (rules_run (Raise (Conflict "Security group rule already exists."))).1
       = Ok rules ∧ length rules = 5) ∧
  calls "create_security_group_rule"
    (log (rules_run (Raise (Conflict "Security group rule already exists."))).2) = 6.
Proof. split; [eexists; split; [by vm_compute|done] | by vm_compute]. Qed.

Example other_conflict_propagates :
  (rules_run (Raise (Conflict "Quota exceeded for resources"))).1
    = Raise (Conflict "Quota exceeded for resources") ∧
  calls "create_security_group_rule"
    (log (rules_run (Raise (Conflict "Quota exceeded for resources"))).2) = 2.
Proof. vm_compute. by split. Qed.

Example ping_times_out :
  fst <$> (ping_ip_address ticking_backend no_CONF ticking_now ticking_sleep 4
     (VStr "10.0.0.9") true (VInt 3) ping_start) = Some (Ok false).
Proof. vm_compute. reflexivity. Qed.

Example node_reaches_state :
  fst <$> (_node_state_timeout ticking_backend ticking_now ticking_sleep 11
     (VStr "node-1") "power_state" (VStr "power on") 10 1
     (node_start ["power off"; "power on"]))
    = Some (Ok tt) ∧
  fst <$> (_node_state_timeout ticking_backend ticking_now ticking_sleep 11
     (VStr "node-1") "power_state" (VStr "power on") 10 1
     (node_start (replicate 5 "power off")))
    = Some (Raise (TimeoutException timed_out)).
Proof. vm_compute. by split. Qed.


Lemma delete_wrapper_ignores_not_found_witness :
  (delete_repeatedly store_backend 3
     (VAttr servers_client "delete_server") [VStr "srv-1"] ∅
     (fresh ["vol-1"])).1 = Ok tt.
Proof.
  apply (proj2 (delete_wrapper_ignores_not_found store_backend
                  (VAttr servers_client "delete_server") [VStr "srv-1"] ∅)
           (λ live, "srv-1" ∉ live)).
  - intros live Hgone. simpl. rewrite bool_decide_eq_false_2 by done.
    split; [by eexists|done].
  - simpl. apply not_elem_of_cons. split; [discriminate|apply not_elem_of_nil].
Defined.


Lemma existing_rule_conflict_is_skipped_witness :
  let run := _create_loginable_secgroup_rule saturated_backend VNone secgroup
                                             VNone (fresh 0) in
  run.1 = Ok [] ∧
  length (List.filter (is_call "create_security_group_rule") (log run.2)) = 6.
Proof.
  destruct (existing_rule_conflict_is_skipped saturated_backend VNone VNone
              "DeletableSecurityGroup"
              [("id", VStr "sg-1"); ("tenant_id", VStr "t-1")]
              (VStr "sg-1") (VStr "t-1") eq_refl eq_refl)
    as (_ & _ & H & _).
  { intros s. by eexists. }
  destruct (H (λ kw w, ex_intro _ "Security group rule already exists."
                         (conj eq_refl eq_refl)) (fresh 0))
    as (st' & new & E & L & C).
  cbv zeta. unfold secgroup. rewrite E. cbn [fst snd]. split; [done|].
  rewrite L. cbn [log fresh app]. by rewrite C.
Defined.

Example networks_run_returns :
  ∃ network subnet router,
    networks_run.1 = Ok (network, subnet, router) ∧
    item network "id" = Some (VStr "net-1") ∧
    item subnet "id" = Some (VStr "sub-1") ∧
    item router "id" = Some (VStr "rtr-1").
Proof. vm_compute. by eexists _, _, _. Qed.

Example node_is_awaited :
  fst <$> (wait_node ticking_backend timed_CONF ticking_now ticking_sleep 4
             (VStr "inst-1") association_start) = Some (Ok tt) ∧
  fst <$> (wait_node ticking_backend timed_CONF ticking_now ticking_sleep 4
             (VStr "inst-1")
             (fresh (0, replicate 3 (Raise (NotFound "inst-1")))))
    = Some (Raise (TimeoutException node_timed_out)).
Proof. vm_compute. by split. Qed.

Lemma wait_queue_is_consumed_witness :
  cleanup_waits server_run.2 ≠ [] ∧
  length (cleanup_waits (_wait_for_cleanups cloud_backend server_run.2).2) =
    length (cleanup_waits server_run.2) ∧
  _wait_for_cleanups cloud_backend
    (_wait_for_cleanups cloud_backend server_run.2).2 =
    (Raise (KeyError "waiter_callable"),
     (_wait_for_cleanups cloud_backend server_run.2).2).
Proof.
  assert (H : cleanup_waits server_run.2 ≠ []) by (by vm_compute).
  split; [exact H|].
  exact (wait_queue_is_consumed cloud_backend server_run.2 H).
Defined.

Lemma networks_are_deleted_in_reverse_witness :
  Forall test_registration server_then_volume ∧
  let st := after_test server_then_volume (fresh networks_cloud) in
  let '(r, st') := networks_run in
  cleanup_waits st' = cleanup_waits st ∧
  if truthy (public_CONF "baremetal" "driver_enabled") then
    _cleanups st' = _cleanups st ∧
    match r with
    | Ok (_, subnet, router) => subnet = VNone ∧ router = VNone
    | Raise _ => True
    end
  else
    match r with
    | Ok (network, subnet, router) =>
        let routers :=
          if truthy (public_CONF "network" "public_router_id") then []
          else [handle_delete router] in
        _cleanups st' =
          _cleanups st ++
          handle_delete network :: routers ++ [handle_delete subnet] ∧
        ∃ k rest,
          log (doCleanups cloud_backend st').2 =
            log st' ++
            entry_events (handle_delete subnet) ++
            flat_map entry_events routers ++
            entry_events (handle_delete network) ++
            flat_map entry_events (rev (map cleanup_of server_then_volume)) ++
            Fire wait_entry :: take k (omap wait_of server_then_volume) ++ rest ∧
          fired rest = rev (_cleanups (fresh networks_cloud))
    | Raise _ =>
        ∃ created,
          _cleanups st' = _cleanups st ++ created ∧
          Forall (λ e, ∃ handle, e = handle_delete handle) created ∧
          length created ≤ 3
    end.
Proof.
  assert (H : Forall test_registration server_then_volume)
    by (repeat constructor; discriminate).
  split; [exact H|].
  exact (networks_are_deleted_in_reverse cloud_backend public_CONF VNone VNone
           VNone VNone (VStr "t-1") VNone server_then_volume
           (fresh networks_cloud) H).
Defined.

Lemma container_listing_is_checked_witness :
  list_and_check_container_objects cloud_backend (VStr "c-1")
    (VList [VStr "obj-1"]) (VList [VStr "obj-3"]) container_start =
  (Ok tt,
   mkTestCase [] [] ([], [])
     [Invoke (VAttr container_client "list_container_contents")
             [VStr "c-1"] ∅]).
Proof.
  exact (container_listing_is_checked cloud_backend (VStr "c-1")
           [VStr "obj-1"] [VStr "obj-3"] (VDict [])
           [VStr "obj-1"; VStr "obj-2"] ([], []) container_start eq_refl).
Defined.


Lemma remote_connectivity_matches_expectation_witness :
  (∀ d w, ticking_now w + d ≤ ticking_now (ticking_sleep d w)) ∧
  (∀ f args kw w, ticking_now w ≤ ticking_now (ticking_backend f args kw w).2) ∧
  ∃ r st',
    _check_remote_connectivity ticking_backend timed_CONF ticking_now
      ticking_sleep 4 ssh_source (VStr "10.0.0.9") false VNone remote_start
      = Some (r, st') ∧
    match r with
    | Ok true =>
        ∃ s, match (ticking_backend (VAttr ssh_source "ping_host")
                      [VStr "10.0.0.9"] {[ "nic" := VNone ]} (world s)).1 with
             | Ok _ => false = true
             | Raise e => e = OtherError "SSHExecCommandFailed" ∧ false = false
             end
    | Ok false =>
        ticking_now (world remote_start) + 3 ≤ ticking_now (world st')
    | Raise e =>
        ∃ s, ping_remote ticking_backend ssh_source (VStr "10.0.0.9") false
               VNone s = (Raise e, st')
    end.
Proof.
  assert (H1 : ∀ d w, ticking_now w + d ≤ ticking_now (ticking_sleep d w))
    by (intros d w; unfold ticking_now, ticking_sleep; simpl; lia).
  assert (H2 : ∀ f args kw w,
             ticking_now w ≤ ticking_now (ticking_backend f args kw w).2)
    by (intros f args kw [t []]; unfold ticking_now, ticking_backend; simpl; lia).
  split; [exact H1|]. split; [exact H2|].
  assert (H3 : 3 < 4) by lia.
  exact (remote_connectivity_matches_expectation ticking_backend timed_CONF
           ticking_now ticking_sleep H1 H2 4 ssh_source (VStr "10.0.0.9") false
           VNone remote_start 3 eq_refl H3).
Defined.

Lemma vm_connectivity_check_follows_expectation_witness :
  (∀ d w, ticking_now w + d ≤ ticking_now (ticking_sleep d w)) ∧
  (∀ f args kw w, ticking_now w ≤ ticking_now (ticking_backend f args kw w).2) ∧
  ∃ r st',
    check_vm_connectivity ticking_backend timed_CONF ticking_now ticking_sleep
      4 None (VStr "10.0.0.9") VNone VNone false ping_start = Some (r, st') ∧
    _cleanups st' = _cleanups ping_start ∧
    cleanup_waits st' = cleanup_waits ping_start ∧
    calls "RemoteClient" (log st') = calls "RemoteClient" (log ping_start) ∧
    match r with
    | Ok _ =>
        (∃ s v s1,
           ping ticking_backend
             (VList [VStr "ping"; VStr "-c1"; VStr "-w1"; VStr "10.0.0.9"])
             false s = (Ok v, s1) ∧
           truthy v = true) ∧
        True
    | Raise _ => True
    end.
Proof.
  assert (H1 : ∀ d w, ticking_now w + d ≤ ticking_now (ticking_sleep d w))
    by (intros d w; unfold ticking_now, ticking_sleep; simpl; lia).
  assert (H2 : ∀ f args kw w,
             ticking_now w ≤ ticking_now (ticking_backend f args kw w).2)
    by (intros f args kw [t []]; unfold ticking_now, ticking_backend; simpl; lia).
  split; [exact H1|]. split; [exact H2|].
  assert (H3 : 3 < 4) by lia.
  exact (vm_connectivity_check_follows_expectation ticking_backend timed_CONF
           ticking_now ticking_sleep H1 H2 4 None (VStr "10.0.0.9") VNone VNone
           false ping_start 3 eq_refl H3).
Defined.

Lemma server_ip_follows_connect_method_witness :
  (get_server_ip cloud_backend fixed_CONF false addressed_server
     (fresh ([], []))).1 = Ok (VStr "10.0.0.5").
Proof.
  assert (H : Forall (λ x, is_Some (item x "version") ∧ is_Some (item x "addr"))
                     private_addresses)
    by (repeat constructor; by eexists).
  exact (proj2 (proj2 (server_ip_follows_connect_method cloud_backend fixed_CONF
                         false addressed_server (fresh ([], []))))
           "private" (VDict [("private", VList private_addresses)])
           private_addresses eq_refl eq_refl eq_refl eq_refl H).
Defined.

Lemma compute_rules_go_to_the_last_default_witness :
  ScenarioTest_create_loginable_secgroup_rule cloud_backend VNone groups_start =
  compute_rules cloud_backend compute_rulesets (VStr "sg-3") []
    (mkTestCase [] [] ([], [])
       [Invoke (VAttr compute_security_groups_client "list_security_groups")
               [] ∅]).
Proof.
  assert (H : Forall (λ sg, is_Some (item sg "name") ∧ is_Some (item sg "id"))
                     default_groups)
    by (repeat constructor; by eexists).
  exact (proj2 (compute_rules_go_to_the_last_default cloud_backend VNone
                  groups_start)
           (VDict [("security_groups", VList default_groups)]) default_groups
           ([], []) eq_refl eq_refl H).
Defined.

Lemma deleted_object_is_checked_witness :
  (delete_object cloud_backend (VStr "c-1") (VStr "obj-1") object_start).1
    = Ok tt.
Proof.
  exact (proj2 (deleted_object_is_checked cloud_backend (VStr "c-1")
                  (VStr "obj-1") object_start)
           VNone ([ Ok (VList [VDict []; VList [VStr "obj-2"]]) ], [])
           (VDict []) [VStr "obj-2"] ([], []) eq_refl eq_refl).
Defined.
